(** * A fixed-capacity hash index: shallow embedding of [GenericHashContainer]

    The container of [include/hashcontainer.h] and [include/hashcontainer.hpp]
    is embedded as pure functions over a record holding the two arrays.
    Unsigned integers of the template parameters [sizeType] and [hashType]
    are values of [Z] with the wrap-around written out; the two arrays are
    lists read with [!!] and written with [<[ _ := _ ]>].  Every operation
    returns a [result]: reading or writing outside an array and reducing
    modulo zero are undefined behaviour in C++ and give [Undefined], a failed
    [assert] of a debug build gives [AssertFailed], the exception of the
    constructor gives [Throw], and a loop that exceeds its budget of
    iterations gives [OutOfFuel].  The budget of a loop over the nodes is
    one more than the node array has elements, that of a loop over the
    buckets one more than the bucket array has: a chain that ends never
    takes a walk further (it meets no node twice), and the theorems below
    show that on every container the API can reach no loop exhausts its
    budget. *)

From Stdlib Require Import ZArith Lia.
From stdpp Require Import base numbers option list.

Local Open Scope Z_scope.

(** ** Results of operations *)

Inductive result (A : Type) : Type :=
| Ok (a : A)
| Throw
| Undefined
| AssertFailed
| OutOfFuel.

Arguments Ok {A} a.
Arguments Throw {A}.
Arguments Undefined {A}.
Arguments AssertFailed {A}.
Arguments OutOfFuel {A}.

#[global] Instance result_bind : MBind result := fun A B f r =>
  match r with
  | Ok a => f a
  | Throw => Throw
  | Undefined => Undefined
  | AssertFailed => AssertFailed
  | OutOfFuel => OutOfFuel
  end.

(** ** Data model: [struct Bucket], [struct Node] and the class members *)

Record Bucket : Type := mkBucket { first : Z }.

Record Node : Type := mkNode { hash : Z; next : Z }.

Record Container : Type := mkContainer {
  m_bucketCount : Z;
  m_nodeCount : Z;
  m_bucketList : list Bucket;
  m_nodeList : list Node
}.

(** [AbstractIterator] holds a position; [SearchIterator] adds nothing,
    [Iterator] and [LocalIterator] add the current bucket. *)

Record SearchIterator : Type := mkSearchIterator { s_position : Z }.

Record Iterator : Type := mkIterator { m_position : Z; m_bucket : Z }.

(** [array[i]] as an rvalue: outside the array the behaviour is undefined. *)
Definition at_index {A : Type} (l : list A) (i : Z) : result A :=
  if i <? 0 then Undefined
  else match l !! Z.to_nat i with
       | Some a => Ok a
       | None => Undefined
       end.

(** [array[i] = a]. *)
Definition store {A : Type} (l : list A) (i : Z) (a : A) : result (list A) :=
  _ ← at_index l i; Ok (<[Z.to_nat i := a]> l).

(** [a % b] on unsigned operands. *)
Definition umod (a b : Z) : result Z :=
  if b =? 0 then Undefined else Ok (a mod b).

(** [std::memset(p, 0xFF, sizeof(T) * count)] over an array of [T], where
    [ff] is the value of [T] whose bytes are all [0xFF]. *)
Definition memset_ff {A : Type} (l : list A) (count : Z) (ff : A) : result (list A) :=
  if (count <? 0) || (Z.of_nat (length l) <? count) then Undefined
  else Ok (replicate (Z.to_nat count) ff ++ drop (Z.to_nat count) l).

Section Config.

(** Bit widths of [sizeType] and [hashType], and whether the build keeps
    its assertions ([NDEBUG] not defined). *)
Variables (sbits hbits : Z) (debug : bool).

Definition sizeLimits_max : Z := 2 ^ sbits - 1.
Definition hashLimits_max : Z := 2 ^ hbits - 1.

(** [static_cast<sizeType>], [static_cast<hashType>] and arithmetic in
    [size_t]. *)
Definition to_sizeType (x : Z) : Z := x mod 2 ^ sbits.
Definition to_hashType (x : Z) : Z := x mod 2 ^ hbits.
Definition to_size_t (x : Z) : Z := x mod 2 ^ 64.

Definition assert (b : bool) : result unit :=
  if debug then (if b then Ok tt else AssertFailed) else Ok tt.

Definition high (h : Z) : Z :=
  let bits := (8 - hbits / 8) * 8 in
  to_hashType (Z.shiftr h bits).

Definition low (h : Z) : Z := to_sizeType h.

Definition computeBucketCount (entries : Z) : result Z :=
  let bucketFactor := 2 in
  if entries >=? sizeLimits_max / bucketFactor then Throw
  else Ok (to_sizeType (to_size_t (bucketFactor * entries))).

Definition ff_node : Node := mkNode hashLimits_max sizeLimits_max.
Definition ff_bucket : Bucket := mkBucket sizeLimits_max.

Definition set_nodes (c : Container) (nodes : list Node) : Container :=
  mkContainer (m_bucketCount c) (m_nodeCount c) (m_bucketList c) nodes.

Definition set_buckets (c : Container) (buckets : list Bucket) : Container :=
  mkContainer (m_bucketCount c) (m_nodeCount c) buckets (m_nodeList c).

(** [m_nodeList[i].next = v], [m_nodeList[i].hash = v] and
    [m_bucketList[i].first = v]. *)
Definition write_next (i v : Z) (c : Container) : result Container :=
  n ← at_index (m_nodeList c) i;
  nodes ← store (m_nodeList c) i (mkNode (hash n) v);
  Ok (set_nodes c nodes).

Definition write_hash (i v : Z) (c : Container) : result Container :=
  n ← at_index (m_nodeList c) i;
  nodes ← store (m_nodeList c) i (mkNode v (next n));
  Ok (set_nodes c nodes).

Definition write_first (i v : Z) (c : Container) : result Container :=
  buckets ← store (m_bucketList c) i (mkBucket v);
  Ok (set_buckets c buckets).

Definition clear (c : Container) : result Container :=
  nodes ← (if debug then memset_ff (m_nodeList c) (m_nodeCount c) ff_node
           else Ok (m_nodeList c));
  buckets ← memset_ff (m_bucketList c) (m_bucketCount c) ff_bucket;
  Ok (mkContainer (m_bucketCount c) (m_nodeCount c) buckets nodes).

(** The constructor: [std::make_unique<T[]>(n)] value-initialises the
    arrays, then [clear()] runs. *)
Definition GenericHashContainer (entries : Z) : result Container :=
  bucketCount ← computeBucketCount entries;
  let nodeCount := to_sizeType entries in
  clear (mkContainer bucketCount nodeCount
           (replicate (Z.to_nat bucketCount) (mkBucket 0))
           (replicate (Z.to_nat nodeCount) (mkNode 0 0))).

Definition insert (h value : Z) (c : Container) : result Container :=
  n ← at_index (m_nodeList c) value;
  _ ← assert (next n =? sizeLimits_max);
  _ ← assert (hash n =? hashLimits_max);
  b ← umod (low h) (m_bucketCount c);
  bucket ← at_index (m_bucketList c) b;
  c ← write_next value (first bucket) c;
  c ← write_hash value (high h) c;
  write_first b value c.

(** The debug-only overwrite of a removed node. *)
Definition poison (value : Z) (c : Container) : result Container :=
  if debug then
    c ← write_next value sizeLimits_max c;
    write_hash value hashLimits_max c
  else Ok c.

(** The predecessor scan of [remove]; it does not stop after relinking. *)
Fixpoint remove_loop (fuel : nat) (value current : Z) (c : Container)
  : result Container :=
  match fuel with
  | O => OutOfFuel
  | S fuel' =>
      if current =? sizeLimits_max then Ok c
      else
        n ← at_index (m_nodeList c) current;
        c ← (if next n =? value then
               v ← at_index (m_nodeList c) value;
               write_next current (next v) c
             else Ok c);
        n ← at_index (m_nodeList c) current;
        remove_loop fuel' value (next n) c
  end.

Definition remove (h value : Z) (c : Container) : result Container :=
  n ← at_index (m_nodeList c) value;
  if negb (hash n =? high h) then Ok c
  else
    b ← umod (low h) (m_bucketCount c);
    bucket ← at_index (m_bucketList c) b;
    let current := first bucket in
    if current =? value then
      c ← write_first b (next n) c;
      poison value c
    else
      c ← remove_loop (S (length (m_nodeList c))) value current c;
      poison value c.

(** The loop of [findNext(hashType hash, sizeType current)]. *)
Fixpoint findNext_loop (fuel : nat) (hh current : Z) (c : Container)
  : result Z :=
  match fuel with
  | O => OutOfFuel
  | S fuel' =>
      if current =? sizeLimits_max then Ok sizeLimits_max
      else
        n ← at_index (m_nodeList c) current;
        if hash n =? hh then Ok current
        else findNext_loop fuel' hh (next n) c
  end.

(** The two overloads of [findNext] need two names: [findNext2] is
    [findNext(hashType hash, sizeType current)], whose loop is above. *)
Definition findNext2 (hh current : Z) (c : Container) : result Z :=
  findNext_loop (S (length (m_nodeList c))) hh current c.

(** [findNext(sizeType current)]. *)
Definition findNext (current : Z) (c : Container) : result Z :=
  n ← at_index (m_nodeList c) current;
  findNext2 (hash n) (next n) c.

(** The protected overload [find(hashType hash, sizeType pos)]. *)
Definition find_in (hh pos : Z) (c : Container) : result SearchIterator :=
  bucket ← at_index (m_bucketList c) pos;
  p ← findNext2 hh (first bucket) c;
  Ok (mkSearchIterator p).

Definition find (h : Z) (c : Container) : result SearchIterator :=
  b ← umod (low h) (m_bucketCount c);
  find_in (high h) b c.

Definition emplace (h value : Z) (c : Container) : result Container :=
  _ ← assert (negb (value =? sizeLimits_max));
  n ← at_index (m_nodeList c) value;
  _ ← assert (next n =? sizeLimits_max);
  b ← umod (low h) (m_bucketCount c);
  c ← write_next value b c;
  write_hash value (high h) c.

Definition insertEmplaced (value : Z) (c : Container) : result Container :=
  _ ← assert (negb (value =? sizeLimits_max));
  n ← at_index (m_nodeList c) value;
  _ ← assert (negb (next n =? sizeLimits_max));
  bucket ← at_index (m_bucketList c) (next n);
  c ← write_next value (first bucket) c;
  write_first (next n) value c.

Definition findEmplaced (pos : Z) (c : Container) : result SearchIterator :=
  _ ← assert (negb (pos =? sizeLimits_max));
  n ← at_index (m_nodeList c) pos;
  _ ← assert (negb (next n =? sizeLimits_max));
  find_in (hash n) (next n) c.

Definition end_ (c : Container) : Iterator := mkIterator sizeLimits_max 0.

Fixpoint begin_loop (fuel : nat) (bucket : Z) (c : Container)
  : result Iterator :=
  match fuel with
  | O => OutOfFuel
  | S fuel' =>
      b ← at_index (m_bucketList c) bucket;
      if first b =? sizeLimits_max then
        let bucket := to_sizeType (bucket + 1) in
        if bucket =? m_bucketCount c then Ok (end_ c)
        else begin_loop fuel' bucket c
      else Ok (mkIterator (first b) bucket)
  end.

Definition begin (c : Container) : result Iterator :=
  begin_loop (S (length (m_bucketList c))) 0 c.

Definition localBegin (index : Z) (c : Container) : result Iterator :=
  b ← at_index (m_bucketList c) index;
  Ok (mkIterator (first b) index).

Definition localEnd (c : Container) : Iterator := mkIterator sizeLimits_max 0.

Definition nodes (c : Container) : Z := m_nodeCount c.
Definition buckets (c : Container) : Z := m_bucketCount c.

(** [hash(sizeType index)], the accessor of a node's stored fragment. *)
Definition hash_of (index : Z) (c : Container) : result Z :=
  n ← at_index (m_nodeList c) index; Ok (hash n).

(** The bucket scan of [nextElement]: [while (++bucket != m_bucketCount)]. *)
Fixpoint nextElement_loop (fuel : nat) (bucket : Z) (c : Container)
  : result (Z * Z) :=
  match fuel with
  | O => OutOfFuel
  | S fuel' =>
      let bucket := to_sizeType (bucket + 1) in
      if bucket =? m_bucketCount c then Ok (sizeLimits_max, bucket)
      else
        b ← at_index (m_bucketList c) bucket;
        if negb (first b =? sizeLimits_max) then Ok (first b, bucket)
        else nextElement_loop fuel' bucket c
  end.

(** [nextElement(current, bucket)] returns the new position together with
    the bucket it leaves in the reference parameter. *)
Definition nextElement (current bucket : Z) (c : Container)
  : result (Z * Z) :=
  n ← at_index (m_nodeList c) current;
  if negb (next n =? sizeLimits_max) then Ok (next n, bucket)
  else nextElement_loop (S (length (m_bucketList c))) bucket c.

(** The cursors: [operator bool] and the three [operator++]. *)
Definition valid (position : Z) : bool := negb (position =? sizeLimits_max).

Definition search_incr (it : SearchIterator) (c : Container)
  : result SearchIterator :=
  p ← findNext (s_position it) c; Ok (mkSearchIterator p).

Definition iterator_incr (it : Iterator) (c : Container) : result Iterator :=
  pb ← nextElement (m_position it) (m_bucket it) c;
  Ok (mkIterator pb.1 pb.2).

Definition local_incr (it : Iterator) (c : Container) : result Iterator :=
  let currentBucket := m_bucket it in
  it ← iterator_incr it c;
  if negb (m_bucket it =? currentBucket)
  then Ok (mkIterator sizeLimits_max (m_bucket it))
  else Ok it.

(** The loop [for (; it; ++it) out.push_back( *it )] of a caller, for each
    cursor type. *)
Fixpoint search_walk (fuel : nat) (it : SearchIterator) (c : Container)
  : result (list Z) :=
  match fuel with
  | O => OutOfFuel
  | S fuel' =>
      if valid (s_position it) then
        it' ← search_incr it c;
        rest ← search_walk fuel' it' c;
        Ok (s_position it :: rest)
      else Ok []
  end.

Fixpoint global_walk (fuel : nat) (it : Iterator) (c : Container)
  : result (list Z) :=
  match fuel with
  | O => OutOfFuel
  | S fuel' =>
      if valid (m_position it) then
        it' ← iterator_incr it c;
        rest ← global_walk fuel' it' c;
        Ok (m_position it :: rest)
      else Ok []
  end.

Fixpoint local_walk (fuel : nat) (it : Iterator) (c : Container)
  : result (list Z) :=
  match fuel with
  | O => OutOfFuel
  | S fuel' =>
      if valid (m_position it) then
        it' ← local_incr it c;
        rest ← local_walk fuel' it' c;
        Ok (m_position it :: rest)
      else Ok []
  end.

(** Everything a restricted-match cursor yields, from [find] or
    [findEmplaced] on; everything the global cursor yields from [begin()]
    on; everything a bucket-scoped cursor yields from [localBegin] on. *)
Definition find_all (h : Z) (c : Container) : result (list Z) :=
  it ← find h c; search_walk (S (length (m_nodeList c))) it c.

Definition findEmplaced_all (pos : Z) (c : Container) : result (list Z) :=
  it ← findEmplaced pos c; search_walk (S (length (m_nodeList c))) it c.

Definition enumerate (c : Container) : result (list Z) :=
  it ← begin c; global_walk (S (length (m_nodeList c))) it c.

Definition enumerate_bucket (index : Z) (c : Container) : result (list Z) :=
  it ← localBegin index c; local_walk (S (length (m_nodeList c))) it c.

End Config.

(** ** Histories of calls and the entries they leave

    The claims speak of live entries, of slots that were emplaced and not
    yet linked, and of insertion order.  None of this is stored by the
    container, so it is tracked beside it: [linked] holds the pairs of hash
    and slot that are in a bucket chain, most recent first, and [emplaced]
    the pairs written by [emplace] and not yet linked. *)

Inductive Op : Type :=
| OpInsert (h value : Z)
| OpRemove (h value : Z)
| OpClear
| OpEmplace (h value : Z)
| OpInsertEmplaced (value : Z).

Record Ghost : Type := mkGhost {
  linked : list (Z * Z);
  emplaced : list (Z * Z)
}.

Definition no_entries : Ghost := mkGhost [] [].

Definition has_slot (s : Z) (l : list (Z * Z)) : bool :=
  existsb (fun e => e.2 =? s) l.

Definition has_entry (h s : Z) (l : list (Z * Z)) : bool :=
  existsb (fun e => (e.1 =? h) && (e.2 =? s)) l.

Fixpoint drop_slot (s : Z) (l : list (Z * Z)) : list (Z * Z) :=
  match l with
  | [] => []
  | e :: l' => if e.2 =? s then drop_slot s l' else e :: drop_slot s l'
  end.

Fixpoint hash_at (s : Z) (l : list (Z * Z)) : option Z :=
  match l with
  | [] => None
  | e :: l' => if e.2 =? s then Some e.1 else hash_at s l'
  end.

Definition ghost_step (op : Op) (g : Ghost) : Ghost :=
  match op with
  | OpInsert h s => mkGhost ((h, s) :: linked g) (emplaced g)
  | OpRemove h s => mkGhost (drop_slot s (linked g)) (emplaced g)
  | OpClear => no_entries
  | OpEmplace h s => mkGhost (linked g) ((h, s) :: emplaced g)
  | OpInsertEmplaced s =>
      match hash_at s (emplaced g) with
      | Some h => mkGhost ((h, s) :: linked g) (drop_slot s (emplaced g))
      | None => g
      end
  end.

Definition ghost_run (ops : list Op) (g : Ghost) : Ghost :=
  fold_left (fun g op => ghost_step op g) ops g.

(** A 64-bit hash and a slot of the container that is neither linked nor
    emplaced: the precondition of [insert] and [emplace]. *)
Definition fresh (nodeCount h s : Z) (g : Ghost) : bool :=
  (0 <=? h) && (h <? 2 ^ 64) && (0 <=? s) && (s <? nodeCount)
  && negb (has_slot s (linked g)) && negb (has_slot s (emplaced g)).

(** The calls the API allows in a given situation. *)
Definition permitted (nodeCount : Z) (op : Op) (g : Ghost) : bool :=
  match op with
  | OpInsert h s => fresh nodeCount h s g
  | OpRemove h s => has_entry h s (linked g)
  | OpClear => true
  | OpEmplace h s => fresh nodeCount h s g
  | OpInsertEmplaced s => has_slot s (emplaced g)
  end.

Fixpoint permitted_all (nodeCount : Z) (ops : list Op) (g : Ghost) : bool :=
  match ops with
  | [] => true
  | op :: ops' =>
      permitted nodeCount op g && permitted_all nodeCount ops' (ghost_step op g)
  end.

(** The slots of bucket [b] in the order of its chain, read off the
    history: the linked entries whose hash selects [b], most recent first. *)
Fixpoint chain_of (sbits bucketCount b : Z) (l : list (Z * Z)) : list Z :=
  match l with
  | [] => []
  | e :: l' =>
      if low sbits e.1 mod bucketCount =? b
      then e.2 :: chain_of sbits bucketCount b l'
      else chain_of sbits bucketCount b l'
  end.

(** The slots of the linked entries that agree with hash [h] on bucket and
    stored fragment, most recent first. *)
Fixpoint same_hash (sbits hbits bucketCount h : Z) (l : list (Z * Z)) : list Z :=
  match l with
  | [] => []
  | e :: l' =>
      if (low sbits e.1 mod bucketCount =? low sbits h mod bucketCount)
         && (high hbits e.1 =? high hbits h)
      then e.2 :: same_hash sbits hbits bucketCount h l'
      else same_hash sbits hbits bucketCount h l'
  end.

(** The chains of buckets [b], [b + 1], ..., [b + k - 1] one after another. *)
Fixpoint chains_from (sbits bucketCount b : Z) (k : nat) (l : list (Z * Z))
  : list Z :=
  match k with
  | O => []
  | S k' => chain_of sbits bucketCount b l
            ++ chains_from sbits bucketCount (b + 1) k' l
  end.

Section Run.

Variables (sbits hbits : Z) (debug : bool).

Definition exec (op : Op) (c : Container) : result Container :=
  match op with
  | OpInsert h s => insert sbits hbits debug h s c
  | OpRemove h s => remove sbits hbits debug h s c
  | OpClear => clear sbits hbits debug c
  | OpEmplace h s => emplace sbits hbits debug h s c
  | OpInsertEmplaced s => insertEmplaced sbits debug s c
  end.

Fixpoint run (ops : list Op) (c : Container) : result Container :=
  match ops with
  | [] => Ok c
  | op :: ops' => c' ← exec op c; run ops' c'
  end.

(** A path through the [next] fields: from [start] along the slots of
    [l], arriving at [stop]. *)
Fixpoint Seg (nodes : list Node) (start : Z) (l : list Z) (stop : Z) : Prop :=
  match l with
  | [] => start = stop
  | x :: l' =>
      start = x /\ 0 <= x /\ x <> sizeLimits_max sbits /\
      exists n, nodes !! Z.to_nat x = Some n /\ Seg nodes (next n) l' stop
  end.

Definition shape (c : Container) : Prop :=
  0 <= m_nodeCount c /\
  m_bucketCount c = 2 * m_nodeCount c /\
  m_bucketCount c < sizeLimits_max sbits /\
  length (m_bucketList c) = Z.to_nat (m_bucketCount c) /\
  length (m_nodeList c) = Z.to_nat (m_nodeCount c).

(** The container [c] represents the entries [g]. *)
Definition Rep (c : Container) (g : Ghost) : Prop :=
  shape c /\
  NoDup ((linked g).*2 ++ (emplaced g).*2) /\
  (forall h s, (h, s) ∈ linked g ++ emplaced g -> 0 <= s < m_nodeCount c) /\
  (forall b, 0 <= b < m_bucketCount c ->
     exists bk, m_bucketList c !! Z.to_nat b = Some bk /\
       Seg (m_nodeList c) (first bk)
           (chain_of sbits (m_bucketCount c) b (linked g))
           (sizeLimits_max sbits)) /\
  (forall h s, (h, s) ∈ linked g ->
     exists n, m_nodeList c !! Z.to_nat s = Some n /\ hash n = high hbits h) /\
  (forall h s, (h, s) ∈ emplaced g ->
     m_nodeList c !! Z.to_nat s
     = Some (mkNode (high hbits h) (low sbits h mod m_bucketCount c))) /\
  (debug = true -> forall s, 0 <= s < m_nodeCount c ->
     s ∉ (linked g).*2 -> s ∉ (emplaced g).*2 ->
     m_nodeList c !! Z.to_nat s = Some (ff_node sbits hbits)).

End Run.

(** The slots of [l] whose node stores the fragment [hh], in the order of
    [l]. *)
Definition matching (nodes : list Node) (hh : Z) (l : list Z) : list Z :=
  List.filter
    (fun x => match nodes !! Z.to_nat x with
              | Some n => hash n =? hh
              | None => false
              end) l.

(** The template parameters the header accepts: unsigned types of at most
    eight bytes for [sizeType] and of fewer than eight for [hashType]. *)
Definition widths_ok (sbits hbits : Z) : Prop :=
  8 <= sbits <= 64 /\ 8 <= hbits < 64.

(** The global cursor [it] stands at the head of [rest], what is left for it
    to visit: either nothing, or the tail [l'] of the chain of its bucket
    followed by the chains of the buckets after it. *)
Definition standing (sbits : Z) (c : Container) (lk : list (Z * Z))
  (it : Iterator) (rest : list Z) : Prop :=
  m_position it = hd (sizeLimits_max sbits) rest /\
  (rest = [] \/
   exists l', 0 <= m_bucket it < m_bucketCount c /\ l' <> [] /\
     Seg sbits (m_nodeList c) (m_position it) l' (sizeLimits_max sbits) /\
     rest = l' ++ chains_from sbits (m_bucketCount c) (m_bucket it + 1)
                    (Z.to_nat (m_bucketCount c - m_bucket it - 1)) lk).

(** A link field holds the sentinel or the index of a node. *)
Definition link_ok (sbits : Z) (c : Container) (v : Z) : Prop :=
  v = sizeLimits_max sbits \/ 0 <= v < m_nodeCount c.

(** The bucket array heads one chain per bucket: [chains] lists them by
    bucket index.  Each chain is a finite path from the head of its bucket to
    the sentinel, every link on it is the sentinel or the index of a node,
    and no slot is met twice, in one chain or in two. *)
Definition well_formed (sbits : Z) (c : Container) (chains : list (list Z)) : Prop :=
  length chains = Z.to_nat (m_bucketCount c) /\
  NoDup (concat chains) /\
  forall (b : nat) (l : list Z), chains !! b = Some l ->
    exists bk, m_bucketList c !! b = Some bk /\
      Seg sbits (m_nodeList c) (first bk) l (sizeLimits_max sbits) /\
      link_ok sbits c (first bk) /\
      forall x, x ∈ l ->
        0 <= x < m_nodeCount c /\
        exists n, m_nodeList c !! Z.to_nat x = Some n /\ link_ok sbits c (next n).

(** [AbstractIterator::operator==] compares the positions only. *)
Definition iterator_eq (a b : Iterator) : bool :=
  m_position a =? m_position b.

(** ** Copying and swapping

    [copyArray] allocates [size] elements and copies the first [size]
    elements of [reference] into them with [std::copy_n]; reading past the
    end of [reference] is undefined. *)
Definition copyArray {T : Type} (reference : list T) (size : Z)
  : result (list T) :=
  if (size <? 0) || (Z.of_nat (length reference) <? size) then Undefined
  else Ok (take (Z.to_nat size) reference).

(** The copy constructor. *)
Definition GenericHashContainer_copy (other : Container) : result Container :=
  bucketList ← copyArray (m_bucketList other) (m_bucketCount other);
  nodeList ← copyArray (m_nodeList other) (m_nodeCount other);
  Ok (mkContainer (m_bucketCount other) (m_nodeCount other) bucketList nodeList).

(** [swap(other)] on the pair of [*this] and [other]. *)
Definition swap (this other : Container) : Container * Container :=
  (mkContainer (m_bucketCount other) (m_nodeCount other)
     (m_bucketList other) (m_nodeList other),
   mkContainer (m_bucketCount this) (m_nodeCount this)
     (m_bucketList this) (m_nodeList this)).

(** [operator=(GenericHashContainer other)]: the argument is a copy made by
    the caller, swapped into [*this]; the old contents leave with it. *)
Definition assign (this other : Container) : result Container :=
  tmp ← GenericHashContainer_copy other;
  Ok (swap this tmp).1.

(** The move constructor on [other]: the new object takes the counts and the
    arrays, and [other] keeps its counts while its two [unique_ptr]s are
    left null.  A null array is the array with no element: every access to
    it is undefined.  The pair is the new object and [other] afterwards. *)
Definition GenericHashContainer_move (other : Container)
  : Container * Container :=
  (mkContainer (m_bucketCount other) (m_nodeCount other)
     (m_bucketList other) (m_nodeList other),
   mkContainer (m_bucketCount other) (m_nodeCount other) [] []).

(** The calls of the test [insert_n_elements_into_n_buckets]: slot [i] under
    hash [i], for [i] from 0 to [n - 1]. *)
Definition identity_inserts (n : nat) : list Op :=
  (fun i => OpInsert (Z.of_nat i) (Z.of_nat i)) <$> seq 0 n.

(** The pairs these calls leave, in the order of the calls. *)
Definition identities (n : nat) : list (Z * Z) :=
  (fun i => (Z.of_nat i, Z.of_nat i)) <$> seq 0 n.

(** ** Elementary facts about array accesses *)

Lemma bind_Ok {A B : Type} (a : A) (f : A -> result B) : (Ok a ≫= f) = f a.
Proof. reflexivity. Qed.

Lemma bind_Ok_inv {A B : Type} (r : result A) (f : A -> result B) (b : B) :
  (r ≫= f) = Ok b -> exists a, r = Ok a /\ f a = Ok b.
Proof. destruct r; simpl; intros H; try discriminate. eauto. Qed.

Lemma at_index_ok {A : Type} (l : list A) (i : Z) (a : A) :
  0 <= i -> l !! Z.to_nat i = Some a -> at_index l i = Ok a.
Proof.
  intros Hi Hl. unfold at_index.
  destruct (Z.ltb_spec i 0); [lia|]. now rewrite Hl.
Qed.

Lemma at_index_inv {A : Type} (l : list A) (i : Z) (a : A) :
  at_index l i = Ok a -> 0 <= i /\ l !! Z.to_nat i = Some a.
Proof.
  unfold at_index. destruct (Z.ltb_spec i 0); [discriminate|].
  destruct (l !! Z.to_nat i); [|discriminate]. intros [= ->]. auto.
Qed.

Lemma store_ok {A : Type} (l : list A) (i : Z) (a b : A) :
  0 <= i -> l !! Z.to_nat i = Some a ->
  store l i b = Ok (<[Z.to_nat i := b]> l).
Proof. intros Hi Hl. unfold store. now rewrite (at_index_ok l i a). Qed.

Lemma umod_ok (a b : Z) : b <> 0 -> umod a b = Ok (a mod b).
Proof. intros Hb. unfold umod. destruct (Z.eqb_spec b 0); [lia|]. reflexivity. Qed.

Lemma lookup_Z_lt {A : Type} (l : list A) (i : Z) (a : A) :
  0 <= i -> l !! Z.to_nat i = Some a -> i < Z.of_nat (length l).
Proof. intros Hi Hl. apply lookup_lt_Some in Hl. lia. Qed.

Lemma Z_to_nat_ne (i j : Z) : 0 <= i -> 0 <= j -> i <> j -> Z.to_nat i <> Z.to_nat j.
Proof. lia. Qed.

Lemma memset_ff_ok {A : Type} (l : list A) (count : Z) (ff : A) :
  0 <= count -> length l = Z.to_nat count ->
  memset_ff l count ff = Ok (replicate (Z.to_nat count) ff).
Proof.
  intros Hc Hl. unfold memset_ff.
  destruct (Z.ltb_spec count 0); [lia|].
  destruct (Z.ltb_spec (Z.of_nat (length l)) count); [lia|]. simpl.
  rewrite drop_ge by lia. now rewrite app_nil_r.
Qed.

Section Effects.

Variables (sbits hbits : Z) (debug : bool).

Local Abbreviation smax := (sizeLimits_max sbits).
Local Abbreviation hmax := (hashLimits_max hbits).

Lemma write_next_ok c i v n :
  0 <= i -> m_nodeList c !! Z.to_nat i = Some n ->
  write_next i v c
  = Ok (set_nodes c (<[Z.to_nat i := mkNode (hash n) v]> (m_nodeList c))).
Proof.
  intros Hi Hn. unfold write_next.
  rewrite (at_index_ok _ _ _ Hi Hn). simpl.
  now rewrite (store_ok _ _ _ _ Hi Hn).
Qed.

Lemma write_hash_ok c i v n :
  0 <= i -> m_nodeList c !! Z.to_nat i = Some n ->
  write_hash i v c
  = Ok (set_nodes c (<[Z.to_nat i := mkNode v (next n)]> (m_nodeList c))).
Proof.
  intros Hi Hn. unfold write_hash.
  rewrite (at_index_ok _ _ _ Hi Hn). simpl.
  now rewrite (store_ok _ _ _ _ Hi Hn).
Qed.

Lemma write_first_ok c i v b :
  0 <= i -> m_bucketList c !! Z.to_nat i = Some b ->
  write_first i v c
  = Ok (set_buckets c (<[Z.to_nat i := mkBucket v]> (m_bucketList c))).
Proof.
  intros Hi Hb. unfold write_first. now rewrite (store_ok _ _ _ _ Hi Hb).
Qed.

(** Writing both fields of a node, in either order. *)
Lemma write_node_ok c i nx hs n :
  0 <= i -> m_nodeList c !! Z.to_nat i = Some n ->
  (c' ← write_next i nx c; write_hash i hs c')
  = Ok (set_nodes c (<[Z.to_nat i := mkNode hs nx]> (m_nodeList c))).
Proof.
  intros Hi Hn. rewrite (write_next_ok _ _ _ _ Hi Hn). simpl.
  erewrite write_hash_ok; [|exact Hi|].
  2:{ simpl. apply list_lookup_insert_eq. eapply lookup_lt_Some, Hn. }
  simpl. unfold set_nodes. simpl. now rewrite list_insert_insert_eq.
Qed.

Lemma assert_true b : b = true -> assert debug b = Ok tt.
Proof. intros ->. unfold assert. now destruct debug. Qed.

Lemma assert_release b : debug = false -> assert debug b = Ok tt.
Proof. intros ->. reflexivity. Qed.

(** What [insert] writes, when its accesses are in range and its
    assertions hold. *)
Lemma insert_effect c h s n bk :
  0 <= s -> m_nodeList c !! Z.to_nat s = Some n ->
  (debug = true -> n = ff_node sbits hbits) ->
  m_bucketCount c <> 0 ->
  0 <= low sbits h mod m_bucketCount c ->
  m_bucketList c !! Z.to_nat (low sbits h mod m_bucketCount c) = Some bk ->
  insert sbits hbits debug h s c
  = Ok (mkContainer (m_bucketCount c) (m_nodeCount c)
          (<[Z.to_nat (low sbits h mod m_bucketCount c) := mkBucket s]>
             (m_bucketList c))
          (<[Z.to_nat s := mkNode (high hbits h) (first bk)]> (m_nodeList c))).
Proof.
  intros Hs Hn Hdbg Hbc Hb0 Hbk. unfold insert.
  rewrite (at_index_ok _ _ _ Hs Hn). simpl.
  assert (Ha1 : assert debug (next n =? smax) = Ok tt).
  { destruct debug eqn:E; [|reflexivity]. rewrite (Hdbg eq_refl). simpl.
    unfold assert. now rewrite Z.eqb_refl. }
  assert (Ha2 : assert debug (hash n =? hmax) = Ok tt).
  { destruct debug eqn:E; [|reflexivity]. rewrite (Hdbg eq_refl). simpl.
    unfold assert. now rewrite Z.eqb_refl. }
  rewrite Ha1. simpl. rewrite Ha2. simpl.
  rewrite (umod_ok _ _ Hbc). simpl.
  rewrite (at_index_ok _ _ _ Hb0 Hbk). simpl.
  pose proof (write_node_ok c s (first bk) (high hbits h) n Hs Hn) as Hw.
  destruct (write_next s (first bk) c) as [c1| | | |] eqn:E1; simpl in Hw;
    try discriminate.
  simpl. rewrite Hw. simpl.
  erewrite write_first_ok; [|exact Hb0|exact Hbk]. reflexivity.
Qed.

End Effects.

(** ** Facts about the recorded entries *)

Lemma has_slot_true s l : has_slot s l = true <-> s ∈ l.*2.
Proof.
  unfold has_slot. rewrite existsb_exists, list_elem_of_fmap. split.
  - intros [e [Hin He]]. exists e. split; [lia|]. now apply list_elem_of_In.
  - intros [e [-> Hin]]. exists e. split; [now apply list_elem_of_In|lia].
Qed.

Lemma has_slot_false s l : has_slot s l = false <-> s ∉ l.*2.
Proof.
  rewrite <- has_slot_true. destruct (has_slot s l); split; try easy.
Qed.

Lemma has_entry_true h s l : has_entry h s l = true <-> (h, s) ∈ l.
Proof.
  unfold has_entry. rewrite existsb_exists. split.
  - intros [[h' s'] [Hin He]]. simpl in He.
    apply andb_true_iff in He as [H1 H2].
    apply Z.eqb_eq in H1, H2. subst. now apply list_elem_of_In.
  - intros Hin. exists (h, s). split; [now apply list_elem_of_In|].
    simpl. now rewrite !Z.eqb_refl.
Qed.

Lemma elem_of_slots h s (l : list (Z * Z)) : (h, s) ∈ l -> s ∈ l.*2.
Proof. intros H. apply list_elem_of_fmap. now exists (h, s). Qed.

Lemma slots_elem_of s (l : list (Z * Z)) : s ∈ l.*2 -> exists h, (h, s) ∈ l.
Proof.
  intros H. apply list_elem_of_fmap in H as [[h s'] [-> Hin]]. now exists h.
Qed.

Lemma NoDup_slots_hash h h' s (l : list (Z * Z)) :
  NoDup l.*2 -> (h, s) ∈ l -> (h', s) ∈ l -> h = h'.
Proof.
  induction l as [|[h0 s0] l IH]; simpl; intros Hnd H1 H2.
  - inversion H1.
  - apply NoDup_cons in Hnd as [Hnot Hnd].
    apply elem_of_cons in H1 as [H1|H1], H2 as [H2|H2].
    + congruence.
    + injection H1 as -> ->. contradict Hnot. eapply elem_of_slots, H2.
    + injection H2 as -> ->. contradict Hnot. eapply elem_of_slots, H1.
    + now apply IH.
Qed.

Lemma elem_of_drop_slot h s s0 l :
  (h, s) ∈ drop_slot s0 l <-> (h, s) ∈ l /\ s <> s0.
Proof.
  induction l as [|[h1 s1] l IH]; simpl.
  - split; [intros H; inversion H|intros [H _]; inversion H].
  - destruct (Z.eqb_spec s1 s0) as [->|Hne].
    + rewrite IH, elem_of_cons. split; [tauto|].
      intros [[H|H] Hs]; [congruence|tauto].
    + rewrite !elem_of_cons, IH. split.
      * intros [H|H]; [|tauto]. injection H as -> ->. tauto.
      * tauto.
Qed.

Lemma slots_drop_slot s s0 l : s ∈ (drop_slot s0 l).*2 <-> s ∈ l.*2 /\ s <> s0.
Proof.
  split.
  - intros H. apply slots_elem_of in H as [h H].
    apply elem_of_drop_slot in H as [H1 H2]. split; [|easy].
    eapply elem_of_slots, H1.
  - intros [H Hne]. apply slots_elem_of in H as [h H].
    apply (elem_of_slots h). now apply elem_of_drop_slot.
Qed.

Lemma NoDup_drop_slot s0 l : NoDup l.*2 -> NoDup (drop_slot s0 l).*2.
Proof.
  induction l as [|[h1 s1] l IH]; simpl; [easy|].
  rewrite NoDup_cons. intros [Hnot Hnd].
  destruct (Z.eqb_spec s1 s0); [now apply IH|].
  simpl. apply NoDup_cons. split; [|now apply IH].
  rewrite slots_drop_slot. tauto.
Qed.

Lemma drop_slot_absent s0 l : s0 ∉ l.*2 -> drop_slot s0 l = l.
Proof.
  induction l as [|[h1 s1] l IH]; simpl; [easy|].
  rewrite not_elem_of_cons. intros [Hne Hnot].
  destruct (Z.eqb_spec s1 s0); [congruence|]. now rewrite IH.
Qed.

Lemma hash_at_Some s l h : hash_at s l = Some h -> (h, s) ∈ l.
Proof.
  induction l as [|[h1 s1] l IH]; simpl; [discriminate|].
  destruct (Z.eqb_spec s1 s) as [->|Hne].
  - intros [= ->]. apply elem_of_cons. now left.
  - intros H. apply elem_of_cons. right. now apply IH.
Qed.

Lemma hash_at_is_Some s l : s ∈ l.*2 -> exists h, hash_at s l = Some h.
Proof.
  induction l as [|[h1 s1] l IH]; simpl; [intros H; inversion H|].
  rewrite elem_of_cons. intros H.
  destruct (Z.eqb_spec s1 s) as [->|Hne]; [eauto|].
  destruct H as [H|H]; [congruence|]. now apply IH.
Qed.

(** Slots of an array are pairwise distinct and below its length, so there
    are no more of them than the array has elements. *)
Lemma NoDup_bounded_length (l : list Z) (n : nat) :
  NoDup l -> (forall x, x ∈ l -> 0 <= x < Z.of_nat n) -> (length l <= n)%nat.
Proof.
  intros Hnd Hb.
  assert (Hnd' : NoDup (Z.to_nat <$> l)).
  { apply NoDup_fmap_2_strong; [|exact Hnd].
    intros x y Hx Hy Heq. apply Hb in Hx, Hy. lia. }
  assert (Hsub : Z.to_nat <$> l ⊆ seq 0 n).
  { intros k Hk. apply list_elem_of_fmap in Hk as [x [-> Hx]].
    apply Hb in Hx. apply elem_of_seq. lia. }
  pose proof (NoDup_submseteq _ _ Hnd' Hsub) as Hm.
  apply submseteq_length in Hm. rewrite length_fmap, length_seq in Hm. exact Hm.
Qed.

Section Chains.

Variables (sbits bucketCount : Z).

Local Abbreviation chain := (chain_of sbits bucketCount).

Lemma elem_of_chain_of b s l :
  s ∈ chain b l <-> exists h, (h, s) ∈ l /\ low sbits h mod bucketCount = b.
Proof.
  induction l as [|[h1 s1] l IH]; simpl.
  - split; [intros H; inversion H|intros [h [H _]]; inversion H].
  - destruct (Z.eqb_spec (low sbits h1 mod bucketCount) b) as [Heq|Hne].
    + rewrite elem_of_cons, IH. split.
      * intros [->|[h [H1 H2]]]; [exists h1|exists h];
          (split; [apply elem_of_cons; auto|easy]).
      * intros [h [H1 H2]]. apply elem_of_cons in H1 as [H1|H1].
        -- injection H1 as -> ->. now left.
        -- right. eauto.
    + rewrite IH. split.
      * intros [h [H1 H2]]. exists h. split; [|easy].
        apply elem_of_cons. now right.
      * intros [h [H1 H2]]. apply elem_of_cons in H1 as [H1|H1]; [|eauto].
        injection H1 as -> ->. congruence.
Qed.

Lemma chain_of_slots b s l : s ∈ chain b l -> s ∈ l.*2.
Proof.
  rewrite elem_of_chain_of. intros [h [H _]]. eapply elem_of_slots, H.
Qed.

Lemma NoDup_chain_of b l : NoDup l.*2 -> NoDup (chain b l).
Proof.
  induction l as [|[h1 s1] l IH]; simpl; [constructor|].
  rewrite NoDup_cons. intros [Hnot Hnd].
  destruct (low sbits h1 mod bucketCount =? b); [|now apply IH].
  apply NoDup_cons. split; [|now apply IH].
  intros H. apply Hnot. eapply chain_of_slots, H.
Qed.

Lemma chain_of_distinct b b' s l :
  NoDup l.*2 -> s ∈ chain b l -> s ∈ chain b' l -> b = b'.
Proof.
  rewrite !elem_of_chain_of. intros Hnd [h [H1 H2]] [h' [H3 H4]].
  rewrite (NoDup_slots_hash h h' s l Hnd H1 H3) in H2. congruence.
Qed.

Lemma chain_of_drop_slot b s0 l :
  chain b (drop_slot s0 l)
  = List.filter (fun x => negb (x =? s0)) (chain b l).
Proof.
  induction l as [|[h1 s1] l IH]; simpl; [easy|].
  destruct (Z.eqb_spec s1 s0) as [->|Hne]; simpl.
  - destruct (low sbits h1 mod bucketCount =? b); simpl; [|exact IH].
    now rewrite Z.eqb_refl.
  - destruct (low sbits h1 mod bucketCount =? b); simpl; [|exact IH].
    destruct (Z.eqb_spec s1 s0); [congruence|]. simpl. now rewrite IH.
Qed.

End Chains.

Lemma filter_ne_absent (s : Z) (l : list Z) :
  s ∉ l -> List.filter (fun x => negb (x =? s)) l = l.
Proof.
  induction l as [|x l IH]; simpl; [easy|].
  rewrite not_elem_of_cons. intros [Hne Hnot].
  destruct (Z.eqb_spec x s); [congruence|]. simpl. now rewrite IH.
Qed.

Lemma filter_ne_split (s : Z) (l1 l2 : list Z) :
  NoDup (l1 ++ s :: l2) ->
  List.filter (fun x => negb (x =? s)) (l1 ++ s :: l2) = l1 ++ l2.
Proof.
  intros Hnd. apply NoDup_app in Hnd as (_ & Hdis & Hnd2).
  apply NoDup_cons in Hnd2 as [Hs2 _].
  rewrite List.filter_app. simpl. rewrite Z.eqb_refl. simpl.
  rewrite !filter_ne_absent; [easy|easy|].
  intros Hin. apply (Hdis s Hin). apply elem_of_cons. now left.
Qed.

(** ** Paths through the node array *)

Section Paths.

Variables (sbits : Z).

Local Abbreviation smax := (sizeLimits_max sbits).
Local Abbreviation Seg := (Seg sbits).

Lemma Seg_frame nodes nodes' st l stop :
  (forall x, x ∈ l -> nodes' !! Z.to_nat x = nodes !! Z.to_nat x) ->
  Seg nodes st l stop -> Seg nodes' st l stop.
Proof.
  revert st. induction l as [|x l IH]; simpl; intros st Hsame H; [exact H|].
  destruct H as (-> & H0 & Hmax & n & Hn & Hrest).
  repeat split; try assumption. exists n. split.
  - rewrite Hsame; [exact Hn|]. apply elem_of_cons. now left.
  - apply IH; [|exact Hrest]. intros y Hy. apply Hsame.
    apply elem_of_cons. now right.
Qed.

Lemma Seg_elem nodes st l stop x :
  Seg nodes st l stop -> x ∈ l ->
  0 <= x /\ x <> smax /\ exists n, nodes !! Z.to_nat x = Some n.
Proof.
  revert st. induction l as [|y l IH]; simpl; intros st H Hx.
  - inversion Hx.
  - destruct H as (-> & H0 & Hmax & n & Hn & Hrest).
    apply elem_of_cons in Hx as [->|Hx]; [eauto|]. eapply IH; eauto.
Qed.

Lemma Seg_insert nodes st l stop i n :
  0 <= i -> i ∉ l ->
  Seg nodes st l stop -> Seg (<[Z.to_nat i := n]> nodes) st l stop.
Proof.
  intros Hi Hnot H. apply (Seg_frame nodes); [|exact H].
  intros x Hx. apply list_lookup_insert_ne.
  destruct (Seg_elem _ _ _ _ _ H Hx) as (Hx0 & _).
  apply Z_to_nat_ne; [lia..|]. intros ->. contradiction.
Qed.

Lemma Seg_app nodes st l1 l2 stop :
  Seg nodes st (l1 ++ l2) stop <->
  exists mid, Seg nodes st l1 mid /\ Seg nodes mid l2 stop.
Proof.
  revert st. induction l1 as [|x l1 IH]; simpl; intros st.
  - split; [eauto|]. now intros [mid [-> H]].
  - split.
    + intros (-> & H0 & Hmax & n & Hn & Hrest).
      apply IH in Hrest as [mid [H1 H2]]. exists mid. split; [|exact H2].
      repeat split; try assumption. eauto.
    + intros [mid [(-> & H0 & Hmax & n & Hn & H1) H2]].
      repeat split; try assumption. exists n. split; [exact Hn|].
      apply IH. eauto.
Qed.

Lemma Seg_hd nodes st l : Seg nodes st l smax -> st = hd smax l.
Proof. destruct l; simpl; [easy|]. now intros [-> _]. Qed.

Lemma Seg_from_max nodes l : Seg nodes smax l smax -> l = [].
Proof. destruct l; simpl; [easy|]. intros (-> & _ & Hne & _). congruence. Qed.

(** One path only leaves a given slot, so a chain never meets a slot
    twice. *)
Lemma Seg_functional nodes st l l' :
  Seg nodes st l smax -> Seg nodes st l' smax -> l = l'.
Proof.
  revert st l'. induction l as [|x l IH]; intros st [|y l']; simpl; try easy.
  - intros -> (Hy & _ & Hne & _). congruence.
  - intros (-> & _ & Hne & _) Hx. congruence.
  - intros (-> & _ & _ & n & Hn & H1) (Hy & _ & _ & n' & Hn' & H2).
    subst y. rewrite Hn in Hn'. injection Hn' as <-.
    f_equal. eapply IH; eauto.
Qed.

Lemma Seg_NoDup nodes st l : Seg nodes st l smax -> NoDup l.
Proof.
  revert st. induction l as [|x l IH]; intros st H; [constructor|].
  pose proof H as H'. simpl in H'.
  destruct H' as (-> & _ & _ & n & Hn & Hrest).
  apply NoDup_cons. split; [|eapply IH, Hrest].
  intros Hin. apply list_elem_of_split in Hin as (l1 & l2 & ->).
  apply Seg_app in Hrest as (mid & _ & H2).
  pose proof H2 as H2'. simpl in H2'. destruct H2' as (-> & _).
  pose proof (Seg_functional _ _ _ _ H H2) as Heq.
  apply (f_equal length) in Heq. simpl in Heq. rewrite length_app in Heq.
  simpl in Heq. lia.
Qed.

Lemma Seg_length nodes st l :
  Seg nodes st l smax -> (length l <= length nodes)%nat.
Proof.
  intros H. apply NoDup_bounded_length; [eapply Seg_NoDup, H|].
  intros x Hx. destruct (Seg_elem _ _ _ _ _ H Hx) as (H0 & _ & n & Hn).
  split; [exact H0|]. eapply lookup_Z_lt; eauto.
Qed.

End Paths.

(** ** The restricted-match walk *)

Section Lookup.

Variables (sbits : Z).

Local Abbreviation smax := (sizeLimits_max sbits).
Local Abbreviation Seg := (Seg sbits).

Lemma findNext_loop_spec c hh l : forall fuel st,
  Seg (m_nodeList c) st l smax -> (length l < fuel)%nat ->
  findNext_loop sbits fuel hh st c = Ok (hd smax (matching (m_nodeList c) hh l)).
Proof.
  induction l as [|x l IH]; intros fuel st H Hf.
  - simpl in H. subst st. destruct fuel; [simpl in Hf; lia|].
    simpl. now rewrite Z.eqb_refl.
  - simpl in H. destruct H as (-> & H0 & Hne & n & Hn & Hrest).
    destruct fuel; [simpl in Hf; lia|]. simpl in Hf. simpl.
    destruct (Z.eqb_spec x smax); [contradiction|].
    rewrite (at_index_ok _ _ _ H0 Hn). simpl. rewrite Hn.
    destruct (hash n =? hh); [reflexivity|].
    apply IH; [exact Hrest|lia].
Qed.

Lemma findNext2_spec c hh l st :
  Seg (m_nodeList c) st l smax ->
  findNext2 sbits hh st c = Ok (hd smax (matching (m_nodeList c) hh l)).
Proof.
  intros H. apply findNext_loop_spec; [exact H|].
  pose proof (Seg_length _ _ _ _ H). lia.
Qed.

Lemma matching_elem nodes hh l x :
  x ∈ matching nodes hh l -> x ∈ l.
Proof.
  unfold matching. rewrite !list_elem_of_In, filter_In. tauto.
Qed.

Lemma matching_length nodes hh l :
  (length (matching nodes hh l) <= length l)%nat.
Proof. unfold matching. apply List.filter_length_le. Qed.

Lemma search_walk_spec c hh l : forall fuel st,
  Seg (m_nodeList c) st l smax ->
  (length (matching (m_nodeList c) hh l) < fuel)%nat ->
  search_walk sbits fuel
    (mkSearchIterator (hd smax (matching (m_nodeList c) hh l))) c
  = Ok (matching (m_nodeList c) hh l).
Proof.
  induction l as [|x l IH]; intros fuel st H Hf.
  - destruct fuel; [simpl in Hf; lia|]. simpl. unfold valid.
    now rewrite Z.eqb_refl.
  - simpl in H. destruct H as (-> & H0 & Hne & n & Hn & Hrest).
    unfold matching in *. simpl in *. rewrite Hn in *.
    destruct (Z.eqb_spec (hash n) hh) as [Heq|Hneq].
    + destruct fuel; [simpl in Hf; lia|]. simpl in Hf. simpl.
      unfold valid. destruct (Z.eqb_spec x smax); [contradiction|]. simpl.
      unfold search_incr, findNext. simpl.
      rewrite (at_index_ok _ _ _ H0 Hn). simpl.
      rewrite (findNext2_spec c (hash n) l (next n) Hrest). simpl.
      rewrite Heq. unfold matching.
      rewrite (IH fuel (next n) Hrest); [reflexivity|lia].
    + eapply IH; eauto.
Qed.

End Lookup.

(** ** The global and the bucket-scoped walk *)

Lemma elem_of_chains_from sbits bc l x : forall k b,
  x ∈ chains_from sbits bc b k l <->
  exists b', b <= b' < b + Z.of_nat k /\ x ∈ chain_of sbits bc b' l.
Proof.
  induction k as [|k IH]; intros b; simpl.
  - split; [intros H; inversion H|intros (b' & Hb & _); lia].
  - rewrite elem_of_app, IH. split.
    + intros [H|(b' & Hb & H)]; [exists b|exists b']; split; auto; lia.
    + intros (b' & Hb & H). destruct (Z.eq_dec b' b) as [->|Hne]; [now left|].
      right. exists b'. split; [lia|exact H].
Qed.

Lemma NoDup_chains_from sbits bc l : forall k b,
  NoDup l.*2 -> NoDup (chains_from sbits bc b k l).
Proof.
  induction k as [|k IH]; intros b Hnd; simpl; [constructor|].
  apply NoDup_app. split; [now apply NoDup_chain_of|]. split; [|now apply IH].
  intros x Hx Hx'. apply elem_of_chains_from in Hx' as (b' & Hb & Hx').
  pose proof (chain_of_distinct _ _ _ _ _ _ Hnd Hx Hx'). lia.
Qed.

Section Enumeration.

Variables (sbits : Z) (c : Container) (lk : list (Z * Z)).

Local Abbreviation smax := (sizeLimits_max sbits).
Local Abbreviation Seg := (Seg sbits).
Local Abbreviation chain := (chain_of sbits (m_bucketCount c)).
Local Abbreviation chains := (chains_from sbits (m_bucketCount c)).

Hypothesis Hshape : shape sbits c.
Hypothesis Hbuckets : forall b, 0 <= b < m_bucketCount c ->
  exists bk, m_bucketList c !! Z.to_nat b = Some bk /\
    Seg (m_nodeList c) (first bk) (chain b lk) smax.

Local Abbreviation standing := (standing sbits c lk).

Lemma to_sizeType_succ b :
  0 <= b < m_bucketCount c -> to_sizeType sbits (b + 1) = b + 1.
Proof.
  intros Hb. destruct Hshape as (_ & _ & Hlt & _).
  unfold to_sizeType. apply Z.mod_small. unfold sizeLimits_max in Hlt. lia.
Qed.

Lemma nextElement_loop_spec : forall k fuel b,
  0 <= b < m_bucketCount c -> Z.of_nat k = m_bucketCount c - b - 1 ->
  (k < fuel)%nat ->
  exists p b', nextElement_loop sbits fuel b c = Ok (p, b') /\
    b < b' /\ standing (mkIterator p b') (chains (b + 1) k lk).
Proof.
  induction k as [|k IH]; intros fuel b Hb Hk Hf.
  - destruct fuel; [lia|]. simpl. rewrite (to_sizeType_succ b Hb).
    destruct (Z.eqb_spec (b + 1) (m_bucketCount c)); [|lia].
    exists smax, (b + 1). split; [reflexivity|]. split; [lia|].
    split; [reflexivity|]. now left.
  - destruct fuel; [lia|]. simpl. rewrite (to_sizeType_succ b Hb).
    destruct (Z.eqb_spec (b + 1) (m_bucketCount c)); [lia|].
    destruct (Hbuckets (b + 1)) as (bk & Hbk & Hseg); [lia|].
    rewrite (at_index_ok _ (b + 1) _ ltac:(lia) Hbk). simpl.
    pose proof (Seg_hd _ _ _ _ Hseg) as Hhd.
    destruct (chain (b + 1) lk) as [|x l'] eqn:Hch.
    + simpl in Hhd. rewrite Hhd, Z.eqb_refl. simpl.
      destruct (IH fuel (b + 1)) as (p & b' & Hr & Hlt & Hst); [lia..|].
      exists p, b'. split; [exact Hr|]. split; [lia|exact Hst].
    + simpl in Hhd. simpl in Hseg. destruct Hseg as (_ & _ & Hne & _).
      rewrite Hhd. destruct (Z.eqb_spec x smax); [contradiction|]. simpl.
      exists x, (b + 1). split; [reflexivity|]. split; [lia|].
      split; [reflexivity|]. right. exists (x :: l'). simpl.
      split; [lia|]. split; [discriminate|].
      split.
      * destruct (Hbuckets (b + 1)) as (bk' & Hbk' & Hseg'); [lia|].
        rewrite Hch in Hseg'. rewrite Hbk in Hbk'. injection Hbk' as <-.
        rewrite Hhd in Hseg'. exact Hseg'.
      * replace (Z.to_nat (m_bucketCount c - (b + 1) - 1)) with k by lia.
        reflexivity.
Qed.

Lemma begin_loop_spec : forall k fuel b,
  0 <= b < m_bucketCount c -> Z.of_nat k = m_bucketCount c - b - 1 ->
  (k < fuel)%nat ->
  exists it, begin_loop sbits fuel b c = Ok it /\
    standing it (chains b (S k) lk).
Proof.
  induction k as [|k IH]; intros fuel b Hb Hk Hf.
  - destruct fuel; [lia|]. simpl.
    destruct (Hbuckets b Hb) as (bk & Hbk & Hseg).
    rewrite (at_index_ok _ b _ ltac:(lia) Hbk). simpl.
    pose proof (Seg_hd _ _ _ _ Hseg) as Hhd. rewrite app_nil_r.
    destruct (chain b lk) as [|x l'] eqn:Hch.
    + simpl in Hhd. rewrite Hhd, Z.eqb_refl. rewrite (to_sizeType_succ b Hb).
      destruct (Z.eqb_spec (b + 1) (m_bucketCount c)); [|lia].
      eexists. split; [reflexivity|]. split; [reflexivity|now left].
    + simpl in Hhd. pose proof Hseg as Hseg'. simpl in Hseg'.
      destruct Hseg' as (_ & _ & Hne & _).
      rewrite Hhd in *. destruct (Z.eqb_spec x smax); [contradiction|].
      eexists. split; [reflexivity|]. split; [reflexivity|]. right.
      exists (x :: l'). simpl. split; [lia|]. split; [discriminate|].
      split; [exact Hseg|].
      replace (Z.to_nat (m_bucketCount c - b - 1)) with 0%nat by lia.
      simpl. now rewrite app_nil_r.
  - destruct fuel; [lia|]. cbn [begin_loop].
    destruct (Hbuckets b Hb) as (bk & Hbk & Hseg).
    rewrite (at_index_ok _ b _ ltac:(lia) Hbk). simpl.
    pose proof (Seg_hd _ _ _ _ Hseg) as Hhd.
    destruct (chain b lk) as [|x l'] eqn:Hch.
    + simpl in Hhd. rewrite Hhd, Z.eqb_refl. rewrite (to_sizeType_succ b Hb).
      destruct (Z.eqb_spec (b + 1) (m_bucketCount c)); [lia|].
      destruct (IH fuel (b + 1)) as (it & Hr & Hst); [lia..|].
      exists it. split; [exact Hr|]. exact Hst.
    + simpl in Hhd. pose proof Hseg as Hseg'. simpl in Hseg'.
      destruct Hseg' as (_ & _ & Hne & _).
      rewrite Hhd in *. destruct (Z.eqb_spec x smax); [contradiction|].
      eexists. split; [reflexivity|]. split; [reflexivity|]. right.
      exists (x :: l'). simpl. split; [lia|]. split; [discriminate|].
      split; [exact Hseg|].
      replace (Z.to_nat (m_bucketCount c - b - 1)) with (S k) by lia.
      reflexivity.
Qed.

Lemma bucket_array_length : length (m_bucketList c) = Z.to_nat (m_bucketCount c).
Proof. now destruct Hshape as (_ & _ & _ & H & _). Qed.

(** One step of the global cursor from the slot [x] of bucket [b], where
    [l'] is what follows [x] in the chain. *)
Lemma iterator_incr_spec x b l' :
  0 <= b < m_bucketCount c ->
  Seg (m_nodeList c) x (x :: l') smax ->
  (l' <> [] /\ iterator_incr sbits (mkIterator x b) c
               = Ok (mkIterator (hd smax l') b) /\
   Seg (m_nodeList c) (hd smax l') l' smax) \/
  (l' = [] /\ exists it', iterator_incr sbits (mkIterator x b) c = Ok it' /\
     b < m_bucket it' /\
     standing it' (chains (b + 1) (Z.to_nat (m_bucketCount c - b - 1)) lk)).
Proof.
  intros Hb Hseg. simpl in Hseg. destruct Hseg as (_ & H0 & Hne & n & Hn & Hrest).
  pose proof (Seg_hd _ _ _ _ Hrest) as Hhd.
  unfold iterator_incr, nextElement. cbn [m_position m_bucket].
  rewrite (at_index_ok _ x _ H0 Hn), bind_Ok.
  destruct l' as [|y l''].
  - right. split; [reflexivity|]. simpl in Hhd. rewrite Hhd, Z.eqb_refl.
    cbn [negb].
    destruct (nextElement_loop_spec (Z.to_nat (m_bucketCount c - b - 1))
                (S (length (m_bucketList c))) b) as (p & b' & Hr & Hlt & Hst);
      [lia|lia|rewrite bucket_array_length; lia|].
    rewrite Hr, bind_Ok. eexists. split; [reflexivity|].
    split; [exact Hlt|exact Hst].
  - left. split; [discriminate|]. simpl in Hhd. pose proof Hrest as Hrest'.
    simpl in Hrest'. destruct Hrest' as (_ & _ & Hney & _).
    rewrite Hhd. destruct (Z.eqb_spec y smax); [contradiction|]. simpl.
    split; [reflexivity|]. rewrite Hhd in Hrest. exact Hrest.
Qed.

Lemma standing_step it x rest :
  standing it (x :: rest) ->
  x <> smax /\ m_position it = x /\
  exists it', iterator_incr sbits it c = Ok it' /\ standing it' rest.
Proof.
  intros [Hpos [Hnil|(l' & Hb & Hne & Hseg & Hrest)]]; [discriminate|].
  simpl in Hpos. destruct it as [p b]. simpl in *. subst p.
  destruct l' as [|x' l'']; [contradiction|].
  pose proof Hseg as Hseg'. simpl in Hseg'. destruct Hseg' as (<- & _ & Hx & _).
  split; [exact Hx|]. split; [reflexivity|].
  simpl in Hrest. injection Hrest as ->.
  destruct (iterator_incr_spec x b l'' Hb Hseg)
    as [(Hne' & Hr & Hs)|(-> & it' & Hr & Hlt & Hst)].
  - eexists. split; [exact Hr|]. split.
    + simpl. destruct l''; [contradiction|reflexivity].
    + right. exists l''. simpl. auto.
  - exists it'. split; [exact Hr|]. exact Hst.
Qed.

Lemma global_walk_spec : forall rest fuel it,
  standing it rest -> (length rest < fuel)%nat ->
  global_walk sbits fuel it c = Ok rest.
Proof.
  induction rest as [|x rest IH]; intros fuel it Hst Hf.
  - destruct fuel; [simpl in Hf; lia|]. simpl. destruct Hst as [-> _]. simpl.
    unfold valid. now rewrite Z.eqb_refl.
  - destruct fuel; [simpl in Hf; lia|]. simpl in Hf. simpl.
    destruct (standing_step _ _ _ Hst) as (Hx & Hpos & it' & Hr & Hst').
    rewrite Hpos. unfold valid. destruct (Z.eqb_spec x smax); [contradiction|].
    simpl. rewrite Hr. simpl. rewrite (IH fuel it' Hst'); [reflexivity|lia].
Qed.

Lemma local_walk_spec : forall l' fuel b p,
  0 <= b < m_bucketCount c -> Seg (m_nodeList c) p l' smax ->
  (length l' < fuel)%nat ->
  local_walk sbits fuel (mkIterator p b) c = Ok l'.
Proof.
  induction l' as [|x l' IH]; intros fuel b p Hb Hseg Hf.
  - destruct fuel; [simpl in Hf; lia|]. simpl in *. subst p.
    unfold valid. now rewrite Z.eqb_refl.
  - destruct fuel; [simpl in Hf; lia|]. simpl in Hf.
    pose proof Hseg as Hseg'. simpl in Hseg'. destruct Hseg' as (-> & _ & Hx & _).
    cbn [local_walk m_position]. unfold valid.
    destruct (Z.eqb_spec x smax); [contradiction|]. simpl.
    unfold local_incr. cbn [m_bucket].
    destruct (iterator_incr_spec x b l' Hb Hseg)
      as [(Hne' & Hr & Hs)|(-> & it' & Hr & Hlt & Hst)].
    + rewrite Hr. simpl. rewrite Z.eqb_refl. simpl.
      rewrite (IH fuel b _ Hb Hs); [reflexivity|lia].
    + rewrite Hr. simpl. destruct (Z.eqb_spec (m_bucket it') b); [lia|]. simpl.
      destruct fuel; [simpl in Hf; lia|]. simpl. unfold valid.
      now rewrite Z.eqb_refl.
Qed.

End Enumeration.

(** ** The operations keep the representation *)

Section Preservation.

Variables (sbits hbits : Z) (debug : bool).

Local Abbreviation smax := (sizeLimits_max sbits).
Local Abbreviation hmax := (hashLimits_max hbits).
Local Abbreviation Seg := (Seg sbits).
Local Abbreviation Rep := (Rep sbits hbits debug).
Local Abbreviation shape := (shape sbits).

Lemma shape_slot c s :
  shape c -> 0 <= s < m_nodeCount c ->
  s <> smax /\ 0 < m_bucketCount c /\
  exists n, m_nodeList c !! Z.to_nat s = Some n.
Proof.
  intros (H0 & Hbc & Hlt & Hlb & Hln) Hs. split; [lia|]. split; [lia|].
  apply lookup_lt_is_Some_2. lia.
Qed.

Lemma shape_bucket c h :
  shape c -> 0 < m_bucketCount c ->
  0 <= low sbits h mod m_bucketCount c < m_bucketCount c /\
  low sbits h mod m_bucketCount c <> smax.
Proof.
  intros (H0 & Hbc & Hlt & Hlb & Hln) Hpos.
  pose proof (Z.mod_pos_bound (low sbits h) (m_bucketCount c) Hpos). lia.
Qed.

(** Pushing slot [s] on the front of the chain its hash selects: the state
    [insert] and [insertEmplaced] both arrive at. *)
Lemma Rep_link c g h s bk emp' :
  Rep c g ->
  0 <= s < m_nodeCount c ->
  s ∉ (linked g).*2 -> s ∉ emp'.*2 ->
  (forall e, e ∈ emp' -> e ∈ emplaced g) ->
  NoDup emp'.*2 ->
  (forall s0, s0 ∈ (emplaced g).*2 -> s0 <> s -> s0 ∈ emp'.*2) ->
  m_bucketList c !! Z.to_nat (low sbits h mod m_bucketCount c) = Some bk ->
  Rep (mkContainer (m_bucketCount c) (m_nodeCount c)
         (<[Z.to_nat (low sbits h mod m_bucketCount c) := mkBucket s]>
            (m_bucketList c))
         (<[Z.to_nat s := mkNode (high hbits h) (first bk)]> (m_nodeList c)))
      (mkGhost ((h, s) :: linked g) emp').
Proof.
  intros (Hsh & Hnd & Hrange & Hbk & Hlk & Hemp & Hdbg) Hs Hfresh Hfresh'
    Hsub Hnd' Hcov Hb.
  destruct (shape_slot c s Hsh Hs) as (Hsmax & Hpos & n & Hn).
  destruct (shape_bucket c h Hsh Hpos) as (Hbr & _).
  pose proof Hsh as (H0 & Hbc & Hlt & Hlb & Hln).
  set (b := low sbits h mod m_bucketCount c) in *.
  assert (Hslen : (Z.to_nat s < length (m_nodeList c))%nat) by lia.
  repeat split; simpl; try assumption.
  - now rewrite length_insert.
  - now rewrite length_insert.
  - apply NoDup_cons. split.
    + rewrite elem_of_app. tauto.
    + apply NoDup_app in Hnd as (Hnd1 & Hdis & _).
      apply NoDup_app. split; [exact Hnd1|]. split; [|exact Hnd'].
      intros x Hx Hx'. apply (Hdis x Hx).
      apply slots_elem_of in Hx' as [hx Hx']. eapply elem_of_slots, Hsub, Hx'.
  - apply elem_of_cons in H as [H|H]; [injection H as -> ->; lia|].
    apply (Hrange h0 s0). rewrite elem_of_app in *.
    destruct H as [H|H]; auto.
  - apply elem_of_cons in H as [H|H]; [injection H as -> ->; lia|].
    apply (Hrange h0 s0). rewrite elem_of_app in *.
    destruct H as [H|H]; auto.
  - intros b0 Hb0. destruct (Hbk b0 Hb0) as (bk0 & Hbk0 & Hseg0).
    assert (Hnotin : s ∉ chain_of sbits (m_bucketCount c) b0 (linked g)).
    { intros Hin. apply Hfresh. eapply chain_of_slots, Hin. }
    destruct (Z.eqb_spec b b0) as [Heq|Hne].
    + subst b0. exists (mkBucket s). split.
      * apply list_lookup_insert_eq. rewrite Hlb. lia.
      * simpl. fold b. rewrite Z.eqb_refl. simpl.
        repeat split; [lia|exact Hsmax|].
        eexists. split; [now apply list_lookup_insert_eq|]. simpl.
        rewrite Hb in Hbk0. injection Hbk0 as <-.
        apply Seg_insert; [lia|exact Hnotin|exact Hseg0].
    + exists bk0. split.
      * rewrite list_lookup_insert_ne; [exact Hbk0|lia].
      * simpl. fold b. destruct (Z.eqb_spec b b0); [contradiction|].
        apply Seg_insert; [lia|exact Hnotin|exact Hseg0].
  - intros h0 s0 H. apply elem_of_cons in H as [H|H].
    + injection H as -> ->. eexists.
      split; [now apply list_lookup_insert_eq|reflexivity].
    + destruct (Hlk h0 s0 H) as (n0 & Hn0 & Hh0). exists n0. split; [|exact Hh0].
      rewrite list_lookup_insert_ne; [exact Hn0|].
      assert (s0 <> s) by (intros ->; eapply Hfresh, elem_of_slots, H).
      assert (0 <= s0 < m_nodeCount c).
      { apply (Hrange h0 s0). apply elem_of_app. now left. }
      lia.
  - intros h0 s0 H.
    rewrite list_lookup_insert_ne; [apply Hemp, Hsub, H|].
    assert (s0 <> s) by (intros ->; eapply Hfresh', elem_of_slots, H).
    assert (0 <= s0 < m_nodeCount c).
    { apply (Hrange h0 s0). apply elem_of_app. right. now apply Hsub. }
    lia.
  - intros Hd s0 Hs0 Hn1 Hn2. apply not_elem_of_cons in Hn1 as [Hne Hn1].
    rewrite list_lookup_insert_ne; [|lia].
    apply (Hdbg Hd s0 Hs0 Hn1). intros Hin. apply Hn2. now apply Hcov.
Qed.

Lemma fresh_inv nc h s g :
  fresh nc h s g = true ->
  (0 <= h < 2 ^ 64) /\ (0 <= s < nc) /\
  (s ∉ (linked g).*2) /\ (s ∉ (emplaced g).*2).
Proof.
  unfold fresh. rewrite !andb_true_iff, !negb_true_iff, !has_slot_false.
  intros (((((H1 & H2) & H3) & H4) & H5) & H6).
  repeat split; try assumption; lia.
Qed.

Lemma Rep_insert c g h s :
  Rep c g -> fresh (m_nodeCount c) h s g = true ->
  exists c', insert sbits hbits debug h s c = Ok c' /\
    Rep c' (ghost_step (OpInsert h s) g) /\
    m_nodeCount c' = m_nodeCount c /\ m_bucketCount c' = m_bucketCount c.
Proof.
  intros HR Hf. apply fresh_inv in Hf as (Hh & Hs & Hn1 & Hn2).
  pose proof HR as (Hsh & Hnd & Hrange & Hbk & Hlk & Hemp & Hdbg).
  destruct (shape_slot c s Hsh Hs) as (Hsmax & Hpos & n & Hn).
  destruct (shape_bucket c h Hsh Hpos) as (Hbr & _).
  destruct (Hbk _ Hbr) as (bk & Hb & Hseg).
  eexists. split.
  - apply (insert_effect sbits hbits debug c h s n bk); try lia; try assumption.
    intros Hd. specialize (Hdbg Hd s Hs Hn1 Hn2). congruence.
  - split; [|split; reflexivity]. simpl.
    apply Rep_link; try assumption; auto.
    apply NoDup_app in Hnd. tauto.
Qed.

Lemma emplace_effect c h s n :
  0 <= s -> s <> smax -> m_nodeList c !! Z.to_nat s = Some n ->
  (debug = true -> next n = smax) ->
  m_bucketCount c <> 0 ->
  emplace sbits hbits debug h s c
  = Ok (set_nodes c
          (<[Z.to_nat s := mkNode (high hbits h)
                             (low sbits h mod m_bucketCount c)]>
             (m_nodeList c))).
Proof.
  intros Hs Hne Hn Hd Hbc. unfold emplace.
  rewrite assert_true, bind_Ok by (destruct (Z.eqb_spec s smax); easy).
  rewrite (at_index_ok _ s _ Hs Hn), bind_Ok.
  assert (Ha : assert debug (next n =? smax) = Ok tt).
  { destruct debug eqn:E; [|reflexivity]. apply assert_true.
    rewrite (Hd eq_refl). apply Z.eqb_refl. }
  rewrite Ha, bind_Ok, (umod_ok _ _ Hbc), bind_Ok.
  apply (write_node_ok c s _ _ n Hs Hn).
Qed.

Lemma insertEmplaced_effect c s n bk :
  0 <= s -> s <> smax -> m_nodeList c !! Z.to_nat s = Some n ->
  next n <> smax -> 0 <= next n ->
  m_bucketList c !! Z.to_nat (next n) = Some bk ->
  insertEmplaced sbits debug s c
  = Ok (mkContainer (m_bucketCount c) (m_nodeCount c)
          (<[Z.to_nat (next n) := mkBucket s]> (m_bucketList c))
          (<[Z.to_nat s := mkNode (hash n) (first bk)]> (m_nodeList c))).
Proof.
  intros Hs Hne Hn Hnx Hnx0 Hbk. unfold insertEmplaced.
  rewrite assert_true, bind_Ok by (destruct (Z.eqb_spec s smax); easy).
  rewrite (at_index_ok _ s _ Hs Hn), bind_Ok.
  rewrite assert_true, bind_Ok by (destruct (Z.eqb_spec (next n) smax); easy).
  rewrite (at_index_ok _ (next n) _ Hnx0 Hbk), bind_Ok.
  rewrite (write_next_ok c s _ n Hs Hn), bind_Ok.
  erewrite write_first_ok; [reflexivity|exact Hnx0|exact Hbk].
Qed.

Lemma Rep_emplace c g h s :
  Rep c g -> fresh (m_nodeCount c) h s g = true ->
  exists c', emplace sbits hbits debug h s c = Ok c' /\
    Rep c' (ghost_step (OpEmplace h s) g) /\
    m_nodeCount c' = m_nodeCount c /\ m_bucketCount c' = m_bucketCount c.
Proof.
  intros HR Hf. apply fresh_inv in Hf as (Hh & Hs & Hn1 & Hn2).
  pose proof HR as (Hsh & Hnd & Hrange & Hbk & Hlk & Hemp & Hdbg).
  destruct (shape_slot c s Hsh Hs) as (Hsmax & Hpos & n & Hn).
  pose proof Hsh as (H0 & Hbc & Hlt & Hlb & Hln).
  eexists. split.
  - apply (emplace_effect c h s n); try lia; try assumption.
    intros Hd. specialize (Hdbg Hd s Hs Hn1 Hn2).
    rewrite Hn in Hdbg. now injection Hdbg as ->.
  - split; [|split; reflexivity].
    assert (Hslen : (Z.to_nat s < length (m_nodeList c))%nat) by lia.
    repeat split; simpl; try assumption.
    + now rewrite length_insert.
    + apply NoDup_app in Hnd as (Hnd1 & Hdis & Hnd2).
      apply NoDup_app. split; [exact Hnd1|]. split.
      * intros x Hx Hx'. apply elem_of_cons in Hx' as [->|Hx'];
          [contradiction|]. now apply (Hdis x).
      * apply NoDup_cons. tauto.
    + simpl in H. rewrite elem_of_app, elem_of_cons in H.
      destruct H as [H|[H|H]]; [|injection H as -> ->; lia|];
        apply (Hrange h0 s0); rewrite elem_of_app; auto.
    + simpl in H. rewrite elem_of_app, elem_of_cons in H.
      destruct H as [H|[H|H]]; [|injection H as -> ->; lia|];
        apply (Hrange h0 s0); rewrite elem_of_app; auto.
    + intros b0 Hb0. destruct (Hbk b0 Hb0) as (bk0 & Hbk0 & Hseg0).
      exists bk0. split; [exact Hbk0|].
      apply Seg_insert; [lia| |exact Hseg0].
      intros Hin. apply Hn1. eapply chain_of_slots, Hin.
    + intros h0 s0 H. destruct (Hlk h0 s0 H) as (n0 & Hn0 & Hh0).
      exists n0. split; [|exact Hh0].
      rewrite list_lookup_insert_ne; [exact Hn0|].
      assert (s0 <> s) by (intros ->; eapply Hn1, elem_of_slots, H).
      assert (0 <= s0 < m_nodeCount c).
      { apply (Hrange h0 s0). apply elem_of_app. now left. }
      lia.
    + intros h0 s0 H. apply elem_of_cons in H as [H|H].
      * injection H as -> ->. now apply list_lookup_insert_eq.
      * rewrite list_lookup_insert_ne; [now apply Hemp|].
        assert (s0 <> s) by (intros ->; eapply Hn2, elem_of_slots, H).
        assert (0 <= s0 < m_nodeCount c).
        { apply (Hrange h0 s0). apply elem_of_app. now right. }
        lia.
    + intros Hd s0 Hs0 Hm1 Hm2. apply not_elem_of_cons in Hm2 as [Hne Hm2].
      rewrite list_lookup_insert_ne; [|lia]. now apply (Hdbg Hd s0 Hs0).
Qed.

Lemma Rep_insertEmplaced c g s :
  Rep c g -> has_slot s (emplaced g) = true ->
  exists c', insertEmplaced sbits debug s c = Ok c' /\
    Rep c' (ghost_step (OpInsertEmplaced s) g) /\
    m_nodeCount c' = m_nodeCount c /\ m_bucketCount c' = m_bucketCount c.
Proof.
  intros HR Hf. apply has_slot_true in Hf.
  destruct (hash_at_is_Some _ _ Hf) as [h Hh]. simpl. rewrite Hh.
  apply hash_at_Some in Hh.
  pose proof HR as (Hsh & Hnd & Hrange & Hbk & Hlk & Hemp & Hdbg).
  assert (Hs : 0 <= s < m_nodeCount c).
  { apply (Hrange h s). apply elem_of_app. now right. }
  destruct (shape_slot c s Hsh Hs) as (Hsmax & Hpos & _).
  destruct (shape_bucket c h Hsh Hpos) as (Hbr & Hbmax).
  destruct (Hbk _ Hbr) as (bk & Hb & Hseg).
  pose proof (Hemp h s Hh) as Hn.
  apply NoDup_app in Hnd as (Hnd1 & Hdis & Hnd2).
  eexists. split.
  - apply (insertEmplaced_effect c s _ bk (proj1 Hs) Hsmax Hn); simpl;
      [exact Hbmax|lia|exact Hb].
  - split; [|split; reflexivity]. simpl.
    apply Rep_link; try assumption.
    + intros Hin. apply (Hdis s Hin Hf).
    + rewrite slots_drop_slot. tauto.
    + intros [h0 s0] He. apply elem_of_drop_slot in He. tauto.
    + now apply NoDup_drop_slot.
    + intros s0 H1 H2. apply slots_drop_slot. tauto.
Qed.

(** The predecessor scan of [remove] over a chain that does not hold the
    slot changes nothing. *)
Lemma remove_loop_pass c s : forall l fuel cur,
  Seg (m_nodeList c) cur l smax -> s ∉ l -> s <> smax ->
  (length l < fuel)%nat ->
  remove_loop sbits fuel s cur c = Ok c.
Proof.
  induction l as [|x l IH]; intros fuel cur Hseg Hnot Hs Hf.
  - simpl in Hseg. subst cur. destruct fuel; [simpl in Hf; lia|]. simpl.
    now rewrite Z.eqb_refl.
  - simpl in Hseg. destruct Hseg as (-> & H0 & Hne & n & Hn & Hrest).
    destruct fuel; [simpl in Hf; lia|]. simpl in Hf. cbn [remove_loop].
    destruct (Z.eqb_spec x smax); [contradiction|].
    rewrite (at_index_ok _ x _ H0 Hn), bind_Ok.
    apply not_elem_of_cons in Hnot as [Hsx Hnot].
    pose proof (Seg_hd _ _ _ _ Hrest) as Hhd.
    destruct (Z.eqb_spec (next n) s) as [Heq|Hneq].
    + exfalso. destruct l as [|y l]; simpl in Hhd; [congruence|].
      apply Hnot. apply elem_of_cons. left. congruence.
    + rewrite bind_Ok, (at_index_ok _ x _ H0 Hn), bind_Ok.
      apply IH; [exact Hrest|exact Hnot|exact Hs|lia].
Qed.

(** Over a chain that holds the slot behind at least one other, the scan
    relinks the predecessor and leaves every other node alone. *)
Lemma remove_loop_relink c s ns l2 : forall l1 fuel cur,
  l1 <> [] ->
  Seg (m_nodeList c) cur (l1 ++ s :: l2) smax ->
  NoDup (l1 ++ s :: l2) ->
  m_nodeList c !! Z.to_nat s = Some ns ->
  (length (l1 ++ s :: l2) < fuel)%nat ->
  exists nodes',
    remove_loop sbits fuel s cur c = Ok (set_nodes c nodes') /\
    length nodes' = length (m_nodeList c) /\
    Seg nodes' cur (l1 ++ l2) smax /\
    (forall z, 0 <= z -> z ∉ l1 ->
       nodes' !! Z.to_nat z = m_nodeList c !! Z.to_nat z) /\
    (forall z n0, m_nodeList c !! Z.to_nat z = Some n0 ->
       exists n', nodes' !! Z.to_nat z = Some n' /\ hash n' = hash n0).
Proof.
  induction l1 as [|x l1 IH]; intros fuel cur Hne Hseg Hnd Hns Hf;
    [contradiction|].
  simpl in Hseg. destruct Hseg as (-> & H0 & Hxmax & n & Hn & Hrest).
  destruct fuel; [simpl in Hf; lia|]. simpl in Hf. cbn [remove_loop].
  destruct (Z.eqb_spec x smax); [contradiction|].
  rewrite (at_index_ok _ x _ H0 Hn), bind_Ok.
  simpl in Hnd. apply NoDup_cons in Hnd as [Hxnot Hnd].
  pose proof (Seg_hd _ _ _ _ Hrest) as Hhd.
  assert (Hxlen : (Z.to_nat x < length (m_nodeList c))%nat)
    by (eapply lookup_lt_Some, Hn).
  destruct l1 as [|y l1].
  - simpl in *. destruct Hrest as (Hnx & Hs0 & Hsmax & ns' & Hns' & Hrest2).
    rewrite Hns in Hns'. injection Hns' as <-.
    rewrite Hnx, Z.eqb_refl.
    rewrite (at_index_ok _ s _ Hs0 Hns), bind_Ok.
    rewrite (write_next_ok c x _ n H0 Hn), bind_Ok. simpl.
    rewrite (at_index_ok _ x (mkNode (hash n) (next ns)) H0), bind_Ok;
      [|now apply list_lookup_insert_eq].
    simpl. apply not_elem_of_cons in Hxnot as [Hxs Hxnot].
    apply NoDup_cons in Hnd as [Hsnot Hnd2].
    set (nodes' := <[Z.to_nat x := mkNode (hash n) (next ns)]> (m_nodeList c)).
    assert (Hseg2 : Seg nodes' (next ns) l2 smax)
      by (apply Seg_insert; [lia|exact Hxnot|exact Hrest2]).
    exists nodes'. split.
    { rewrite (remove_loop_pass (set_nodes c nodes') s l2 fuel (next ns));
        [reflexivity|exact Hseg2|exact Hsnot|exact Hsmax|lia]. }
    split; [apply length_insert|].
    split.
    { repeat split; [exact H0|exact Hxmax|].
      exists (mkNode (hash n) (next ns)).
      split; [now apply list_lookup_insert_eq|exact Hseg2]. }
    split.
    { intros z Hz Hznot. apply not_elem_of_cons in Hznot as [Hzx _].
      apply list_lookup_insert_ne. lia. }
    intros z nz Hz. destruct (decide (Z.to_nat x = Z.to_nat z)) as [Heq|Hneq].
    + rewrite <- Heq in *. rewrite Hn in Hz. injection Hz as <-.
      eexists. split; [now apply list_lookup_insert_eq|reflexivity].
    + exists nz. split; [|reflexivity].
      unfold nodes'. now rewrite list_lookup_insert_ne.
  - simpl in Hhd. simpl in Hxnot.
    apply not_elem_of_cons in Hxnot as [Hxy Hxnot].
    assert (Hys : y <> s).
    { intros ->. simpl in Hnd. apply NoDup_cons in Hnd as [Hbad _].
      apply Hbad. rewrite elem_of_app, elem_of_cons. auto. }
    destruct (Z.eqb_spec (next n) s) as [Heq|Hneq]; [congruence|].
    rewrite bind_Ok, (at_index_ok _ x _ H0 Hn), bind_Ok.
    destruct (IH fuel (next n)) as (nodes' & Hr & Hlen & Hseg' & Hfr & Hhs);
      [discriminate|exact Hrest|exact Hnd|exact Hns|simpl in *; lia|].
    exists nodes'. split; [exact Hr|]. split; [exact Hlen|].
    split.
    { simpl. repeat split; [exact H0|exact Hxmax|]. exists n. split.
      - rewrite Hfr; [exact Hn|lia|].
        apply not_elem_of_cons. split; [exact Hxy|].
        intros Hin. apply Hxnot. rewrite elem_of_app. now left.
      - exact Hseg'. }
    split; [|exact Hhs].
    intros z Hz Hznot. apply not_elem_of_cons in Hznot as [_ Hznot].
    now apply Hfr.
Qed.

Lemma poison_effect c s n :
  0 <= s -> m_nodeList c !! Z.to_nat s = Some n ->
  poison sbits hbits debug s c
  = Ok (if debug
        then set_nodes c (<[Z.to_nat s := ff_node sbits hbits]> (m_nodeList c))
        else c).
Proof.
  intros Hs Hn. unfold poison. destruct debug; [|reflexivity].
  apply (write_node_ok c s _ _ n Hs Hn).
Qed.

(** The first half of [remove] on a linked entry: the slot leaves its
    chain, every other chain and every stored fragment stay. *)
Lemma remove_unlinks c g h s :
  Rep c g -> (h, s) ∈ linked g ->
  exists c1 n,
    remove sbits hbits debug h s c = poison sbits hbits debug s c1 /\
    m_bucketCount c1 = m_bucketCount c /\ m_nodeCount c1 = m_nodeCount c /\
    length (m_bucketList c1) = length (m_bucketList c) /\
    length (m_nodeList c1) = length (m_nodeList c) /\
    m_nodeList c1 !! Z.to_nat s = Some n /\
    (forall b0, 0 <= b0 < m_bucketCount c ->
       exists bk0, m_bucketList c1 !! Z.to_nat b0 = Some bk0 /\
         Seg (m_nodeList c1) (first bk0)
           (chain_of sbits (m_bucketCount c) b0 (drop_slot s (linked g))) smax) /\
    (forall z, 0 <= z -> z ∉ (linked g).*2 ->
       m_nodeList c1 !! Z.to_nat z = m_nodeList c !! Z.to_nat z) /\
    (forall z n0, m_nodeList c !! Z.to_nat z = Some n0 ->
       exists n', m_nodeList c1 !! Z.to_nat z = Some n' /\ hash n' = hash n0).
Proof.
  intros HR Hin.
  pose proof HR as (Hsh & Hnd & Hrange & Hbk & Hlk & Hemp & Hdbg).
  pose proof Hsh as (H0 & Hbc & Hlt & Hlb & Hln).
  assert (Hs : 0 <= s < m_nodeCount c).
  { apply (Hrange h s). rewrite elem_of_app. auto. }
  destruct (shape_slot c s Hsh Hs) as (Hsmax & Hpos & _).
  destruct (shape_bucket c h Hsh Hpos) as (Hbr & _).
  destruct (Hlk h s Hin) as (n & Hn & Hhash).
  destruct (Hbk _ Hbr) as (bk & Hb & Hseg).
  set (b := low sbits h mod m_bucketCount c) in *.
  apply NoDup_app in Hnd as (Hnd1 & Hdis & Hnd2).
  assert (Hsin : s ∈ chain_of sbits (m_bucketCount c) b (linked g)).
  { apply elem_of_chain_of. eauto. }
  pose proof (NoDup_chain_of sbits (m_bucketCount c) b _ Hnd1) as Hndc.
  destruct (list_elem_of_split _ _ Hsin) as (l1 & l2 & Hch).
  rewrite Hch in Hseg, Hndc.
  assert (Hchains : forall b0,
    chain_of sbits (m_bucketCount c) b0 (drop_slot s (linked g))
    = if b0 =? b then l1 ++ l2
      else chain_of sbits (m_bucketCount c) b0 (linked g)).
  { intros b0. rewrite chain_of_drop_slot.
    destruct (Z.eqb_spec b0 b) as [->|Hne].
    - rewrite Hch. now apply filter_ne_split.
    - apply filter_ne_absent. intros Hin0. apply Hne.
      exact (chain_of_distinct _ _ _ _ _ _ Hnd1 Hin0 Hsin). }
  unfold remove. rewrite (at_index_ok _ s _ (proj1 Hs) Hn), bind_Ok.
  rewrite Hhash, Z.eqb_refl. cbn [negb].
  rewrite (umod_ok _ (m_bucketCount c)) by lia. rewrite bind_Ok. fold b.
  rewrite (at_index_ok _ b _ (proj1 Hbr) Hb), bind_Ok. cbv zeta.
  destruct l1 as [|x l1].
  - simpl in Hseg. destruct Hseg as (Hfirst & _ & _ & n' & Hn' & Hrest).
    rewrite Hn in Hn'. injection Hn' as <-.
    rewrite Hfirst, Z.eqb_refl.
    rewrite (write_first_ok c b _ bk (proj1 Hbr) Hb), bind_Ok.
    eexists. exists n. split; [reflexivity|]. simpl.
    repeat split; try reflexivity; try assumption.
    + apply length_insert.
    + intros b0 Hb0. rewrite Hchains.
      destruct (Z.eqb_spec b0 b) as [->|Hne].
      * eexists. split; [apply list_lookup_insert_eq; lia|]. exact Hrest.
      * destruct (Hbk b0 Hb0) as (bk0 & Hbk0 & Hseg0). exists bk0.
        split; [|exact Hseg0]. rewrite list_lookup_insert_ne; [exact Hbk0|lia].
    + intros z nz Hz. exists nz. auto.
  - pose proof (Seg_length _ _ _ _ Hseg) as Hlen.
    pose proof Hseg as Hseg'. simpl in Hseg'. destruct Hseg' as (Hfirst & _).
    assert (Hxs : x <> s).
    { intros ->. simpl in Hndc. apply NoDup_cons in Hndc as [Hbad _].
      apply Hbad. rewrite elem_of_app, elem_of_cons. auto. }
    rewrite Hfirst. destruct (Z.eqb_spec x s); [contradiction|].
    destruct (remove_loop_relink c s n l2 (x :: l1)
                (S (length (m_nodeList c))) x)
      as (nodes' & Hr & Hlen' & Hseg1 & Hfr & Hhs);
      [discriminate|rewrite Hfirst in Hseg; exact Hseg|exact Hndc|exact Hn
      |lia|].
    rewrite Hr, bind_Ok.
    assert (Hl1 : forall z, z ∈ x :: l1 ->
              z ∈ chain_of sbits (m_bucketCount c) b (linked g)).
    { intros z Hz. rewrite Hch. rewrite elem_of_app. now left. }
    eexists. exists n. split; [reflexivity|]. simpl.
    repeat split; try reflexivity; try assumption.
    + rewrite Hfr; [exact Hn|lia|]. intros Hbad.
      apply (NoDup_app (x :: l1) (s :: l2)) in Hndc as (_ & Hd & _).
      apply (Hd s Hbad). apply elem_of_cons. now left.
    + intros b0 Hb0. rewrite Hchains.
      destruct (Z.eqb_spec b0 b) as [->|Hne].
      * exists bk. split; [exact Hb|]. rewrite Hfirst. exact Hseg1.
      * destruct (Hbk b0 Hb0) as (bk0 & Hbk0 & Hseg0). exists bk0.
        split; [exact Hbk0|]. apply (Seg_frame sbits (m_nodeList c)); [|exact Hseg0].
        intros z Hz. destruct (Seg_elem _ _ _ _ _ _ Hseg0 Hz) as (Hz0 & _).
        apply Hfr; [exact Hz0|]. intros Hbad. apply Hne.
        eapply chain_of_distinct; [exact Hnd1|exact Hz|apply Hl1, Hbad].
    + intros z Hz Hznot. apply Hfr; [exact Hz|]. intros Hbad.
      apply Hznot. eapply chain_of_slots, Hl1, Hbad.
Qed.

Lemma Rep_remove c g h s :
  Rep c g -> has_entry h s (linked g) = true ->
  exists c', remove sbits hbits debug h s c = Ok c' /\
    Rep c' (ghost_step (OpRemove h s) g) /\
    m_nodeCount c' = m_nodeCount c /\ m_bucketCount c' = m_bucketCount c.
Proof.
  intros HR Hin. apply has_entry_true in Hin.
  destruct (remove_unlinks c g h s HR Hin)
    as (c1 & n & Hr & Hbc1 & Hnc1 & Hlb1 & Hln1 & Hn1 & Hbk1 & Hfr & Hhs).
  destruct HR as (Hsh & Hnd & Hrange & Hbk & Hlk & Hemp & Hdbg).
  pose proof Hsh as (H0 & Hbc & Hlt & Hlb & Hln).
  assert (Hs : 0 <= s < m_nodeCount c).
  { apply (Hrange h s). rewrite elem_of_app. auto. }
  apply NoDup_app in Hnd as (Hnd1 & Hdis & Hnd2).
  rewrite Hr, (poison_effect c1 s n (proj1 Hs) Hn1).
  eexists. split; [reflexivity|].
  assert (Hcounts : forall c2 : Container,
            c2 = (if debug then set_nodes c1
                     (<[Z.to_nat s := ff_node sbits hbits]> (m_nodeList c1))
                  else c1) ->
            m_bucketCount c2 = m_bucketCount c /\
            m_nodeCount c2 = m_nodeCount c /\
            m_bucketList c2 = m_bucketList c1 /\
            length (m_nodeList c2) = length (m_nodeList c) /\
            (forall z, 0 <= z -> z <> s ->
               m_nodeList c2 !! Z.to_nat z = m_nodeList c1 !! Z.to_nat z) /\
            (debug = true ->
               m_nodeList c2 !! Z.to_nat s = Some (ff_node sbits hbits))).
  { intros c2 ->. destruct debug; simpl.
    - rewrite length_insert. repeat split; try assumption.
      + intros z Hz Hzs. apply list_lookup_insert_ne. lia.
      + intros _. apply list_lookup_insert_eq. lia.
    - repeat split; try assumption. discriminate. }
  destruct (Hcounts _ eq_refl) as (Hc1 & Hc2 & Hc3 & Hc4 & Hc5 & Hc6).
  clear Hcounts.
  set (c2 := if debug then _ else c1) in *. clearbody c2.
  split; [|split; assumption]. simpl.
  split; [unfold shape; rewrite Hc1, Hc2, Hc3, Hc4, Hlb1; tauto|].
  split.
  { simpl. apply NoDup_app. split; [now apply NoDup_drop_slot|].
    split; [|exact Hnd2]. intros z Hz. apply slots_drop_slot in Hz as [Hz _].
    now apply Hdis. }
  split.
  { simpl. intros h0 s0 H. rewrite Hc2. apply (Hrange h0 s0).
    rewrite elem_of_app in *. destruct H as [H|H]; [|auto].
    apply elem_of_drop_slot in H. tauto. }
  split.
  { simpl. rewrite Hc1, Hc3. intros b0 Hb0.
    destruct (Hbk1 b0 Hb0) as (bk0 & Hbk0 & Hseg0). exists bk0.
    split; [exact Hbk0|]. apply (Seg_frame sbits (m_nodeList c1)); [|exact Hseg0].
    intros z Hz. destruct (Seg_elem _ _ _ _ _ _ Hseg0 Hz) as (Hz0 & _).
    apply Hc5; [exact Hz0|]. apply chain_of_slots, slots_drop_slot in Hz. tauto. }
  split.
  { simpl. intros h0 s0 H. apply elem_of_drop_slot in H as [H Hne].
    destruct (Hlk h0 s0 H) as (n0 & Hn0 & Hh0).
    destruct (Hhs s0 n0 Hn0) as (n' & Hn' & Hh').
    exists n'. split; [|congruence].
    rewrite Hc5; [exact Hn'| |exact Hne].
    apply (Hrange h0 s0). rewrite elem_of_app. auto. }
  split.
  { simpl. rewrite Hc1. intros h0 s0 H.
    assert (Hs0 : 0 <= s0 < m_nodeCount c).
    { apply (Hrange h0 s0). rewrite elem_of_app. auto. }
    assert (Hnl : s0 ∉ (linked g).*2).
    { intros Hbad. apply (Hdis s0 Hbad). eapply elem_of_slots, H. }
    rewrite Hc5; [|lia|].
    - rewrite Hfr; [now apply Hemp|lia|exact Hnl].
    - intros ->. apply Hnl. eapply elem_of_slots, Hin. }
  simpl. rewrite Hc2. intros Hd s0 Hs0 Hm1 Hm2.
  destruct (Z.eq_dec s0 s) as [->|Hne]; [now apply Hc6|].
  rewrite Hc5; [|lia|exact Hne].
  assert (Hnl : s0 ∉ (linked g).*2).
  { intros Hbad. apply Hm1. apply slots_drop_slot. tauto. }
  rewrite Hfr; [|lia|exact Hnl]. now apply Hdbg.
Qed.

Lemma Rep_empty c :
  shape c ->
  m_bucketList c = replicate (Z.to_nat (m_bucketCount c)) (ff_bucket sbits) ->
  (debug = true ->
   m_nodeList c = replicate (Z.to_nat (m_nodeCount c)) (ff_node sbits hbits)) ->
  Rep c no_entries.
Proof.
  intros Hsh Hb Hn. split; [exact Hsh|]. simpl.
  split; [constructor|].
  split; [intros h s H; inversion H|].
  split.
  { intros b Hbr. exists (ff_bucket sbits). split; [|reflexivity].
    rewrite Hb. apply lookup_replicate_2. lia. }
  split; [intros h s H; inversion H|].
  split; [intros h s H; inversion H|].
  intros Hd s Hs _ _. rewrite (Hn Hd). apply lookup_replicate_2. lia.
Qed.

Lemma clear_effect c :
  shape c ->
  clear sbits hbits debug c
  = Ok (mkContainer (m_bucketCount c) (m_nodeCount c)
          (replicate (Z.to_nat (m_bucketCount c)) (ff_bucket sbits))
          (if debug
           then replicate (Z.to_nat (m_nodeCount c)) (ff_node sbits hbits)
           else m_nodeList c)).
Proof.
  intros (H0 & Hbc & Hlt & Hlb & Hln). unfold clear.
  rewrite (memset_ff_ok (m_bucketList c)) by (lia || assumption).
  destruct debug.
  - rewrite (memset_ff_ok (m_nodeList c)) by (lia || assumption). reflexivity.
  - reflexivity.
Qed.

Lemma Rep_clear c :
  shape c ->
  exists c', clear sbits hbits debug c = Ok c' /\ Rep c' no_entries /\
    m_nodeCount c' = m_nodeCount c /\ m_bucketCount c' = m_bucketCount c /\
    m_bucketList c'
    = replicate (Z.to_nat (m_bucketCount c)) (ff_bucket sbits).
Proof.
  intros Hsh. pose proof Hsh as (H0 & Hbc & Hlt & Hlb & Hln).
  eexists. split; [now apply clear_effect|].
  split; [|repeat split]. apply Rep_empty; simpl.
  - unfold shape. simpl. rewrite length_replicate.
    repeat split; try assumption.
    destruct debug; [apply length_replicate|assumption].
  - reflexivity.
  - now intros ->.
Qed.

Lemma pow_sbits : widths_ok sbits hbits -> 2 ^ 8 <= 2 ^ sbits <= 2 ^ 64.
Proof.
  intros [Hs _]. split; apply Z.pow_le_mono_r; lia.
Qed.

Lemma computeBucketCount_throw entries :
  smax / 2 <= entries -> computeBucketCount sbits entries = Throw.
Proof.
  intros H. unfold computeBucketCount. cbv zeta.
  destruct (Z.geb_spec entries (smax / 2)); [reflexivity|lia].
Qed.

Lemma computeBucketCount_ok entries :
  widths_ok sbits hbits -> 0 <= entries < smax / 2 ->
  computeBucketCount sbits entries = Ok (2 * entries) /\
  to_sizeType sbits entries = entries /\ 2 * entries < smax.
Proof.
  intros Hw He. pose proof (pow_sbits Hw) as Hp.
  assert (Hdiv : 2 * (smax / 2) <= smax) by (apply Z.mul_div_le; lia).
  unfold computeBucketCount, to_sizeType, to_size_t. cbv zeta.
  unfold sizeLimits_max in *.
  change (2 ^ 8) with 256 in Hp.
  change (2 ^ 64) with 18446744073709551616 in *.
  set (P := 2 ^ sbits) in *. clearbody P.
  destruct (Z.geb_spec entries ((P - 1) / 2)); [lia|].
  rewrite (Z.mod_small (2 * entries) 18446744073709551616) by lia.
  rewrite (Z.mod_small (2 * entries) P) by lia.
  rewrite (Z.mod_small entries P) by lia.
  repeat split; lia.
Qed.

Lemma construct_ok entries :
  widths_ok sbits hbits -> 0 <= entries < smax / 2 ->
  exists c, GenericHashContainer sbits hbits debug entries = Ok c /\
    Rep c no_entries /\
    m_nodeCount c = entries /\ m_bucketCount c = 2 * entries /\
    m_bucketList c = replicate (Z.to_nat (2 * entries)) (ff_bucket sbits).
Proof.
  intros Hw He. destruct (computeBucketCount_ok entries Hw He) as (Hc & Hn & Hlt).
  unfold GenericHashContainer. rewrite Hc, bind_Ok. cbv zeta. rewrite Hn.
  set (c0 := mkContainer _ _ _ _).
  assert (Hsh : shape c0).
  { unfold shape, c0. simpl. rewrite !length_replicate. repeat split; lia. }
  destruct (Rep_clear c0 Hsh) as (c' & Hr & HR & H1 & H2 & H3).
  exists c'. split; [exact Hr|]. split; [exact HR|]. auto.
Qed.

Lemma Rep_step c g op :
  Rep c g -> permitted (m_nodeCount c) op g = true ->
  exists c', exec sbits hbits debug op c = Ok c' /\
    Rep c' (ghost_step op g) /\
    m_nodeCount c' = m_nodeCount c /\ m_bucketCount c' = m_bucketCount c.
Proof.
  intros HR Hp. destruct op as [h s|h s| |h s|s]; simpl in Hp.
  - now apply Rep_insert.
  - now apply Rep_remove.
  - destruct (Rep_clear c (proj1 HR)) as (c' & Hr & HR' & H1 & H2 & _).
    exists c'. auto.
  - now apply Rep_emplace.
  - now apply Rep_insertEmplaced.
Qed.

Lemma Rep_run : forall ops c g,
  Rep c g -> permitted_all (m_nodeCount c) ops g = true ->
  exists c', run sbits hbits debug ops c = Ok c' /\
    Rep c' (ghost_run ops g) /\
    m_nodeCount c' = m_nodeCount c /\ m_bucketCount c' = m_bucketCount c.
Proof.
  induction ops as [|op ops IH]; intros c g HR Hp.
  - exists c. simpl. auto.
  - simpl in Hp. apply andb_true_iff in Hp as [Hp1 Hp2].
    destruct (Rep_step c g op HR Hp1) as (c1 & Hr1 & HR1 & Hn1 & Hb1).
    rewrite <- Hn1 in Hp2.
    destruct (IH c1 _ HR1 Hp2) as (c' & Hr & HR' & Hn' & Hb').
    exists c'. simpl. rewrite Hr1, bind_Ok.
    split; [exact Hr|]. split; [exact HR'|]. split; congruence.
Qed.

End Preservation.

(** ** What the cursors yield on a represented container *)

Section Queries.

Variables (sbits hbits : Z) (debug : bool).

Local Abbreviation smax := (sizeLimits_max sbits).
Local Abbreviation Seg := (Seg sbits).
Local Abbreviation Rep := (Rep sbits hbits debug).

Lemma matching_chain nodes bc h l :
  (forall h1 s1, (h1, s1) ∈ l ->
     exists n, nodes !! Z.to_nat s1 = Some n /\ hash n = high hbits h1) ->
  matching nodes (high hbits h) (chain_of sbits bc (low sbits h mod bc) l)
  = same_hash sbits hbits bc h l.
Proof.
  induction l as [|[h1 s1] l IH]; intros Hl; [reflexivity|]. simpl.
  assert (IH' := IH (fun h2 s2 H => Hl h2 s2 (proj2 (elem_of_cons _ _ _) (or_intror H)))).
  destruct (Hl h1 s1) as (n & Hn & Hh); [apply elem_of_cons; now left|].
  destruct (low sbits h1 mod bc =? low sbits h mod bc); simpl; [|exact IH'].
  unfold matching in *. simpl. rewrite Hn, Hh.
  destruct (high hbits h1 =? high hbits h); simpl; now rewrite IH'.
Qed.

Lemma Rep_find_in c g h :
  Rep c g -> 0 < m_bucketCount c ->
  find_in sbits (high hbits h) (low sbits h mod m_bucketCount c) c
  = Ok (mkSearchIterator
          (hd smax (same_hash sbits hbits (m_bucketCount c) h (linked g)))) /\
  search_walk sbits (S (length (m_nodeList c)))
    (mkSearchIterator
       (hd smax (same_hash sbits hbits (m_bucketCount c) h (linked g)))) c
  = Ok (same_hash sbits hbits (m_bucketCount c) h (linked g)).
Proof.
  intros (Hsh & Hnd & Hrange & Hbk & Hlk & Hemp & Hdbg) Hpos.
  destruct (shape_bucket sbits c h Hsh Hpos) as (Hbr & _).
  destruct (Hbk _ Hbr) as (bk & Hb & Hseg).
  rewrite <- (matching_chain (m_nodeList c) (m_bucketCount c) h (linked g) Hlk).
  split.
  - unfold find_in. rewrite (at_index_ok _ _ _ (proj1 Hbr) Hb), bind_Ok.
    now rewrite (findNext2_spec sbits c _ _ _ Hseg).
  - apply (search_walk_spec sbits c _ _ _ (first bk) Hseg).
    pose proof (matching_length (m_nodeList c) (high hbits h)
                  (chain_of sbits (m_bucketCount c)
                     (low sbits h mod m_bucketCount c) (linked g))).
    pose proof (Seg_length _ _ _ _ Hseg). lia.
Qed.

Lemma Rep_find_all c g h :
  Rep c g -> 0 < m_bucketCount c ->
  find_all sbits hbits h c
  = Ok (same_hash sbits hbits (m_bucketCount c) h (linked g)).
Proof.
  intros HR Hpos. destruct (Rep_find_in c g h HR Hpos) as [Hf Hw].
  unfold find_all, find. rewrite (umod_ok _ (m_bucketCount c)) by lia.
  rewrite bind_Ok, Hf, bind_Ok. exact Hw.
Qed.

Lemma Rep_findEmplaced_all c g h s :
  Rep c g -> (h, s) ∈ emplaced g ->
  findEmplaced_all sbits debug s c
  = Ok (same_hash sbits hbits (m_bucketCount c) h (linked g)).
Proof.
  intros HR Hin.
  pose proof HR as (Hsh & Hnd & Hrange & Hbk & Hlk & Hemp & Hdbg).
  assert (Hs : 0 <= s < m_nodeCount c).
  { apply (Hrange h s). rewrite elem_of_app. auto. }
  destruct (shape_slot sbits c s Hsh Hs) as (Hsmax & Hpos & _).
  destruct (shape_bucket sbits c h Hsh Hpos) as (Hbr & Hbmax).
  destruct (Rep_find_in c g h HR Hpos) as [Hf Hw].
  unfold findEmplaced_all, findEmplaced.
  rewrite assert_true, bind_Ok by (destruct (Z.eqb_spec s smax); easy).
  rewrite (at_index_ok _ s _ (proj1 Hs) (Hemp h s Hin)), bind_Ok. simpl.
  rewrite assert_true, bind_Ok
    by (destruct (Z.eqb_spec (low sbits h mod m_bucketCount c) smax); easy).
  rewrite Hf, bind_Ok. exact Hw.
Qed.

Lemma chains_from_bounded c g b k :
  Rep c g ->
  (length (chains_from sbits (m_bucketCount c) b k (linked g))
   <= length (m_nodeList c))%nat.
Proof.
  intros (Hsh & Hnd & Hrange & Hbk & Hlk & Hemp & Hdbg).
  apply NoDup_app in Hnd as (Hnd1 & _).
  apply NoDup_bounded_length; [now apply NoDup_chains_from|].
  intros x Hx. apply elem_of_chains_from in Hx as (b' & _ & Hx).
  apply chain_of_slots, slots_elem_of in Hx as [h Hx].
  destruct Hsh as (H0 & _ & _ & _ & Hln). rewrite Hln.
  assert (0 <= x < m_nodeCount c); [|lia].
  apply (Hrange h x). rewrite elem_of_app. auto.
Qed.

Lemma Rep_enumerate c g :
  Rep c g -> 0 < m_bucketCount c ->
  enumerate sbits c
  = Ok (chains_from sbits (m_bucketCount c) 0
          (Z.to_nat (m_bucketCount c)) (linked g)).
Proof.
  intros HR Hpos.
  pose proof HR as (Hsh & Hnd & Hrange & Hbk & Hlk & Hemp & Hdbg).
  pose proof Hsh as (H0 & Hbc & Hlt & Hlb & Hln).
  destruct (begin_loop_spec sbits c (linked g) Hsh Hbk
              (Z.to_nat (m_bucketCount c - 1))
              (S (length (m_bucketList c))) 0) as (it & Hr & Hst);
    [lia..|].
  unfold enumerate, begin. rewrite Hr, bind_Ok.
  replace (S (Z.to_nat (m_bucketCount c - 1)))
    with (Z.to_nat (m_bucketCount c)) in Hst by lia.
  apply (global_walk_spec sbits c (linked g) Hsh Hbk _ _ _ Hst).
  pose proof (chains_from_bounded c g 0 (Z.to_nat (m_bucketCount c)) HR). lia.
Qed.

Lemma Rep_enumerate_bucket c g b :
  Rep c g -> 0 <= b < m_bucketCount c ->
  enumerate_bucket sbits b c
  = Ok (chain_of sbits (m_bucketCount c) b (linked g)).
Proof.
  intros HR Hb.
  pose proof HR as (Hsh & Hnd & Hrange & Hbk & Hlk & Hemp & Hdbg).
  destruct (Hbk b Hb) as (bk & Hbk' & Hseg).
  unfold enumerate_bucket, localBegin.
  rewrite (at_index_ok _ b _ (proj1 Hb) Hbk'), bind_Ok.
  apply (local_walk_spec sbits c (linked g) Hsh Hbk _ _ _ _ Hb Hseg).
  pose proof (Seg_length _ _ _ _ Hseg). lia.
Qed.

End Queries.

(** ** Containers reached from the constructor *)

Section Reachable.

Variables (sbits hbits : Z) (debug : bool).

Local Abbreviation smax := (sizeLimits_max sbits).
Local Abbreviation Rep := (Rep sbits hbits debug).

Hypothesis Hw : widths_ok sbits hbits.

Lemma construct_inv entries c0 :
  0 <= entries < 2 ^ 64 ->
  GenericHashContainer sbits hbits debug entries = Ok c0 ->
  entries < smax / 2 /\ Rep c0 no_entries /\
  m_nodeCount c0 = entries /\ m_bucketCount c0 = 2 * entries /\
  m_bucketList c0 = replicate (Z.to_nat (2 * entries)) (ff_bucket sbits).
Proof.
  intros He Hc. destruct (Z.lt_ge_cases entries (smax / 2)) as [Hlt|Hge].
  - destruct (construct_ok sbits hbits debug entries Hw ltac:(lia))
      as (c & Hc' & HR & H1 & H2 & H3).
    rewrite Hc in Hc'. injection Hc' as <-. auto.
  - unfold GenericHashContainer in Hc.
    now rewrite (computeBucketCount_throw sbits entries Hge) in Hc.
Qed.

Lemma reach entries c0 ops c :
  0 <= entries < 2 ^ 64 ->
  GenericHashContainer sbits hbits debug entries = Ok c0 ->
  permitted_all (m_nodeCount c0) ops no_entries = true ->
  run sbits hbits debug ops c0 = Ok c ->
  Rep c (ghost_run ops no_entries) /\
  m_nodeCount c = entries /\ m_bucketCount c = 2 * entries.
Proof.
  intros He Hc Hp Hr.
  destruct (construct_inv entries c0 He Hc) as (Hlt & HR & Hn & Hb & _).
  destruct (Rep_run sbits hbits debug ops c0 _ HR Hp) as (c' & Hr' & HR' & Hn' & Hb').
  rewrite Hr in Hr'. injection Hr' as <-.
  split; [exact HR'|]. split; congruence.
Qed.


End Reachable.

(** ** The container of capacity zero *)

Lemma construct_zero (sbits hbits : Z) (debug : bool) :
  widths_ok sbits hbits ->
  GenericHashContainer sbits hbits debug 0 = Ok (mkContainer 0 0 [] []).
Proof.
  intros Hw.
  destruct (computeBucketCount_ok sbits hbits 0 Hw) as (Hc & Hn & _).
  { pose proof (pow_sbits sbits hbits Hw) as Hp. unfold sizeLimits_max.
    change (2 ^ 8) with 256 in Hp.
    assert (1 <= (2 ^ sbits - 1) / 2); [|lia].
    apply Z.div_le_lower_bound; lia. }
  unfold GenericHashContainer. rewrite Hc, bind_Ok. cbv zeta. rewrite Hn.
  simpl. unfold clear. simpl. now destruct debug.
Qed.

(** ** Lookup: [find] and the order of equal hashes *)

Lemma ghost_run_app ops1 ops2 g :
  ghost_run (ops1 ++ ops2) g = ghost_run ops2 (ghost_run ops1 g).
Proof. unfold ghost_run. apply fold_left_app. Qed.

Lemma ghost_run_inserts h : forall slots g,
  ghost_run (OpInsert h <$> slots) g
  = mkGhost (rev (pair h <$> slots) ++ linked g) (emplaced g).
Proof.
  induction slots as [|s slots IH]; intros g; [now destruct g|].
  change (ghost_run (OpInsert h <$> s :: slots) g)
    with (ghost_run (OpInsert h <$> slots) (ghost_step (OpInsert h s) g)).
  rewrite IH. simpl. now rewrite <- app_assoc.
Qed.

Lemma same_hash_all sbits hbits bc h : forall slots,
  same_hash sbits hbits bc h (pair h <$> slots) = slots.
Proof.
  induction slots as [|s slots IH]; [reflexivity|]. simpl.
  rewrite !Z.eqb_refl. simpl. f_equal. exact IH.
Qed.

Lemma rev_pairs (h : Z) (slots : list Z) :
  rev (pair h <$> slots) = pair h <$> rev slots.
Proof. symmetry. apply map_rev. Qed.

(** X23 (the property of C1 for capacity at least one).  First half: on every
    container, for every hash [h] whose bucket
    [low h mod bucketCount] exists and heads the chain [l], [find h] returns
    the cursor at the first slot of [l] whose node stores the fragment
    [high h], and the invalid cursor (at the sentinel) when [l] has no such
    slot.
    Second half: in a container of capacity [n >= 1] that holds no entry,
    after [insert h s] for each of [n] slots [s] in turn (each in range and
    not yet in use when it is inserted, hence pairwise distinct), walking the
    cursor of [find h] to its end yields exactly these slots, last inserted
    first, and then the cursor is invalid. *)
Theorem find_first_match_then_lifo (sbits hbits : Z) (debug : bool)
  (Hw : widths_ok sbits hbits) :
  (forall c h bk l,
     0 < m_bucketCount c ->
     m_bucketList c !! Z.to_nat (low sbits h mod m_bucketCount c) = Some bk ->
     Seg sbits (m_nodeList c) (first bk) l (sizeLimits_max sbits) ->
     find sbits hbits h c
     = Ok (mkSearchIterator
             (hd (sizeLimits_max sbits)
                (matching (m_nodeList c) (high hbits h) l)))) /\
  (forall n c0 ops0 c h slots,
     1 <= n < 2 ^ 64 ->
     GenericHashContainer sbits hbits debug n = Ok c0 ->
     permitted_all (m_nodeCount c0) ops0 no_entries = true ->
     run sbits hbits debug ops0 c0 = Ok c ->
     ghost_run ops0 no_entries = no_entries ->
     length slots = Z.to_nat n ->
     permitted_all (nodes c) (OpInsert h <$> slots) no_entries = true ->
     exists c', run sbits hbits debug (OpInsert h <$> slots) c = Ok c' /\
       find_all sbits hbits h c' = Ok (rev slots)).
Proof.
  split.
  - intros c h bk l Hpos Hbk Hseg. unfold find.
    rewrite (umod_ok _ (m_bucketCount c)) by lia. rewrite bind_Ok.
    pose proof (Z.mod_pos_bound (low sbits h) (m_bucketCount c) Hpos) as Hb.
    unfold find_in. rewrite (at_index_ok _ _ _ (proj1 Hb) Hbk), bind_Ok.
    now rewrite (findNext2_spec sbits c _ _ _ Hseg).
  - intros n c0 ops0 c h slots Hn Hc Hp0 Hr0 Hg0 Hlen Hp.
    destruct (reach sbits hbits debug Hw n c0 ops0 c ltac:(lia) Hc Hp0 Hr0)
      as (HR & Hnc & Hbc).
    rewrite Hg0 in HR. unfold nodes in Hp.
    destruct (Rep_run sbits hbits debug _ c _ HR Hp) as (c' & Hr & HR' & Hn' & Hb').
    exists c'. split; [exact Hr|].
    rewrite (Rep_find_all sbits hbits debug c' _ h HR') by lia.
    rewrite ghost_run_inserts. simpl. rewrite app_nil_r, rev_pairs.
    now rewrite same_hash_all.
Qed.

Lemma Spec_widths_8_8 : widths_ok 8 8.
Proof. unfold widths_ok. lia. Qed.

Lemma find_first_match_then_lifo_witness :
  find 8 8 0 (mkContainer 2 1 [mkBucket 0; mkBucket 255] [mkNode 0 255])
  = Ok (mkSearchIterator 0) /\
  exists c', run 8 8 true (OpInsert 7 <$> [1; 0; 2])
               (mkContainer 6 3 (replicate 6 (mkBucket 255))
                  (replicate 3 (mkNode 255 255))) = Ok c' /\
    find_all 8 8 7 c' = Ok [2; 0; 1].
Proof.
  destruct (find_first_match_then_lifo 8 8 true Spec_widths_8_8) as [HA HB].
  split.
  - apply (HA (mkContainer 2 1 [mkBucket 0; mkBucket 255] [mkNode 0 255])
              0 (mkBucket 0) [0]).
    + reflexivity.
    + reflexivity.
    + simpl. repeat split; try lia; try discriminate.
      exists (mkNode 0 255). split; reflexivity.
  - apply (HB 3 (mkContainer 6 3 (replicate 6 (mkBucket 255))
                   (replicate 3 (mkNode 255 255)))
              [OpInsert 5 1; OpRemove 5 1]
              (mkContainer 6 3 (replicate 6 (mkBucket 255))
                 (replicate 3 (mkNode 255 255)))
              7 [1; 0; 2]).
    + vm_compute. split; [discriminate|reflexivity].
    + reflexivity.
    + reflexivity.
    + reflexivity.
    + reflexivity.
    + reflexivity.
    + reflexivity.
Defined.

(** C1 at capacity zero.  Construction with zero entries succeeds and
    leaves [bucketCount = 0]; inserting no slot leaves that container, and
    [find h] on it reduces [low h] modulo zero for every hash [h], which is
    undefined: it returns no cursor, where C1 has it return the invalid
    one. *)
Theorem find_on_zero_capacity (sbits hbits : Z) (debug : bool)
  (Hw : widths_ok sbits hbits) :
  exists c0, GenericHashContainer sbits hbits debug 0 = Ok c0 /\
    buckets c0 = 0 /\
    forall h,
      run sbits hbits debug (OpInsert h <$> []) c0 = Ok c0 /\
      umod (low sbits h) (buckets c0) = Undefined /\
      find sbits hbits h c0 = Undefined /\
      find_all sbits hbits h c0 = Undefined.
Proof.
  exists (mkContainer 0 0 [] []).
  split; [now apply construct_zero|]. split; [reflexivity|].
  intros h. repeat split.
Qed.

Lemma find_on_zero_capacity_witness :
  exists c0, GenericHashContainer 8 8 true 0 = Ok c0 /\
    buckets c0 = 0 /\
    forall h,
      run 8 8 true (OpInsert h <$> []) c0 = Ok c0 /\
      umod (low 8 h) (buckets c0) = Undefined /\
      find 8 8 h c0 = Undefined /\
      find_all 8 8 h c0 = Undefined.
Proof. apply (find_on_zero_capacity 8 8 true). unfold widths_ok. lia. Defined.

(** ** Removal *)

Lemma elem_of_same_hash sbits hbits bc h l x :
  x ∈ same_hash sbits hbits bc h l <->
  exists h1, (h1, x) ∈ l /\
    low sbits h1 mod bc = low sbits h mod bc /\ high hbits h1 = high hbits h.
Proof.
  induction l as [|[h0 s0] l IH]; simpl.
  - split; [intros H; inversion H|intros (h1 & H & _); inversion H].
  - destruct (Z.eqb_spec (low sbits h0 mod bc) (low sbits h mod bc)) as [E1|E1];
      destruct (Z.eqb_spec (high hbits h0) (high hbits h)) as [E2|E2]; simpl;
      rewrite ?elem_of_cons, IH; split.
    all: try (intros [->|(h1 & H & Hb & Hh)];
              [exists h0|exists h1]; rewrite elem_of_cons; now auto).
    all: try (intros (h1 & H & Hb & Hh); exists h1; rewrite elem_of_cons;
              now auto).
    all: intros (h1 & H & Hb & Hh); apply elem_of_cons in H as [H|H];
      try (injection H as -> ->; congruence || now left);
      try (right; now eauto); eauto.
Qed.

(** C2.  On every container, [remove h s] returns the container unchanged
    when the node of slot [s] stores a fragment other than [high h].  On a
    container reached from the constructor by permitted calls, for an entry
    [(h, s)] that is linked, [remove h s] succeeds and takes [s] out of the
    chain of its bucket: walking the cursor of [find h] afterwards does not
    yield [s], and for every other linked entry [(h', s')] walking the
    cursor of [find h'] still yields [s']. *)
Theorem remove_mismatch_noop_match_unlinks (sbits hbits : Z) (debug : bool)
  (Hw : widths_ok sbits hbits) :
  (forall c h s n,
     0 <= s -> m_nodeList c !! Z.to_nat s = Some n ->
     hash n <> high hbits h ->
     remove sbits hbits debug h s c = Ok c) /\
  (forall entries c0 ops c h s,
     0 <= entries < 2 ^ 64 ->
     GenericHashContainer sbits hbits debug entries = Ok c0 ->
     permitted_all (m_nodeCount c0) ops no_entries = true ->
     run sbits hbits debug ops c0 = Ok c ->
     has_entry h s (linked (ghost_run ops no_entries)) = true ->
     exists c', remove sbits hbits debug h s c = Ok c' /\
       (exists l, enumerate_bucket sbits (low sbits h mod buckets c') c' = Ok l
                  /\ s ∉ l) /\
       (exists l, find_all sbits hbits h c' = Ok l /\ s ∉ l) /\
       (forall h' s',
          has_entry h' s' (linked (ghost_run ops no_entries)) = true ->
          s' <> s ->
          exists l', find_all sbits hbits h' c' = Ok l' /\ s' ∈ l')).
Proof.
  split.
  - intros c h s n Hs Hn Hne. unfold remove.
    rewrite (at_index_ok _ s _ Hs Hn), bind_Ok.
    destruct (Z.eqb_spec (hash n) (high hbits h)); [contradiction|reflexivity].
  - intros entries c0 ops c h s He Hc Hp Hr Hin.
    destruct (reach sbits hbits debug Hw entries c0 ops c He Hc Hp Hr)
      as (HR & Hnc & Hbc).
    set (g := ghost_run ops no_entries) in *.
    destruct (Rep_remove sbits hbits debug c g h s HR Hin)
      as (c' & Hrm & HR' & Hn' & Hb').
    assert (Hs : 0 <= s < m_nodeCount c).
    { destruct HR as (_ & _ & Hrange & _). apply (Hrange h s).
      rewrite elem_of_app. left. now apply has_entry_true. }
    assert (Hpos : 0 < m_bucketCount c') by lia.
    exists c'. split; [exact Hrm|]. simpl in HR'. split; [|split].
    + eexists. split.
      * apply (Rep_enumerate_bucket sbits hbits debug c' _ _ HR').
        apply Z.mod_pos_bound. exact Hpos.
      * simpl. intros Hbad. apply chain_of_slots, slots_drop_slot in Hbad.
        tauto.
    + eexists. split; [apply (Rep_find_all sbits hbits debug c' _ h HR' Hpos)|].
      simpl. intros Hbad. apply elem_of_same_hash in Hbad as (h1 & Hbad & _).
      apply elem_of_drop_slot in Hbad. tauto.
    + intros h' s' Hin' Hne. apply has_entry_true in Hin'.
      eexists. split; [apply (Rep_find_all sbits hbits debug c' _ h' HR' Hpos)|].
      simpl. apply elem_of_same_hash. exists h'.
      split; [now apply elem_of_drop_slot|easy].
Qed.

Lemma remove_mismatch_noop_match_unlinks_witness :
  remove 8 8 true (2 ^ 63) 0
    (mkContainer 2 1 [mkBucket 0; mkBucket 255] [mkNode 0 255])
  = Ok (mkContainer 2 1 [mkBucket 0; mkBucket 255] [mkNode 0 255]) /\
  exists c', remove 8 8 true 6 1
               (mkContainer 6 3
                  [mkBucket 2; mkBucket 255; mkBucket 255;
                   mkBucket 255; mkBucket 255; mkBucket 255]
                  [mkNode 0 255; mkNode 0 0; mkNode 0 1]) = Ok c' /\
    (exists l, enumerate_bucket 8 (low 8 6 mod buckets c') c' = Ok l /\ 1 ∉ l) /\
    (exists l, find_all 8 8 6 c' = Ok l /\ 1 ∉ l) /\
    (forall h' s',
       has_entry h' s'
         (linked (ghost_run [OpInsert 0 0; OpInsert 6 1; OpInsert 12 2]
                    no_entries)) = true ->
       s' <> 1 -> exists l', find_all 8 8 h' c' = Ok l' /\ s' ∈ l').
Proof.
  destruct (remove_mismatch_noop_match_unlinks 8 8 true Spec_widths_8_8)
    as [HA HB].
  split.
  - apply (HA _ (2 ^ 63) 0 (mkNode 0 255)).
    + lia.
    + reflexivity.
    + vm_compute. discriminate.
  - apply (HB 3 (mkContainer 6 3 (replicate 6 (mkBucket 255))
                   (replicate 3 (mkNode 255 255)))
              [OpInsert 0 0; OpInsert 6 1; OpInsert 12 2]).
    + vm_compute. split; [discriminate|reflexivity].
    + reflexivity.
    + reflexivity.
    + reflexivity.
    + reflexivity.
Defined.

(** ** Two-phase insertion *)

(** C3.  On every container of consistent shape, for every hash [h] and
    every slot [s] in range whose node is unoccupied (in a build with
    assertions its two fields hold the sentinels, which is what [insert]
    asserts; a build without assertions records no occupancy), [emplace h s]
    followed by [insertEmplaced s] succeeds and yields the very container
    that [insert h s] yields: the same bucket array and the same node
    array. *)
Theorem emplace_insertEmplaced_is_insert (sbits hbits : Z) (debug : bool)
  (c : Container) (h s : Z) (n : Node)
  (Hshape : shape sbits c)
  (Hs : 0 <= s < m_nodeCount c)
  (Hn : m_nodeList c !! Z.to_nat s = Some n)
  (Hfree : debug = true -> n = ff_node sbits hbits) :
  exists c', insert sbits hbits debug h s c = Ok c' /\
    (c1 ← emplace sbits hbits debug h s c; insertEmplaced sbits debug s c1)
    = Ok c'.
Proof.
  destruct (shape_slot sbits c s Hshape Hs) as (Hsmax & Hpos & _).
  destruct (shape_bucket sbits c h Hshape Hpos) as (Hbr & Hbmax).
  pose proof Hshape as (H0 & Hbc & Hlt & Hlb & Hln).
  destruct (lookup_lt_is_Some_2 (m_bucketList c)
              (Z.to_nat (low sbits h mod m_bucketCount c))) as [bk Hbk]; [lia|].
  eexists. split.
  - apply (insert_effect sbits hbits debug c h s n bk); try lia; assumption.
  - rewrite (emplace_effect sbits hbits debug c h s n); try lia; try assumption.
    + rewrite bind_Ok.
      erewrite (insertEmplaced_effect sbits debug _ s
                  (mkNode (high hbits h) (low sbits h mod m_bucketCount c)) bk);
        simpl.
      * now rewrite list_insert_insert_eq.
      * lia.
      * exact Hsmax.
      * apply list_lookup_insert_eq. lia.
      * exact Hbmax.
      * simpl. lia.
      * exact Hbk.
    + intros Hd. rewrite (Hfree Hd). reflexivity.
Qed.

Lemma emplace_insertEmplaced_is_insert_witness :
  exists c',
    insert 8 8 true (2 ^ 60 + 9) 1
      (mkContainer 4 2 [mkBucket 0; mkBucket 255; mkBucket 255; mkBucket 255]
         [mkNode 0 255; mkNode 255 255]) = Ok c' /\
    (c1 ← emplace 8 8 true (2 ^ 60 + 9) 1
            (mkContainer 4 2
               [mkBucket 0; mkBucket 255; mkBucket 255; mkBucket 255]
               [mkNode 0 255; mkNode 255 255]);
     insertEmplaced 8 true 1 c1) = Ok c'.
Proof.
  apply (emplace_insertEmplaced_is_insert 8 8 true _ _ 1 (mkNode 255 255)).
  - unfold shape. simpl. vm_compute. repeat split; discriminate.
  - simpl. lia.
  - reflexivity.
  - reflexivity.
Defined.

(** C4.  On a container reached from the constructor by permitted calls,
    for a slot [s] that is emplaced under hash [h]: [emplace h s] was
    called and [s] has not been linked by [insertEmplaced s] since (nor
    returned to the unoccupied state by [clear()]).  Walking the cursor of
    [findEmplaced s] to its end yields exactly the linked entries whose
    bucket is [low h mod bucketCount] and whose node stores the fragment
    [high h], most recent first, and [s] is not among them. *)
Theorem findEmplaced_yields_linked_matches (sbits hbits : Z) (debug : bool)
  (Hw : widths_ok sbits hbits)
  (entries : Z) (c0 : Container) (ops : list Op) (c : Container) (h s : Z)
  (He : 0 <= entries < 2 ^ 64)
  (Hc : GenericHashContainer sbits hbits debug entries = Ok c0)
  (Hp : permitted_all (m_nodeCount c0) ops no_entries = true)
  (Hr : run sbits hbits debug ops c0 = Ok c)
  (Hs : hash_at s (emplaced (ghost_run ops no_entries)) = Some h) :
  let found := same_hash sbits hbits (buckets c) h
                 (linked (ghost_run ops no_entries)) in
  findEmplaced_all sbits debug s c = Ok found /\
  (s ∉ found) /\
  forall x, x ∈ found <->
    exists h1, (h1, x) ∈ linked (ghost_run ops no_entries) /\
      low sbits h1 mod buckets c = low sbits h mod buckets c /\
      hash_of x c = Ok (high hbits h).
Proof.
  intros found.
  destruct (reach sbits hbits debug Hw entries c0 ops c He Hc Hp Hr)
    as (HR & Hnc & Hbc).
  set (g := ghost_run ops no_entries) in *.
  apply hash_at_Some in Hs.
  split; [exact (Rep_findEmplaced_all sbits hbits debug c g h s HR Hs)|].
  destruct HR as (Hsh & Hnd & Hrange & Hbk & Hlk & Hemp & Hdbg).
  apply NoDup_app in Hnd as (Hnd1 & Hdis & Hnd2).
  split.
  - intros Hbad. apply elem_of_same_hash in Hbad as (h1 & Hbad & _).
    apply (Hdis s); [eapply elem_of_slots, Hbad|eapply elem_of_slots, Hs].
  - intros x. unfold found. rewrite elem_of_same_hash.
    split; intros (h1 & Hin & Hb & Hh); exists h1;
      (split; [exact Hin|]); (split; [exact Hb|]);
      destruct (Hlk h1 x Hin) as (n & Hn & Hhn);
      assert (Hx : 0 <= x) by (apply (Hrange h1 x); rewrite elem_of_app; auto).
    + unfold hash_of. rewrite (at_index_ok _ x _ Hx Hn), bind_Ok. congruence.
    + unfold hash_of in Hh. rewrite (at_index_ok _ x _ Hx Hn), bind_Ok in Hh.
      congruence.
Qed.

Lemma findEmplaced_yields_linked_matches_witness :
  let c := mkContainer 6 3
             [mkBucket 1; mkBucket 255; mkBucket 255;
              mkBucket 255; mkBucket 255; mkBucket 255]
             [mkNode 0 255; mkNode 0 0; mkNode 0 0] in
  let g := ghost_run [OpEmplace 6 2; OpInsert 0 0; OpInsert 12 1] no_entries in
  let found := same_hash 8 8 (buckets c) 6 (linked g) in
  findEmplaced_all 8 true 2 c = Ok found /\
  (2 ∉ found) /\
  forall x, x ∈ found <->
    exists h1, (h1, x) ∈ linked g /\
      low 8 h1 mod buckets c = low 8 6 mod buckets c /\
      hash_of x c = Ok (high 8 6).
Proof.
  apply (findEmplaced_yields_linked_matches 8 8 true Spec_widths_8_8 3
           (mkContainer 6 3 (replicate 6 (mkBucket 255))
              (replicate 3 (mkNode 255 255)))
           [OpEmplace 6 2; OpInsert 0 0; OpInsert 12 1]).
  - vm_compute. split; [discriminate|reflexivity].
  - reflexivity.
  - reflexivity.
  - reflexivity.
  - reflexivity.
Defined.

(** ** Full enumeration *)

Lemma chains_from_all sbits bc (lk : list (Z * Z)) :
  0 < bc -> NoDup lk.*2 ->
  chains_from sbits bc 0 (Z.to_nat bc) lk ≡ₚ lk.*2.
Proof.
  intros Hpos Hnd. apply NoDup_Permutation; [now apply NoDup_chains_from|exact Hnd|].
  intros x. rewrite elem_of_chains_from. split.
  - intros (b' & _ & Hx). eapply chain_of_slots, Hx.
  - intros Hx. apply slots_elem_of in Hx as [h Hx].
    exists (low sbits h mod bc). split.
    + pose proof (Z.mod_pos_bound (low sbits h) bc Hpos). lia.
    + apply elem_of_chain_of. eauto.
Qed.

(** C5.  On a container reached from the constructor by permitted calls
    that holds [k >= 1] linked entries, walking the global cursor from
    [begin()] until it is invalid (equal to [end()]) yields the chain of
    bucket 0, then that of bucket 1, and so on, each chain with its most
    recently inserted entry first; this is every linked slot exactly once,
    [k] slots in all.  The walk reads the container only, so two walks
    without a call in between yield the same slots in the same order. *)
Theorem global_cursor_visits_each_entry_once (sbits hbits : Z) (debug : bool)
  (Hw : widths_ok sbits hbits)
  (entries : Z) (c0 : Container) (ops : list Op) (c : Container)
  (He : 0 <= entries < 2 ^ 64)
  (Hc : GenericHashContainer sbits hbits debug entries = Ok c0)
  (Hp : permitted_all (m_nodeCount c0) ops no_entries = true)
  (Hr : run sbits hbits debug ops c0 = Ok c)
  (Hk : (1 <= length (linked (ghost_run ops no_entries)))%nat) :
  let lk := linked (ghost_run ops no_entries) in
  let visited := chains_from sbits (buckets c) 0 (Z.to_nat (buckets c)) lk in
  enumerate sbits c = Ok visited /\
  visited ≡ₚ lk.*2 /\ NoDup visited /\ length visited = length lk /\
  forall l1 l2, enumerate sbits c = Ok l1 -> enumerate sbits c = Ok l2 ->
    l1 = l2.
Proof.
  intros lk visited.
  destruct (reach sbits hbits debug Hw entries c0 ops c He Hc Hp Hr)
    as (HR & Hnc & Hbc).
  fold lk in HR, Hk.
  assert (Hpos : 0 < m_bucketCount c).
  { destruct lk as [|[h s] lk'] eqn:E; [simpl in Hk; lia|].
    destruct HR as (_ & _ & Hrange & _).
    assert (0 <= s < m_nodeCount c); [|lia].
    apply (Hrange h s). fold lk. rewrite E. rewrite elem_of_app. left.
    apply elem_of_cons. now left. }
  pose proof HR as (_ & Hnd & _). apply NoDup_app in Hnd as (Hnd1 & _).
  fold lk in Hnd1.
  pose proof (chains_from_all sbits (m_bucketCount c) lk Hpos Hnd1) as Hperm.
  split; [exact (Rep_enumerate sbits hbits debug c _ HR Hpos)|].
  split; [exact Hperm|].
  split; [now apply NoDup_chains_from|].
  split.
  - unfold visited, buckets. rewrite Hperm. apply length_fmap.
  - intros l1 l2 H1 H2. congruence.
Qed.

Lemma global_cursor_visits_each_entry_once_witness :
  let c := mkContainer 6 3
             [mkBucket 255; mkBucket 2; mkBucket 255;
              mkBucket 255; mkBucket 255; mkBucket 1]
             [mkNode 0 255; mkNode 0 255; mkNode 0 0] in
  let lk := linked (ghost_run [OpInsert 7 0; OpInsert 5 1; OpInsert 1 2]
                      no_entries) in
  let visited := chains_from 8 (buckets c) 0 (Z.to_nat (buckets c)) lk in
  enumerate 8 c = Ok visited /\
  visited ≡ₚ lk.*2 /\ NoDup visited /\ length visited = length lk /\
  forall l1 l2, enumerate 8 c = Ok l1 -> enumerate 8 c = Ok l2 -> l1 = l2.
Proof.
  apply (global_cursor_visits_each_entry_once 8 8 true Spec_widths_8_8 3
           (mkContainer 6 3 (replicate 6 (mkBucket 255))
              (replicate 3 (mkNode 255 255)))
           [OpInsert 7 0; OpInsert 5 1; OpInsert 1 2]).
  - vm_compute. split; [discriminate|reflexivity].
  - reflexivity.
  - reflexivity.
  - reflexivity.
  - simpl. lia.
Defined.

(** ** Clearing and construction *)

Lemma begin_loop_empty sbits c :
  shape sbits c ->
  m_bucketList c
  = replicate (Z.to_nat (m_bucketCount c)) (ff_bucket sbits) ->
  forall k fuel b,
    0 <= b < m_bucketCount c -> Z.of_nat k = m_bucketCount c - b - 1 ->
    (k < fuel)%nat ->
    begin_loop sbits fuel b c = Ok (end_ sbits c).
Proof.
  intros Hsh Hbl.
  assert (Hat : forall b, 0 <= b < m_bucketCount c ->
            at_index (m_bucketList c) b = Ok (ff_bucket sbits)).
  { intros b Hb. apply at_index_ok; [lia|]. rewrite Hbl.
    apply lookup_replicate_2. lia. }
  induction k as [|k IH]; intros fuel b Hb Hk Hf;
    (destruct fuel; [lia|]); cbn [begin_loop];
    rewrite (Hat b Hb), bind_Ok; simpl; rewrite Z.eqb_refl;
    rewrite (to_sizeType_succ sbits c Hsh b Hb).
  - destruct (Z.eqb_spec (b + 1) (m_bucketCount c)); [reflexivity|lia].
  - destruct (Z.eqb_spec (b + 1) (m_bucketCount c)); [lia|].
    apply IH; lia.
Qed.

(** X22 (the property of C6 for capacity at least one).  On a container of
    capacity at least one reached from the constructor by permitted calls (sequences of
    inserts among them), [clear()] succeeds; afterwards every bucket head
    is the sentinel, [find h] returns the invalid cursor for every hash [h]
    (those inserted before among them), [begin()] returns [end()], and
    [nodes()] and [buckets()] return what they returned before. *)
Theorem clear_empties_keeps_capacity (sbits hbits : Z) (debug : bool)
  (Hw : widths_ok sbits hbits)
  (entries : Z) (c0 : Container) (ops : list Op) (c : Container)
  (He : 1 <= entries < 2 ^ 64)
  (Hc : GenericHashContainer sbits hbits debug entries = Ok c0)
  (Hp : permitted_all (m_nodeCount c0) ops no_entries = true)
  (Hr : run sbits hbits debug ops c0 = Ok c) :
  exists c', clear sbits hbits debug c = Ok c' /\
    Forall (fun b => first b = sizeLimits_max sbits) (m_bucketList c') /\
    (forall h, find sbits hbits h c'
               = Ok (mkSearchIterator (sizeLimits_max sbits))) /\
    valid sbits (sizeLimits_max sbits) = false /\
    begin sbits c' = Ok (end_ sbits c') /\
    nodes c' = nodes c /\ buckets c' = buckets c.
Proof.
  destruct (reach sbits hbits debug Hw entries c0 ops c ltac:(lia) Hc Hp Hr)
    as (HR & Hnc & Hbc).
  destruct (Rep_clear sbits hbits debug c (proj1 HR))
    as (c' & Hcl & HR' & Hn' & Hb' & Hbl).
  assert (Hpos : 0 < m_bucketCount c') by lia.
  exists c'. split; [exact Hcl|]. split; [|split; [|split; [|split]]].
  - rewrite Hbl. apply Forall_replicate. reflexivity.
  - intros h. destruct (Rep_find_in sbits hbits debug c' _ h HR' Hpos) as [Hf _].
    unfold find. rewrite (umod_ok _ (m_bucketCount c')) by lia.
    rewrite bind_Ok. exact Hf.
  - unfold valid. now rewrite Z.eqb_refl.
  - unfold begin.
    apply (begin_loop_empty sbits c' (proj1 HR') ltac:(congruence)
             (Z.to_nat (m_bucketCount c' - 1))); try lia.
    destruct HR' as ((_ & _ & _ & Hlb & _) & _). lia.
  - unfold nodes, buckets. auto.
Qed.

Lemma clear_empties_keeps_capacity_witness :
  exists c',
    clear 8 8 true
      (mkContainer 4 2 [mkBucket 255; mkBucket 1; mkBucket 255; mkBucket 255]
         [mkNode 0 255; mkNode 0 0]) = Ok c' /\
    Forall (fun b => first b = sizeLimits_max 8) (m_bucketList c') /\
    (forall h, find 8 8 h c' = Ok (mkSearchIterator (sizeLimits_max 8))) /\
    valid 8 (sizeLimits_max 8) = false /\
    begin 8 c' = Ok (end_ 8 c') /\
    nodes c' = 2 /\ buckets c' = 4.
Proof.
  apply (clear_empties_keeps_capacity 8 8 true Spec_widths_8_8 2
           (mkContainer 4 2 (replicate 4 (mkBucket 255))
              (replicate 2 (mkNode 255 255)))
           [OpInsert 1 0; OpInsert 5 1]).
  - vm_compute. split; [discriminate|reflexivity].
  - reflexivity.
  - reflexivity.
  - reflexivity.
Defined.

(** C6 at capacity zero.  The container of capacity zero is reached by
    the empty sequence of inserts; [clear()] succeeds on it and keeps
    [nodes()] and [buckets()] at zero, and [begin()] afterwards reads
    [m_bucketList[0]] of an array of length zero, which is undefined: it
    does not return [end()]. *)
Theorem begin_after_clear_on_zero_capacity (sbits hbits : Z) (debug : bool)
  (Hw : widths_ok sbits hbits) :
  exists c0 c', GenericHashContainer sbits hbits debug 0 = Ok c0 /\
    permitted_all (nodes c0) [] no_entries = true /\
    run sbits hbits debug [] c0 = Ok c0 /\
    clear sbits hbits debug c0 = Ok c' /\
    nodes c' = nodes c0 /\ buckets c' = buckets c0 /\
    length (m_bucketList c') = 0%nat /\
    begin sbits c' = Undefined.
Proof.
  exists (mkContainer 0 0 [] []), (mkContainer 0 0 [] []).
  split; [now apply construct_zero|].
  repeat split. unfold clear. simpl. now destruct debug.
Qed.

Lemma begin_after_clear_on_zero_capacity_witness :
  exists c0 c', GenericHashContainer 16 8 true 0 = Ok c0 /\
    permitted_all (nodes c0) [] no_entries = true /\
    run 16 8 true [] c0 = Ok c0 /\
    clear 16 8 true c0 = Ok c' /\
    nodes c' = nodes c0 /\ buckets c' = buckets c0 /\
    length (m_bucketList c') = 0%nat /\
    begin 16 c' = Undefined.
Proof.
  apply (begin_after_clear_on_zero_capacity 16 8 true). unfold widths_ok. lia.
Defined.

(** C8.  Construction with zero entries succeeds, for every choice of the
    integer types, and gives a container whose bucket array is empty; on
    it the first test of the bucket scan of [begin()] indexes that array
    at 0, outside its bounds. *)
Theorem begin_on_zero_capacity (sbits hbits : Z) (debug : bool)
  (Hw : widths_ok sbits hbits) :
  exists c0, GenericHashContainer sbits hbits debug 0 = Ok c0 /\
    m_bucketList c0 = [] /\
    at_index (m_bucketList c0) 0 = Undefined /\
    begin sbits c0 = Undefined.
Proof.
  exists (mkContainer 0 0 [] []). split; [now apply construct_zero|].
  repeat split.
Qed.

Lemma begin_on_zero_capacity_witness :
  exists c0, GenericHashContainer 32 16 false 0 = Ok c0 /\
    m_bucketList c0 = [] /\
    at_index (m_bucketList c0) 0 = Undefined /\
    begin 32 c0 = Undefined.
Proof.
  apply (begin_on_zero_capacity 32 16 false).
  unfold widths_ok. lia.
Defined.

(** Every query of the API succeeds on a represented container. *)
Lemma Rep_api_total sbits hbits debug c g :
  Rep sbits hbits debug c g ->
  (0 < m_bucketCount c ->
   (forall h, exists l, find_all sbits hbits h c = Ok l) /\
   (exists l, enumerate sbits c = Ok l)) /\
  (forall b, 0 <= b < m_bucketCount c ->
     exists l, enumerate_bucket sbits b c = Ok l) /\
  (forall s, has_slot s (emplaced g) = true ->
     exists l, findEmplaced_all sbits debug s c = Ok l) /\
  (forall i, 0 <= i < m_nodeCount c -> exists v, hash_of i c = Ok v) /\
  (forall h s, has_entry h s (linked g) = true ->
     exists c', remove sbits hbits debug h s c = Ok c').
Proof.
  intros HR. split; [|split; [|split; [|split]]].
  - intros Hpos. split.
    + intros h. eexists. apply (Rep_find_all sbits hbits debug c g h HR Hpos).
    + eexists. apply (Rep_enumerate sbits hbits debug c g HR Hpos).
  - intros b Hb. eexists. apply (Rep_enumerate_bucket sbits hbits debug c g b HR Hb).
  - intros s Hs. apply has_slot_true, slots_elem_of in Hs as [h Hs].
    eexists. apply (Rep_findEmplaced_all sbits hbits debug c g h s HR Hs).
  - intros i Hi. destruct (shape_slot sbits c i (proj1 HR) Hi) as (_ & _ & n & Hn).
    exists (hash n). unfold hash_of.
    now rewrite (at_index_ok _ i _ (proj1 Hi) Hn).
  - intros h s Hin.
    destruct (Rep_remove sbits hbits debug c g h s HR Hin) as (c' & Hr & _).
    eauto.
Qed.



(** C7 at capacity zero.  Construction with zero entries does not throw;
    the caller then has no precondition to break, since [find] and
    [begin()] take no slot; yet [find] reduces modulo zero and [begin()]
    reads outside the empty bucket array.  Both are undefined behaviour that
    a caller observes and neither is the capacity error. *)
Theorem queries_undefined_on_zero_capacity (sbits hbits : Z) (debug : bool)
  (Hw : widths_ok sbits hbits) :
  0 < sizeLimits_max sbits / 2 /\
  exists c0, GenericHashContainer sbits hbits debug 0 = Ok c0 /\
    GenericHashContainer sbits hbits debug 0 <> Throw /\
    permitted_all (nodes c0) [] no_entries = true /\
    run sbits hbits debug [] c0 = Ok c0 /\
    (forall h, find sbits hbits h c0 = Undefined) /\
    begin sbits c0 = Undefined /\
    enumerate sbits c0 = Undefined.
Proof.
  split.
  { pose proof (pow_sbits sbits hbits Hw) as Hp. unfold sizeLimits_max.
    change (2 ^ 8) with 256 in Hp.
    assert (1 <= (2 ^ sbits - 1) / 2); [|lia].
    apply Z.div_le_lower_bound; lia. }
  exists (mkContainer 0 0 [] []).
  rewrite (construct_zero sbits hbits debug Hw). repeat split. discriminate.
Qed.

Lemma queries_undefined_on_zero_capacity_witness :
  0 < sizeLimits_max 64 / 2 /\
  exists c0, GenericHashContainer 64 32 false 0 = Ok c0 /\
    GenericHashContainer 64 32 false 0 <> Throw /\
    permitted_all (nodes c0) [] no_entries = true /\
    run 64 32 false [] c0 = Ok c0 /\
    (forall h, find 64 32 h c0 = Undefined) /\
    begin 64 c0 = Undefined /\
    enumerate 64 c0 = Undefined.
Proof.
  apply (queries_undefined_on_zero_capacity 64 32 false). unfold widths_ok. lia.
Defined.

(** ** Which bucket a hash selects *)

(** C9, as the code has it.  On a container with at least one bucket, the
    bucket selected by [insert h s], [find h] and [emplace h s] is
    [low h mod bucketCount], where [low h] is the hash cut to the width of
    [sizeType], [h mod 2 ^ sbits]: [find] searches that bucket, [insert]
    puts [s] at the head of that bucket and leaves every other head alone,
    and [emplace] stashes that index in the node.  So two hashes land in
    the same bucket exactly when their cut parts are congruent modulo the
    bucket count.  When [sizeType] has 64 bits nothing is cut and the
    bucket is [h mod bucketCount]. *)
Theorem bucket_is_low_mod_bucketCount (sbits hbits : Z) (debug : bool)
  (c : Container) (h : Z)
  (Hshape : shape sbits c)
  (Hpos : 0 < buckets c) :
  let b := low sbits h mod buckets c in
  low sbits h = h mod 2 ^ sbits /\
  0 <= b < buckets c /\
  find sbits hbits h c = find_in sbits (high hbits h) b c /\
  (forall s n,
     0 <= s < m_nodeCount c ->
     m_nodeList c !! Z.to_nat s = Some n ->
     (debug = true -> n = ff_node sbits hbits) ->
     (exists c', insert sbits hbits debug h s c = Ok c' /\
        m_bucketList c' !! Z.to_nat b = Some (mkBucket s) /\
        forall b', b' <> Z.to_nat b ->
          m_bucketList c' !! b' = m_bucketList c !! b') /\
     (exists c', emplace sbits hbits debug h s c = Ok c' /\
        m_nodeList c' !! Z.to_nat s = Some (mkNode (high hbits h) b))) /\
  (sbits = 64 -> 0 <= h < 2 ^ 64 -> b = h mod buckets c).
Proof.
  intros b. unfold buckets in *.
  destruct (shape_bucket sbits c h Hshape Hpos) as (Hbr & Hbmax).
  pose proof Hshape as (H0 & Hbc & Hlt & Hlb & Hln).
  destruct (lookup_lt_is_Some_2 (m_bucketList c)
              (Z.to_nat (low sbits h mod m_bucketCount c))) as [bk Hbk]; [lia|].
  split; [reflexivity|]. split; [exact Hbr|].
  split; [|split].
  - unfold find. now rewrite (umod_ok _ (m_bucketCount c)) by lia.
  - intros s n Hs Hn Hfree.
    destruct (shape_slot sbits c s Hshape Hs) as (Hsmax & _ & _).
    split.
    + eexists. split.
      * apply (insert_effect sbits hbits debug c h s n bk); try lia; assumption.
      * simpl. split.
        -- apply list_lookup_insert_eq. lia.
        -- intros b' Hb'. now apply list_lookup_insert_ne.
    + eexists. split.
      * apply (emplace_effect sbits hbits debug c h s n); try lia;
          try assumption.
        intros Hd. now rewrite (Hfree Hd).
      * simpl. apply list_lookup_insert_eq. lia.
  - intros -> Hh. unfold b, low, to_sizeType. now rewrite (Z.mod_small h) by lia.
Qed.

Lemma bucket_is_low_mod_bucketCount_witness :
  let c := mkContainer 6 3 (replicate 6 (mkBucket 255))
             (replicate 3 (mkNode 255 255)) in
  let b := low 8 258 mod buckets c in
  low 8 258 = 258 mod 2 ^ 8 /\
  0 <= b < buckets c /\
  find 8 8 258 c = find_in 8 (high 8 258) b c /\
  (forall s n,
     0 <= s < m_nodeCount c ->
     m_nodeList c !! Z.to_nat s = Some n ->
     (true = true -> n = ff_node 8 8) ->
     (exists c', insert 8 8 true 258 s c = Ok c' /\
        m_bucketList c' !! Z.to_nat b = Some (mkBucket s) /\
        forall b', b' <> Z.to_nat b ->
          m_bucketList c' !! b' = m_bucketList c !! b') /\
     (exists c', emplace 8 8 true 258 s c = Ok c' /\
        m_nodeList c' !! Z.to_nat s = Some (mkNode (high 8 258) b))) /\
  (8 = 64 -> 0 <= 258 < 2 ^ 64 -> b = 258 mod buckets c).
Proof.
  apply (bucket_is_low_mod_bucketCount 8 8 true
           (mkContainer 6 3 (replicate 6 (mkBucket 255))
              (replicate 3 (mkNode 255 255))) 258).
  - unfold shape. simpl. vm_compute. repeat split; discriminate.
  - reflexivity.
Defined.

(** With 8-bit slots and capacity 3 there are 6 buckets.  Hash 256 is 4
    modulo 6, yet [insert 256 0] puts slot 0 at the head of bucket 0 and
    leaves bucket 4 empty; and [find 0] then meets slot 0 although 0 and
    256 are not congruent modulo 6, while [find 258] misses the slot
    inserted under 252 although 252 and 258 are congruent modulo 6 and
    share their high part. *)
Lemma bucket_is_not_hash_mod_bucketCount :
  exists c0 c c2,
    GenericHashContainer 8 8 true 3 = Ok c0 /\
    insert 8 8 true 256 0 c0 = Ok c /\
    256 mod buckets c = 4 /\
    m_bucketList c !! 4%nat = Some (mkBucket (sizeLimits_max 8)) /\
    m_bucketList c !! 0%nat = Some (mkBucket 0) /\
    0 mod buckets c <> 256 mod buckets c /\
    find_all 8 8 0 c = Ok [0] /\
    insert 8 8 true 252 1 c0 = Ok c2 /\
    252 mod buckets c2 = 258 mod buckets c2 /\
    high 8 252 = high 8 258 /\
    find_all 8 8 252 c2 = Ok [1] /\
    find_all 8 8 258 c2 = Ok [].
Proof. do 3 eexists. repeat split. vm_compute. discriminate. Qed.

(** ** The chains stay well formed *)

Lemma concat_chain_list sbits bc (lk : list (Z * Z)) : forall k b,
  concat ((fun i => chain_of sbits bc (Z.of_nat i) lk) <$> seq b k)
  = chains_from sbits bc (Z.of_nat b) k lk.
Proof.
  induction k as [|k IH]; intros b; [reflexivity|]. simpl.
  rewrite IH. do 2 f_equal. lia.
Qed.

Lemma Seg_links sbits nodes (P : Z -> Prop) : forall l st,
  Seg sbits nodes st l (sizeLimits_max sbits) ->
  (forall x, x ∈ l -> P x) ->
  (st = sizeLimits_max sbits \/ P st) /\
  forall x, x ∈ l ->
    exists n, nodes !! Z.to_nat x = Some n /\
      (next n = sizeLimits_max sbits \/ P (next n)).
Proof.
  induction l as [|y l IH]; intros st Hseg HP; simpl in Hseg.
  - split; [now left|]. intros x Hx. inversion Hx.
  - destruct Hseg as (-> & _ & _ & n & Hn & Hrest).
    destruct (IH (next n) Hrest) as [Hnext Hall].
    { intros x Hx. apply HP. apply elem_of_cons. now right. }
    split; [right; apply HP, elem_of_cons; now left|].
    intros x Hx. apply elem_of_cons in Hx as [->|Hx]; [eauto|now apply Hall].
Qed.

Lemma Rep_well_formed sbits hbits debug c g :
  Rep sbits hbits debug c g ->
  well_formed sbits c
    ((fun i => chain_of sbits (m_bucketCount c) (Z.of_nat i) (linked g))
     <$> seq 0 (Z.to_nat (m_bucketCount c))).
Proof.
  intros (Hsh & Hnd & Hrange & Hbk & Hlk & Hemp & Hdbg).
  apply NoDup_app in Hnd as (Hnd1 & _).
  split; [now rewrite length_fmap, length_seq|].
  split; [rewrite concat_chain_list; now apply NoDup_chains_from|].
  intros b l Hl. apply list_lookup_fmap_Some in Hl as (i & -> & Hi).
  apply lookup_seq in Hi as [-> Hi]. simpl.
  destruct (Hbk (Z.of_nat b)) as (bk & Hb & Hseg); [lia|].
  rewrite Nat2Z.id in Hb. exists bk. split; [exact Hb|]. split; [exact Hseg|].
  assert (HP : forall x,
            x ∈ chain_of sbits (m_bucketCount c) (Z.of_nat b) (linked g) ->
            0 <= x < m_nodeCount c).
  { intros x Hx. apply chain_of_slots, slots_elem_of in Hx as [h Hx].
    apply (Hrange h x). rewrite elem_of_app. auto. }
  destruct (Seg_links sbits _ (fun x => 0 <= x < m_nodeCount c) _ _ Hseg HP)
    as [Hfirst Hall].
  split; [exact Hfirst|]. intros x Hx. split; [now apply HP|].
  exact (Hall x Hx).
Qed.

(** C10.  On every container reached from the constructor by permitted
    calls (inserts and emplaces of slots not in use, [insertEmplaced] of
    emplaced slots, removals of linked entries under their hash, [clear])
    the bucket array heads one chain per bucket; each chain is a finite
    path to the sentinel, each link on it is the sentinel or an index below
    [nodeCount], and no slot occurs twice, within a chain or across chains.
    Hence the walks terminate with a result: the cursor of [find] and of
    [findEmplaced] run to their ends, so do the global cursor from
    [begin()] and the bucket-scoped cursor of every bucket, and the scan of
    [remove] on a linked entry returns; none of them exhausts its budget of
    iterations, on any reached container. *)
Theorem chains_well_formed_walks_terminate (sbits hbits : Z) (debug : bool)
  (Hw : widths_ok sbits hbits)
  (entries : Z) (c0 : Container) (ops : list Op) (c : Container)
  (He : 0 <= entries < 2 ^ 64)
  (Hc : GenericHashContainer sbits hbits debug entries = Ok c0)
  (Hp : permitted_all (m_nodeCount c0) ops no_entries = true)
  (Hr : run sbits hbits debug ops c0 = Ok c) :
  (exists chains, well_formed sbits c chains) /\
  (0 < buckets c ->
   (forall h, exists l, find_all sbits hbits h c = Ok l) /\
   (exists l, enumerate sbits c = Ok l)) /\
  (forall b, 0 <= b < buckets c ->
     exists l, enumerate_bucket sbits b c = Ok l) /\
  (forall s, has_slot s (emplaced (ghost_run ops no_entries)) = true ->
     exists l, findEmplaced_all sbits debug s c = Ok l) /\
  (forall h s, has_entry h s (linked (ghost_run ops no_entries)) = true ->
     exists c', remove sbits hbits debug h s c = Ok c') /\
  (forall h, find_all sbits hbits h c <> OutOfFuel) /\
  enumerate sbits c <> OutOfFuel.
Proof.
  destruct (reach sbits hbits debug Hw entries c0 ops c He Hc Hp Hr)
    as (HR & Hnc & Hbc).
  destruct (Rep_api_total sbits hbits debug c _ HR)
    as (Hq1 & Hq2 & Hq3 & _ & Hq5).
  unfold buckets.
  split; [eexists; apply (Rep_well_formed sbits hbits debug c _ HR)|].
  split; [exact Hq1|]. split; [exact Hq2|]. split; [exact Hq3|].
  split; [exact Hq5|].
  destruct (Z.eq_dec entries 0) as [->|Hne].
  - destruct HR as ((_ & _ & _ & Hlb & _) & _).
    rewrite Hbc in Hlb. destruct (m_bucketList c) eqn:E; [|discriminate].
    split.
    + intros h. unfold find_all, find. rewrite Hbc. discriminate.
    + unfold enumerate, begin. rewrite E. simpl. rewrite E. discriminate.
  - destruct Hq1 as [Hf [l Hl]]; [lia|]. split.
    + intros h. destruct (Hf h) as [l' Hl']. rewrite Hl'. discriminate.
    + rewrite Hl. discriminate.
Qed.

Lemma chains_well_formed_walks_terminate_witness :
  let c := mkContainer 6 3
             [mkBucket 1; mkBucket 255; mkBucket 255;
              mkBucket 255; mkBucket 255; mkBucket 255]
             [mkNode 255 255; mkNode 0 255; mkNode 0 3] in
  let ops := [OpInsert 6 0; OpEmplace 3 2; OpInsert 12 1; OpRemove 6 0] in
  (exists chains, well_formed 8 c chains) /\
  (0 < buckets c ->
   (forall h, exists l, find_all 8 8 h c = Ok l) /\
   (exists l, enumerate 8 c = Ok l)) /\
  (forall b, 0 <= b < buckets c -> exists l, enumerate_bucket 8 b c = Ok l) /\
  (forall s, has_slot s (emplaced (ghost_run ops no_entries)) = true ->
     exists l, findEmplaced_all 8 true s c = Ok l) /\
  (forall h s, has_entry h s (linked (ghost_run ops no_entries)) = true ->
     exists c', remove 8 8 true h s c = Ok c') /\
  (forall h, find_all 8 8 h c <> OutOfFuel) /\
  enumerate 8 c <> OutOfFuel.
Proof.
  apply (chains_well_formed_walks_terminate 8 8 true Spec_widths_8_8 3
           (mkContainer 6 3 (replicate 6 (mkBucket 255))
              (replicate 3 (mkNode 255 255)))
           [OpInsert 6 0; OpEmplace 3 2; OpInsert 12 1; OpRemove 6 0]).
  - vm_compute. split; [discriminate|reflexivity].
  - reflexivity.
  - reflexivity.
  - reflexivity.
Defined.

(** * Further properties of the container *)

(** ** What [find] enumerates *)

Lemma NoDup_same_hash sbits hbits bc h (l : list (Z * Z)) :
  NoDup l.*2 -> NoDup (same_hash sbits hbits bc h l).
Proof.
  induction l as [|[h1 s1] l IH]; simpl; [constructor|].
  rewrite NoDup_cons. intros [Hnot Hnd].
  destruct ((low sbits h1 mod bc =? low sbits h mod bc)
            && (high hbits h1 =? high hbits h)); [|now apply IH].
  apply NoDup_cons. split; [|now apply IH].
  intros Hin. apply Hnot. apply elem_of_same_hash in Hin as (h2 & Hin & _).
  eapply elem_of_slots, Hin.
Qed.

(** X1.  On a container of capacity at least one reached by permitted
    calls, walking the cursor of [find h] to its end yields, most recent
    first and each once, exactly the linked slots whose hash selects the
    bucket of [h] and whose node stores the fragment [high h]; [find h]
    itself returns the first of them, and the invalid cursor exactly when
    there is none. *)
Theorem find_enumerates_equal_hashes (sbits hbits : Z) (debug : bool)
  (Hw : widths_ok sbits hbits)
  (entries : Z) (c0 : Container) (ops : list Op) (c : Container) (h : Z)
  (He : 1 <= entries < 2 ^ 64)
  (Hc : GenericHashContainer sbits hbits debug entries = Ok c0)
  (Hp : permitted_all (m_nodeCount c0) ops no_entries = true)
  (Hr : run sbits hbits debug ops c0 = Ok c) :
  let lk := linked (ghost_run ops no_entries) in
  let found := same_hash sbits hbits (buckets c) h lk in
  find_all sbits hbits h c = Ok found /\
  find sbits hbits h c
  = Ok (mkSearchIterator (hd (sizeLimits_max sbits) found)) /\
  (found = [] <-> find sbits hbits h c
                  = Ok (mkSearchIterator (sizeLimits_max sbits))) /\
  NoDup found /\
  forall x, x ∈ found <->
    exists h1, (h1, x) ∈ lk /\
      low sbits h1 mod buckets c = low sbits h mod buckets c /\
      hash_of x c = Ok (high hbits h).
Proof.
  intros lk found.
  destruct (reach sbits hbits debug Hw entries c0 ops c ltac:(lia) Hc Hp Hr)
    as (HR & Hnc & Hbc).
  fold lk in HR. unfold buckets in *.
  assert (Hpos : 0 < m_bucketCount c) by lia.
  destruct (Rep_find_in sbits hbits debug c _ h HR Hpos) as [Hf Hwalk].
  assert (Hfind : find sbits hbits h c
                  = Ok (mkSearchIterator (hd (sizeLimits_max sbits) found))).
  { unfold find. rewrite (umod_ok _ (m_bucketCount c)) by lia.
    rewrite bind_Ok. exact Hf. }
  pose proof HR as (Hsh & Hnd & Hrange & Hbk & Hlk & Hemp & Hdbg).
  apply NoDup_app in Hnd as (Hnd1 & _).
  split; [exact (Rep_find_all sbits hbits debug c _ h HR Hpos)|].
  split; [exact Hfind|]. split; [|split].
  - rewrite Hfind. split; [now intros ->|].
    intros [= Heq]. destruct found as [|x rest] eqn:E; [reflexivity|].
    simpl in Heq. exfalso.
    assert (Hx : x ∈ found) by (rewrite E; apply elem_of_cons; now left).
    apply elem_of_same_hash in Hx as (h1 & Hx & _).
    assert (0 <= x < m_nodeCount c).
    { apply (Hrange h1 x). rewrite elem_of_app. now left. }
    destruct (shape_slot sbits c x Hsh ltac:(lia)) as (Hne & _). congruence.
  - now apply NoDup_same_hash.
  - intros x. unfold found. rewrite elem_of_same_hash.
    split; intros (h1 & Hin & Hb & Hh); exists h1;
      (split; [exact Hin|]); (split; [exact Hb|]);
      destruct (Hlk h1 x Hin) as (n & Hn & Hhn);
      assert (Hx : 0 <= x) by (apply (Hrange h1 x); rewrite elem_of_app; auto).
    + unfold hash_of. rewrite (at_index_ok _ x _ Hx Hn), bind_Ok. congruence.
    + unfold hash_of in Hh. rewrite (at_index_ok _ x _ Hx Hn), bind_Ok in Hh.
      congruence.
Qed.

Lemma find_enumerates_equal_hashes_witness :
  let c := mkContainer 6 3
             [mkBucket 2; mkBucket 1; mkBucket 255;
              mkBucket 255; mkBucket 255; mkBucket 255]
             [mkNode 0 255; mkNode 0 255; mkNode 1 0] in
  let lk := linked (ghost_run
                      [OpInsert 6 0; OpInsert 1 1; OpInsert (2 ^ 56 + 12) 2]
                      no_entries) in
  let found := same_hash 8 8 (buckets c) 6 lk in
  find_all 8 8 6 c = Ok found /\
  find 8 8 6 c = Ok (mkSearchIterator (hd (sizeLimits_max 8) found)) /\
  (found = [] <-> find 8 8 6 c = Ok (mkSearchIterator (sizeLimits_max 8))) /\
  NoDup found /\
  forall x, x ∈ found <->
    exists h1, (h1, x) ∈ lk /\
      low 8 h1 mod buckets c = low 8 6 mod buckets c /\
      hash_of x c = Ok (high 8 6).
Proof.
  apply (find_enumerates_equal_hashes 8 8 true Spec_widths_8_8 3
           (mkContainer 6 3 (replicate 6 (mkBucket 255))
              (replicate 3 (mkNode 255 255)))
           [OpInsert 6 0; OpInsert 1 1; OpInsert (2 ^ 56 + 12) 2]).
  - vm_compute. split; [discriminate|reflexivity].
  - reflexivity.
  - reflexivity.
  - reflexivity.
Defined.

(** ** Round trips of [insert] *)

(** X2.  On a reached container, after [insert h s] of a slot not in use,
    [find h] returns the cursor at [s] and walking it on yields what
    [find h] yielded before; the bucket-scoped cursor of the bucket of [h]
    yields [s] and then what it yielded before; and [find h'] yields what
    it yielded before for every hash [h'] that differs from [h] in bucket
    or in stored fragment. *)
Theorem insert_then_find (sbits hbits : Z) (debug : bool)
  (Hw : widths_ok sbits hbits)
  (entries : Z) (c0 : Container) (ops : list Op) (c : Container) (h s : Z)
  (He : 0 <= entries < 2 ^ 64)
  (Hc : GenericHashContainer sbits hbits debug entries = Ok c0)
  (Hp : permitted_all (m_nodeCount c0) ops no_entries = true)
  (Hr : run sbits hbits debug ops c0 = Ok c)
  (Hs : fresh (nodes c) h s (ghost_run ops no_entries) = true) :
  exists c' before chain,
    insert sbits hbits debug h s c = Ok c' /\
    find_all sbits hbits h c = Ok before /\
    find sbits hbits h c' = Ok (mkSearchIterator s) /\
    find_all sbits hbits h c' = Ok (s :: before) /\
    enumerate_bucket sbits (low sbits h mod buckets c) c = Ok chain /\
    enumerate_bucket sbits (low sbits h mod buckets c) c' = Ok (s :: chain) /\
    forall h',
      low sbits h' mod buckets c <> low sbits h mod buckets c \/
      high hbits h' <> high hbits h ->
      find_all sbits hbits h' c' = find_all sbits hbits h' c.
Proof.
  destruct (reach sbits hbits debug Hw entries c0 ops c He Hc Hp Hr)
    as (HR & Hnc & Hbc).
  set (g := ghost_run ops no_entries) in *. unfold nodes, buckets in *.
  destruct (Rep_insert sbits hbits debug c g h s HR Hs)
    as (c' & Hi & HR' & Hn' & Hb').
  apply fresh_inv in Hs as (Hh & Hs & _).
  assert (Hpos : 0 < m_bucketCount c) by lia.
  assert (Hpos' : 0 < m_bucketCount c') by lia.
  assert (Hbr : 0 <= low sbits h mod m_bucketCount c < m_bucketCount c)
    by (apply Z.mod_pos_bound; lia).
  simpl in HR'.
  exists c', (same_hash sbits hbits (m_bucketCount c) h (linked g)),
    (chain_of sbits (m_bucketCount c) (low sbits h mod m_bucketCount c)
       (linked g)).
  split; [exact Hi|].
  split; [exact (Rep_find_all sbits hbits debug c g h HR Hpos)|].
  assert (Hcons : same_hash sbits hbits (m_bucketCount c') h ((h, s) :: linked g)
                  = s :: same_hash sbits hbits (m_bucketCount c) h (linked g)).
  { simpl. rewrite Hb', !Z.eqb_refl. reflexivity. }
  split; [|split; [|split; [|split]]].
  - destruct (Rep_find_in sbits hbits debug c' _ h HR' Hpos') as [Hf _].
    unfold find. rewrite (umod_ok _ (m_bucketCount c')) by lia.
    rewrite bind_Ok, Hf. simpl linked. now rewrite Hcons.
  - rewrite (Rep_find_all sbits hbits debug c' _ h HR' Hpos'). simpl linked.
    now rewrite Hcons.
  - exact (Rep_enumerate_bucket sbits hbits debug c g _ HR Hbr).
  - rewrite <- Hb' at 1.
    rewrite (Rep_enumerate_bucket sbits hbits debug c' _ _ HR')
      by (rewrite Hb'; exact Hbr).
    simpl. rewrite Hb', Z.eqb_refl. reflexivity.
  - intros h' Hdiff.
    rewrite (Rep_find_all sbits hbits debug c' _ h' HR' Hpos'),
      (Rep_find_all sbits hbits debug c g h' HR Hpos).
    simpl. rewrite Hb'.
    destruct (Z.eqb_spec (low sbits h mod m_bucketCount c)
                (low sbits h' mod m_bucketCount c)) as [E1|E1];
      destruct (Z.eqb_spec (high hbits h) (high hbits h')) as [E2|E2];
      simpl; try reflexivity.
    destruct Hdiff; congruence.
Qed.

Lemma insert_then_find_witness :
  let c := mkContainer 6 3
             [mkBucket 0; mkBucket 255; mkBucket 255;
              mkBucket 255; mkBucket 255; mkBucket 255]
             [mkNode 0 255; mkNode 255 255; mkNode 255 255] in
  exists c' before chain,
    insert 8 8 true 12 2 c = Ok c' /\
    find_all 8 8 12 c = Ok before /\
    find 8 8 12 c' = Ok (mkSearchIterator 2) /\
    find_all 8 8 12 c' = Ok (2 :: before) /\
    enumerate_bucket 8 (low 8 12 mod buckets c) c = Ok chain /\
    enumerate_bucket 8 (low 8 12 mod buckets c) c' = Ok (2 :: chain) /\
    forall h',
      low 8 h' mod buckets c <> low 8 12 mod buckets c \/
      high 8 h' <> high 8 12 ->
      find_all 8 8 h' c' = find_all 8 8 h' c.
Proof.
  apply (insert_then_find 8 8 true Spec_widths_8_8 3
           (mkContainer 6 3 (replicate 6 (mkBucket 255))
              (replicate 3 (mkNode 255 255)))
           [OpInsert 6 0]).
  - vm_compute. split; [discriminate|reflexivity].
  - reflexivity.
  - reflexivity.
  - reflexivity.
  - reflexivity.
Defined.

(** X3.  On every container of consistent shape, [insert h s] of an
    unoccupied slot followed by [remove h s] succeeds and gives back the
    bucket array as it was; a build with assertions gives back the whole
    container, a build without leaves in node [s] the fragment and the link
    that [insert] wrote. *)
Theorem insert_then_remove (sbits hbits : Z) (debug : bool)
  (c : Container) (h s : Z) (n : Node)
  (Hshape : shape sbits c)
  (Hs : 0 <= s < m_nodeCount c)
  (Hn : m_nodeList c !! Z.to_nat s = Some n)
  (Hfree : debug = true -> n = ff_node sbits hbits) :
  exists c' c'' bk,
    insert sbits hbits debug h s c = Ok c' /\
    remove sbits hbits debug h s c' = Ok c'' /\
    m_bucketList c !! Z.to_nat (low sbits h mod buckets c) = Some bk /\
    m_bucketList c'' = m_bucketList c /\
    nodes c'' = nodes c /\ buckets c'' = buckets c /\
    (debug = true -> c'' = c) /\
    (debug = false ->
     m_nodeList c''
     = <[Z.to_nat s := mkNode (high hbits h) (first bk)]> (m_nodeList c)).
Proof.
  unfold nodes, buckets.
  destruct (shape_slot sbits c s Hshape Hs) as (Hsmax & Hpos & _).
  destruct (shape_bucket sbits c h Hshape Hpos) as (Hbr & Hbmax).
  pose proof Hshape as (H0 & Hbc & Hlt & Hlb & Hln).
  destruct (lookup_lt_is_Some_2 (m_bucketList c)
              (Z.to_nat (low sbits h mod m_bucketCount c))) as [bk Hbk]; [lia|].
  set (b := low sbits h mod m_bucketCount c) in *.
  assert (Hslen : (Z.to_nat s < length (m_nodeList c))%nat) by lia.
  assert (Hblen : (Z.to_nat b < length (m_bucketList c))%nat) by lia.
  pose proof (insert_effect sbits hbits debug c h s n bk (proj1 Hs) Hn Hfree
                ltac:(lia) (proj1 Hbr) Hbk) as Hi. fold b in Hi.
  set (c' := mkContainer _ _ _ _) in Hi.
  assert (Hrm : remove sbits hbits debug h s c'
                = poison sbits hbits debug s
                    (set_buckets c' (<[Z.to_nat b := mkBucket (first bk)]>
                                       (m_bucketList c')))).
  { unfold remove.
    rewrite (at_index_ok (m_nodeList c') s (mkNode (high hbits h) (first bk)))
      by (try lia; simpl; now apply list_lookup_insert_eq).
    rewrite bind_Ok. simpl hash. rewrite Z.eqb_refl. cbn [negb].
    change (m_bucketCount c') with (m_bucketCount c).
    rewrite (umod_ok _ (m_bucketCount c)) by lia. rewrite bind_Ok. fold b.
    rewrite (at_index_ok (m_bucketList c') b (mkBucket s))
      by (try lia; simpl; now apply list_lookup_insert_eq).
    rewrite bind_Ok. cbv zeta. simpl first. rewrite Z.eqb_refl.
    erewrite (write_first_ok c' b _ (mkBucket s));
      [|lia|simpl; now apply list_lookup_insert_eq].
    rewrite bind_Ok. reflexivity. }
  assert (Hbuckets : <[Z.to_nat b := mkBucket (first bk)]> (m_bucketList c')
                     = m_bucketList c).
  { simpl. rewrite list_insert_insert_eq. apply list_insert_id.
    rewrite Hbk. now destruct bk. }
  rewrite Hbuckets in Hrm.
  rewrite (poison_effect sbits hbits debug _ s (mkNode (high hbits h) (first bk))
             (proj1 Hs)) in Hrm
    by (simpl; now apply list_lookup_insert_eq).
  eexists c', _, bk. split; [exact Hi|]. split; [exact Hrm|].
  split; [exact Hbk|].
  destruct debug; simpl; repeat split; try reflexivity; try discriminate.
  - intros _. rewrite list_insert_insert_eq.
    rewrite (list_insert_id (m_nodeList c)); [now destruct c|].
    rewrite Hn. now rewrite (Hfree eq_refl).
Qed.

Lemma insert_then_remove_witness :
  let c := mkContainer 4 2 [mkBucket 255; mkBucket 0; mkBucket 255; mkBucket 255]
             [mkNode 3 255; mkNode 255 255] in
  exists c' c'' bk,
    insert 8 8 true (2 ^ 57 + 5) 1 c = Ok c' /\
    remove 8 8 true (2 ^ 57 + 5) 1 c' = Ok c'' /\
    m_bucketList c !! Z.to_nat (low 8 (2 ^ 57 + 5) mod buckets c) = Some bk /\
    m_bucketList c'' = m_bucketList c /\
    nodes c'' = nodes c /\ buckets c'' = buckets c /\
    (true = true -> c'' = c) /\
    (true = false ->
     m_nodeList c''
     = <[Z.to_nat 1 := mkNode (high 8 (2 ^ 57 + 5)) (first bk)]> (m_nodeList c)).
Proof.
  apply (insert_then_remove 8 8 true _ _ 1 (mkNode 255 255)).
  - unfold shape. simpl. vm_compute. repeat split; discriminate.
  - simpl. lia.
  - reflexivity.
  - reflexivity.
Defined.

(** ** [remove] of a pair that is not there *)

Lemma remove_outside_chain sbits hbits debug c g h s n :
  Rep sbits hbits debug c g ->
  0 <= s < m_nodeCount c ->
  m_nodeList c !! Z.to_nat s = Some n ->
  hash n = high hbits h ->
  s ∉ chain_of sbits (m_bucketCount c) (low sbits h mod m_bucketCount c)
        (linked g) ->
  remove sbits hbits debug h s c
  = Ok (if debug
        then set_nodes c (<[Z.to_nat s := ff_node sbits hbits]> (m_nodeList c))
        else c).
Proof.
  intros HR Hs Hn Hh Hnot.
  pose proof HR as (Hsh & Hnd & Hrange & Hbk & Hlk & Hemp & Hdbg).
  destruct (shape_slot sbits c s Hsh Hs) as (Hsmax & Hpos & _).
  destruct (shape_bucket sbits c h Hsh Hpos) as (Hbr & _).
  destruct (Hbk _ Hbr) as (bk & Hb & Hseg).
  set (b := low sbits h mod m_bucketCount c) in *.
  unfold remove. rewrite (at_index_ok _ s _ (proj1 Hs) Hn), bind_Ok.
  rewrite Hh, Z.eqb_refl. cbn [negb].
  rewrite (umod_ok _ (m_bucketCount c)) by lia. rewrite bind_Ok. fold b.
  rewrite (at_index_ok _ b _ (proj1 Hbr) Hb), bind_Ok. cbv zeta.
  assert (Hfirst : first bk <> s).
  { rewrite (Seg_hd _ _ _ _ Hseg).
    destruct (chain_of sbits (m_bucketCount c) b (linked g)) as [|x l] eqn:E;
      simpl; [congruence|].
    intros ->. apply Hnot. apply elem_of_cons. now left. }
  destruct (Z.eqb_spec (first bk) s); [contradiction|].
  rewrite (remove_loop_pass sbits c s _ _ (first bk) Hseg Hnot Hsmax), bind_Ok.
  - exact (poison_effect sbits hbits debug c s n (proj1 Hs) Hn).
  - pose proof (Seg_length _ _ _ _ Hseg). lia.
Qed.

(** X4.  On a reached container, [remove h s] of a slot in range that is
    neither linked nor emplaced returns the container unchanged, for every
    hash [h]. *)
Theorem remove_unoccupied_changes_nothing (sbits hbits : Z) (debug : bool)
  (Hw : widths_ok sbits hbits)
  (entries : Z) (c0 : Container) (ops : list Op) (c : Container) (h s : Z)
  (He : 0 <= entries < 2 ^ 64)
  (Hc : GenericHashContainer sbits hbits debug entries = Ok c0)
  (Hp : permitted_all (m_nodeCount c0) ops no_entries = true)
  (Hr : run sbits hbits debug ops c0 = Ok c)
  (Hs : 0 <= s < nodes c)
  (Hl : has_slot s (linked (ghost_run ops no_entries)) = false)
  (Hm : has_slot s (emplaced (ghost_run ops no_entries)) = false) :
  remove sbits hbits debug h s c = Ok c.
Proof.
  destruct (reach sbits hbits debug Hw entries c0 ops c He Hc Hp Hr)
    as (HR & Hnc & Hbc).
  set (g := ghost_run ops no_entries) in *. unfold nodes in Hs.
  apply has_slot_false in Hl, Hm.
  pose proof HR as (Hsh & _ & _ & _ & _ & _ & Hdbg).
  destruct (shape_slot sbits c s Hsh Hs) as (_ & _ & n & Hn).
  destruct (Z.eq_dec (hash n) (high hbits h)) as [Heq|Hne].
  - rewrite (remove_outside_chain sbits hbits debug c g h s n HR Hs Hn Heq).
    + destruct debug eqn:E; [|reflexivity].
      rewrite list_insert_id; [now destruct c|]. now apply Hdbg.
    + intros Hin. apply Hl. eapply chain_of_slots, Hin.
  - unfold remove. rewrite (at_index_ok _ s _ (proj1 Hs) Hn), bind_Ok.
    destruct (Z.eqb_spec (hash n) (high hbits h)); [contradiction|reflexivity].
Qed.

Lemma remove_unoccupied_changes_nothing_witness :
  remove 8 8 false 6 0
    (mkContainer 4 2 [mkBucket 1; mkBucket 255; mkBucket 255; mkBucket 255]
       [mkNode 0 255; mkNode 0 255])
  = Ok (mkContainer 4 2 [mkBucket 1; mkBucket 255; mkBucket 255; mkBucket 255]
          [mkNode 0 255; mkNode 0 255]).
Proof.
  apply (remove_unoccupied_changes_nothing 8 8 false Spec_widths_8_8 2
           (mkContainer 4 2 (replicate 4 (mkBucket 255))
              (replicate 2 (mkNode 0 0)))
           [OpInsert 4 0; OpInsert 8 1; OpRemove 4 0]).
  - vm_compute. split; [discriminate|reflexivity].
  - reflexivity.
  - reflexivity.
  - reflexivity.
  - simpl. lia.
  - reflexivity.
  - reflexivity.
Defined.

(** X5.  On a reached container, let [(h, s)] be linked and let [h'] have
    the stored fragment of [h] but select another bucket.  Then
    [remove h' s] passes the fragment check and scans the wrong chain: a
    build without assertions returns the container unchanged; a build with
    assertions overwrites node [s] with the sentinels although [s] stays in
    its chain, so the chain ends at [s] and the fragment of [s] reads as
    the sentinel. *)
Theorem remove_under_other_bucket (sbits hbits : Z) (debug : bool)
  (Hw : widths_ok sbits hbits)
  (entries : Z) (c0 : Container) (ops : list Op) (c : Container) (h h' s : Z)
  (He : 0 <= entries < 2 ^ 64)
  (Hc : GenericHashContainer sbits hbits debug entries = Ok c0)
  (Hp : permitted_all (m_nodeCount c0) ops no_entries = true)
  (Hr : run sbits hbits debug ops c0 = Ok c)
  (Hin : has_entry h s (linked (ghost_run ops no_entries)) = true)
  (Hfrag : high hbits h' = high hbits h)
  (Hbucket : low sbits h' mod buckets c <> low sbits h mod buckets c) :
  exists c', remove sbits hbits debug h' s c = Ok c' /\
    m_bucketList c' = m_bucketList c /\
    (debug = false -> c' = c) /\
    (debug = true ->
     m_nodeList c' = <[Z.to_nat s := ff_node sbits hbits]> (m_nodeList c) /\
     hash_of s c' = Ok (hashLimits_max hbits) /\
     nextElement sbits s (low sbits h mod buckets c) c'
     = nextElement_loop sbits (S (length (m_bucketList c')))
         (low sbits h mod buckets c) c').
Proof.
  destruct (reach sbits hbits debug Hw entries c0 ops c He Hc Hp Hr)
    as (HR & Hnc & Hbc).
  set (g := ghost_run ops no_entries) in *. unfold buckets in *.
  apply has_entry_true in Hin.
  pose proof HR as (Hsh & Hnd & Hrange & Hbk & Hlk & _).
  apply NoDup_app in Hnd as (Hnd1 & _).
  assert (Hs : 0 <= s < m_nodeCount c).
  { apply (Hrange h s). rewrite elem_of_app. now left. }
  destruct (Hlk h s Hin) as (n & Hn & Hh).
  assert (Hslen : (Z.to_nat s < length (m_nodeList c))%nat)
    by (eapply lookup_lt_Some, Hn).
  eexists. split.
  - apply (remove_outside_chain sbits hbits debug c g h' s n HR Hs Hn);
      [congruence|].
    intros Hbad. apply Hbucket.
    eapply (chain_of_distinct sbits (m_bucketCount c) _ _ s (linked g) Hnd1 Hbad).
    apply elem_of_chain_of. eauto.
  - destruct debug; simpl.
    + split; [reflexivity|]. split; [discriminate|]. intros _.
      split; [reflexivity|]. split.
      * unfold hash_of. simpl.
        rewrite (at_index_ok _ s (ff_node sbits hbits)) by
          (try lia; now apply list_lookup_insert_eq). reflexivity.
      * unfold nextElement. simpl.
        rewrite (at_index_ok _ s (ff_node sbits hbits)) by
          (try lia; now apply list_lookup_insert_eq).
        rewrite bind_Ok. simpl. now rewrite Z.eqb_refl.
    + split; [reflexivity|]. split; [reflexivity|discriminate].
Qed.

Lemma remove_under_other_bucket_witness :
  let c := mkContainer 4 2 [mkBucket 1; mkBucket 255; mkBucket 255; mkBucket 255]
             [mkNode 0 255; mkNode 0 0] in
  exists c', remove 8 8 true 1 1 c = Ok c' /\
    m_bucketList c' = m_bucketList c /\
    (true = false -> c' = c) /\
    (true = true ->
     m_nodeList c' = <[Z.to_nat 1 := ff_node 8 8]> (m_nodeList c) /\
     hash_of 1 c' = Ok (hashLimits_max 8) /\
     nextElement 8 1 (low 8 8 mod buckets c) c'
     = nextElement_loop 8 (S (length (m_bucketList c')))
         (low 8 8 mod buckets c) c').
Proof.
  apply (remove_under_other_bucket 8 8 true Spec_widths_8_8 2
           (mkContainer 4 2 (replicate 4 (mkBucket 255))
              (replicate 2 (mkNode 255 255)))
           [OpInsert 4 0; OpInsert 8 1] _ 8 1 1).
  - vm_compute. split; [discriminate|reflexivity].
  - reflexivity.
  - reflexivity.
  - reflexivity.
  - reflexivity.
  - reflexivity.
  - vm_compute. discriminate.
Defined.

(** ** The two phases seen from the cursors *)

(** X6.  On a reached container of which slot [s] is not in use,
    [emplace h s] leaves the bucket array as it is, so every [find] and the
    global cursor yield what they yielded before, and [findEmplaced s]
    right afterwards yields what [find h] yields. *)
Theorem emplace_is_invisible (sbits hbits : Z) (debug : bool)
  (Hw : widths_ok sbits hbits)
  (entries : Z) (c0 : Container) (ops : list Op) (c : Container) (h s : Z)
  (He : 0 <= entries < 2 ^ 64)
  (Hc : GenericHashContainer sbits hbits debug entries = Ok c0)
  (Hp : permitted_all (m_nodeCount c0) ops no_entries = true)
  (Hr : run sbits hbits debug ops c0 = Ok c)
  (Hs : fresh (nodes c) h s (ghost_run ops no_entries) = true) :
  exists c' found,
    emplace sbits hbits debug h s c = Ok c' /\
    m_bucketList c' = m_bucketList c /\
    (forall h', find_all sbits hbits h' c' = find_all sbits hbits h' c) /\
    enumerate sbits c' = enumerate sbits c /\
    find_all sbits hbits h c = Ok found /\
    findEmplaced_all sbits debug s c' = Ok found /\
    s ∉ found.
Proof.
  destruct (reach sbits hbits debug Hw entries c0 ops c He Hc Hp Hr)
    as (HR & Hnc & Hbc).
  set (g := ghost_run ops no_entries) in *. unfold nodes in *.
  destruct (Rep_emplace sbits hbits debug c g h s HR Hs)
    as (c' & Hem & HR' & Hn' & Hb').
  pose proof Hs as Hfr. apply fresh_inv in Hfr as (Hh & Hsr & Hnl & Hne).
  assert (Hpos : 0 < m_bucketCount c) by lia.
  assert (Hpos' : 0 < m_bucketCount c') by lia.
  simpl in HR'.
  exists c', (same_hash sbits hbits (m_bucketCount c) h (linked g)).
  split; [exact Hem|]. split; [|split; [|split; [|split; [|split]]]].
  - pose proof HR as (Hsh & _).
    destruct (shape_slot sbits c s Hsh Hsr) as (Hsmax & _ & n & Hn).
    rewrite (emplace_effect sbits hbits debug c h s n) in Hem; try lia;
      try assumption.
    + now injection Hem as <-.
    + intros Hd. destruct HR as (_ & _ & _ & _ & _ & _ & Hdbg).
      specialize (Hdbg Hd s Hsr Hnl Hne). rewrite Hn in Hdbg.
      now injection Hdbg as ->.
  - intros h'.
    rewrite (Rep_find_all sbits hbits debug c' _ h' HR' Hpos'),
      (Rep_find_all sbits hbits debug c g h' HR Hpos). simpl. now rewrite Hb'.
  - rewrite (Rep_enumerate sbits hbits debug c' _ HR' Hpos'),
      (Rep_enumerate sbits hbits debug c g HR Hpos). simpl. now rewrite Hb'.
  - exact (Rep_find_all sbits hbits debug c g h HR Hpos).
  - rewrite (Rep_findEmplaced_all sbits hbits debug c' _ h s HR').
    + simpl. now rewrite Hb'.
    + simpl. apply elem_of_cons. now left.
  - intros Hin. apply elem_of_same_hash in Hin as (h1 & Hin & _).
    apply Hnl. eapply elem_of_slots, Hin.
Qed.

Lemma emplace_is_invisible_witness :
  let c := mkContainer 6 3
             [mkBucket 0; mkBucket 255; mkBucket 255;
              mkBucket 255; mkBucket 255; mkBucket 255]
             [mkNode 0 255; mkNode 255 255; mkNode 255 255] in
  exists c' found,
    emplace 8 8 true 12 1 c = Ok c' /\
    m_bucketList c' = m_bucketList c /\
    (forall h', find_all 8 8 h' c' = find_all 8 8 h' c) /\
    enumerate 8 c' = enumerate 8 c /\
    find_all 8 8 12 c = Ok found /\
    findEmplaced_all 8 true 1 c' = Ok found /\
    1 ∉ found.
Proof.
  apply (emplace_is_invisible 8 8 true Spec_widths_8_8 3
           (mkContainer 6 3 (replicate 6 (mkBucket 255))
              (replicate 3 (mkNode 255 255)))
           [OpInsert 6 0]).
  - vm_compute. split; [discriminate|reflexivity].
  - reflexivity.
  - reflexivity.
  - reflexivity.
  - reflexivity.
Defined.

(** X7.  On a reached container with slot [s] emplaced under hash [h],
    [insertEmplaced s] links [s] at the head of the bucket of [h]:
    afterwards [find h] returns the cursor at [s], and walking it on yields
    exactly what [findEmplaced s] yielded before the call; the global cursor
    now visits [s]. *)
Theorem insertEmplaced_completes (sbits hbits : Z) (debug : bool)
  (Hw : widths_ok sbits hbits)
  (entries : Z) (c0 : Container) (ops : list Op) (c : Container) (h s : Z)
  (He : 0 <= entries < 2 ^ 64)
  (Hc : GenericHashContainer sbits hbits debug entries = Ok c0)
  (Hp : permitted_all (m_nodeCount c0) ops no_entries = true)
  (Hr : run sbits hbits debug ops c0 = Ok c)
  (Hs : hash_at s (emplaced (ghost_run ops no_entries)) = Some h) :
  exists c' found visited visited',
    findEmplaced_all sbits debug s c = Ok found /\
    enumerate sbits c = Ok visited /\ (s ∉ visited) /\
    insertEmplaced sbits debug s c = Ok c' /\
    find sbits hbits h c' = Ok (mkSearchIterator s) /\
    find_all sbits hbits h c' = Ok (s :: found) /\
    enumerate sbits c' = Ok visited' /\ s ∈ visited'.
Proof.
  destruct (reach sbits hbits debug Hw entries c0 ops c He Hc Hp Hr)
    as (HR & Hnc & Hbc).
  set (g := ghost_run ops no_entries) in *.
  pose proof (hash_at_Some _ _ _ Hs) as Hin.
  assert (Hslot : has_slot s (emplaced g) = true).
  { apply has_slot_true. eapply elem_of_slots, Hin. }
  destruct (Rep_insertEmplaced sbits hbits debug c g s HR Hslot)
    as (c' & Hie & HR' & Hn' & Hb').
  simpl in HR'. rewrite Hs in HR'. simpl in HR'.
  pose proof HR as (Hsh & Hnd & Hrange & _).
  apply NoDup_app in Hnd as (_ & Hdis & _).
  assert (Hsr : 0 <= s < m_nodeCount c).
  { apply (Hrange h s). rewrite elem_of_app. now right. }
  assert (Hpos : 0 < m_bucketCount c) by lia.
  assert (Hpos' : 0 < m_bucketCount c') by lia.
  assert (Hcons : same_hash sbits hbits (m_bucketCount c') h ((h, s) :: linked g)
                  = s :: same_hash sbits hbits (m_bucketCount c) h (linked g)).
  { simpl. rewrite Hb', !Z.eqb_refl. reflexivity. }
  do 4 eexists.
  split; [exact (Rep_findEmplaced_all sbits hbits debug c g h s HR Hin)|].
  split; [exact (Rep_enumerate sbits hbits debug c g HR Hpos)|].
  split.
  { intros Hbad. apply elem_of_chains_from in Hbad as (b' & _ & Hbad).
    apply chain_of_slots in Hbad. apply (Hdis s Hbad).
    eapply elem_of_slots, Hin. }
  split; [exact Hie|]. split; [|split; [|split]].
  - destruct (Rep_find_in sbits hbits debug c' _ h HR' Hpos') as [Hf _].
    unfold find. rewrite (umod_ok _ (m_bucketCount c')) by lia.
    rewrite bind_Ok, Hf. simpl linked. now rewrite Hcons.
  - rewrite (Rep_find_all sbits hbits debug c' _ h HR' Hpos'). simpl linked.
    now rewrite Hcons.
  - exact (Rep_enumerate sbits hbits debug c' _ HR' Hpos').
  - simpl. apply elem_of_chains_from.
    exists (low sbits h mod m_bucketCount c'). split.
    + pose proof (Z.mod_pos_bound (low sbits h) (m_bucketCount c') Hpos'). lia.
    + simpl. rewrite Z.eqb_refl. apply elem_of_cons. now left.
Qed.

Lemma insertEmplaced_completes_witness :
  let c := mkContainer 6 3
             [mkBucket 0; mkBucket 255; mkBucket 255;
              mkBucket 255; mkBucket 255; mkBucket 255]
             [mkNode 0 255; mkNode 0 0; mkNode 255 255] in
  exists c' found visited visited',
    findEmplaced_all 8 true 1 c = Ok found /\
    enumerate 8 c = Ok visited /\ (1 ∉ visited) /\
    insertEmplaced 8 true 1 c = Ok c' /\
    find 8 8 12 c' = Ok (mkSearchIterator 1) /\
    find_all 8 8 12 c' = Ok (1 :: found) /\
    enumerate 8 c' = Ok visited' /\ 1 ∈ visited'.
Proof.
  apply (insertEmplaced_completes 8 8 true Spec_widths_8_8 3
           (mkContainer 6 3 (replicate 6 (mkBucket 255))
              (replicate 3 (mkNode 255 255)))
           [OpEmplace 12 1; OpInsert 6 0]).
  - vm_compute. split; [discriminate|reflexivity].
  - reflexivity.
  - reflexivity.
  - reflexivity.
  - reflexivity.
Defined.

(** ** What [remove] leaves for the cursors *)

Lemma same_hash_drop_slot sbits hbits bc h s0 (l : list (Z * Z)) :
  same_hash sbits hbits bc h (drop_slot s0 l)
  = List.filter (fun x => negb (x =? s0)) (same_hash sbits hbits bc h l).
Proof.
  induction l as [|[h1 s1] l IH]; simpl; [easy|].
  destruct (Z.eqb_spec s1 s0) as [->|Hne]; simpl.
  - destruct ((low sbits h1 mod bc =? low sbits h mod bc)
              && (high hbits h1 =? high hbits h)); simpl; [|exact IH].
    now rewrite Z.eqb_refl.
  - destruct ((low sbits h1 mod bc =? low sbits h mod bc)
              && (high hbits h1 =? high hbits h)); simpl; [|exact IH].
    destruct (Z.eqb_spec s1 s0); [congruence|]. simpl. now rewrite IH.
Qed.

Lemma filter_app_list {A : Type} (f : A -> bool) (l1 l2 : list A) :
  List.filter f (l1 ++ l2) = List.filter f l1 ++ List.filter f l2.
Proof.
  induction l1 as [|a l1 IH]; simpl; [easy|].
  destruct (f a); simpl; now rewrite IH.
Qed.

Lemma chains_from_drop_slot sbits bc s0 (l : list (Z * Z)) : forall k b,
  chains_from sbits bc b k (drop_slot s0 l)
  = List.filter (fun x => negb (x =? s0)) (chains_from sbits bc b k l).
Proof.
  induction k as [|k IH]; intros b; simpl; [easy|].
  now rewrite filter_app_list, chain_of_drop_slot, IH.
Qed.

(** X8.  On a reached container holding the pair [(h, s)], [remove h s]
    takes slot [s], and nothing else, out of what every cursor yields: the
    walk of [find h'] for every hash [h'], the global walk from [begin()]
    and the walk of every bucket yield afterwards what they yielded before
    without [s], the other slots in the order they had. *)
Theorem remove_keeps_order (sbits hbits : Z) (debug : bool)
  (Hw : widths_ok sbits hbits)
  (entries : Z) (c0 : Container) (ops : list Op) (c : Container) (h s : Z)
  (He : 0 <= entries < 2 ^ 64)
  (Hc : GenericHashContainer sbits hbits debug entries = Ok c0)
  (Hp : permitted_all (m_nodeCount c0) ops no_entries = true)
  (Hr : run sbits hbits debug ops c0 = Ok c)
  (Hs : has_entry h s (linked (ghost_run ops no_entries)) = true) :
  let without := List.filter (fun x => negb (x =? s)) in
  exists c', remove sbits hbits debug h s c = Ok c' /\
    (forall h', exists l,
       find_all sbits hbits h' c = Ok l /\
       find_all sbits hbits h' c' = Ok (without l)) /\
    (exists l, enumerate sbits c = Ok l /\ s ∈ l /\
       enumerate sbits c' = Ok (without l)) /\
    (forall b, 0 <= b < buckets c -> exists l,
       enumerate_bucket sbits b c = Ok l /\
       enumerate_bucket sbits b c' = Ok (without l)).
Proof.
  intros without.
  destruct (reach sbits hbits debug Hw entries c0 ops c He Hc Hp Hr)
    as (HR & Hnc & Hbc).
  set (g := ghost_run ops no_entries) in *.
  destruct (Rep_remove sbits hbits debug c g h s HR Hs)
    as (c' & Hrm & HR' & Hn' & Hb').
  simpl in HR'.
  pose proof HR as (Hsh & _ & Hrange & _).
  apply has_entry_true in Hs.
  assert (Hsr : 0 <= s < m_nodeCount c).
  { apply (Hrange h s). rewrite elem_of_app. now left. }
  unfold buckets.
  assert (Hpos : 0 < m_bucketCount c) by lia.
  assert (Hpos' : 0 < m_bucketCount c') by lia.
  exists c'. split; [exact Hrm|]. split; [|split].
  - intros h'. eexists. split.
    + exact (Rep_find_all sbits hbits debug c g h' HR Hpos).
    + rewrite (Rep_find_all sbits hbits debug c' _ h' HR' Hpos'). simpl.
      now rewrite Hb', same_hash_drop_slot.
  - eexists. split; [|split].
    + exact (Rep_enumerate sbits hbits debug c g HR Hpos).
    + apply elem_of_chains_from.
      exists (low sbits h mod m_bucketCount c). split.
      * pose proof (Z.mod_pos_bound (low sbits h) (m_bucketCount c) Hpos). lia.
      * apply elem_of_chain_of. now exists h.
    + rewrite (Rep_enumerate sbits hbits debug c' _ HR' Hpos'). simpl.
      now rewrite Hb', chains_from_drop_slot.
  - intros b Hb. eexists. split.
    + exact (Rep_enumerate_bucket sbits hbits debug c g b HR Hb).
    + rewrite (Rep_enumerate_bucket sbits hbits debug c' _ b HR') by lia.
      simpl. now rewrite Hb', chain_of_drop_slot.
Qed.

Lemma remove_keeps_order_witness :
  let c := mkContainer 6 3
             [mkBucket 2; mkBucket 255; mkBucket 255;
              mkBucket 255; mkBucket 255; mkBucket 255]
             [mkNode 0 255; mkNode 0 0; mkNode 0 1] in
  let without := List.filter (fun x => negb (x =? 1)) in
  exists c', remove 8 8 false 6 1 c = Ok c' /\
    (forall h', exists l,
       find_all 8 8 h' c = Ok l /\ find_all 8 8 h' c' = Ok (without l)) /\
    (exists l, enumerate 8 c = Ok l /\ 1 ∈ l /\
       enumerate 8 c' = Ok (without l)) /\
    (forall b, 0 <= b < buckets c -> exists l,
       enumerate_bucket 8 b c = Ok l /\
       enumerate_bucket 8 b c' = Ok (without l)).
Proof.
  apply (remove_keeps_order 8 8 false Spec_widths_8_8 3
           (mkContainer 6 3 (replicate 6 (mkBucket 255))
              (replicate 3 (mkNode 0 0)))
           [OpInsert 0 0; OpInsert 6 1; OpInsert 12 2]).
  - vm_compute. split; [discriminate|reflexivity].
  - reflexivity.
  - reflexivity.
  - reflexivity.
  - reflexivity.
Defined.

(** ** The global cursor and the bucket cursors *)

(** X9.  On a reached container of capacity at least one, the global walk
    from [begin()] is the walks of the buckets 0, 1, ... one after another:
    with [per_bucket] listing, by bucket index, what the cursor of
    [localBegin] yields up to invalidity, the global cursor yields their
    concatenation; and the walk of bucket [b] yields only slots of linked
    entries whose hash selects [b]. *)
Theorem global_walk_is_buckets_in_order (sbits hbits : Z) (debug : bool)
  (Hw : widths_ok sbits hbits)
  (entries : Z) (c0 : Container) (ops : list Op) (c : Container)
  (He : 1 <= entries < 2 ^ 64)
  (Hc : GenericHashContainer sbits hbits debug entries = Ok c0)
  (Hp : permitted_all (m_nodeCount c0) ops no_entries = true)
  (Hr : run sbits hbits debug ops c0 = Ok c) :
  exists per_bucket : list (list Z),
    length per_bucket = Z.to_nat (buckets c) /\
    (forall (b : nat) l, per_bucket !! b = Some l ->
       enumerate_bucket sbits (Z.of_nat b) c = Ok l /\
       forall x, x ∈ l ->
         exists h1, (h1, x) ∈ linked (ghost_run ops no_entries) /\
           low sbits h1 mod buckets c = Z.of_nat b) /\
    enumerate sbits c = Ok (concat per_bucket).
Proof.
  destruct (reach sbits hbits debug Hw entries c0 ops c ltac:(lia) Hc Hp Hr)
    as (HR & Hnc & Hbc).
  set (g := ghost_run ops no_entries) in *. unfold buckets.
  assert (Hpos : 0 < m_bucketCount c) by lia.
  exists ((fun i => chain_of sbits (m_bucketCount c) (Z.of_nat i) (linked g))
          <$> seq 0 (Z.to_nat (m_bucketCount c))).
  split; [|split].
  - now rewrite length_fmap, length_seq.
  - intros b l Hl. rewrite list_lookup_fmap in Hl.
    destruct (seq 0 (Z.to_nat (m_bucketCount c)) !! b) as [i|] eqn:Hi;
      [|discriminate].
    apply lookup_seq in Hi as [-> Hlt]. simpl in Hl. injection Hl as <-.
    split.
    + apply (Rep_enumerate_bucket sbits hbits debug c g (Z.of_nat b) HR). lia.
    + intros x Hx. now apply elem_of_chain_of in Hx.
  - rewrite (concat_chain_list sbits (m_bucketCount c) (linked g)
               (Z.to_nat (m_bucketCount c)) 0).
    exact (Rep_enumerate sbits hbits debug c g HR Hpos).
Qed.

Lemma global_walk_is_buckets_in_order_witness :
  let c := mkContainer 4 2
             [mkBucket 255; mkBucket 0; mkBucket 255; mkBucket 1]
             [mkNode 0 255; mkNode 0 255] in
  exists per_bucket : list (list Z),
    length per_bucket = Z.to_nat (buckets c) /\
    (forall (b : nat) l, per_bucket !! b = Some l ->
       enumerate_bucket 8 (Z.of_nat b) c = Ok l /\
       forall x, x ∈ l ->
         exists h1, (h1, x) ∈ linked (ghost_run [OpInsert 5 0; OpInsert 7 1]
                                        no_entries) /\
           low 8 h1 mod buckets c = Z.of_nat b) /\
    enumerate 8 c = Ok (concat per_bucket).
Proof.
  apply (global_walk_is_buckets_in_order 8 8 false Spec_widths_8_8 2
           (mkContainer 4 2 (replicate 4 (mkBucket 255))
              (replicate 2 (mkNode 0 0)))
           [OpInsert 5 0; OpInsert 7 1]).
  - vm_compute. split; [discriminate|reflexivity].
  - reflexivity.
  - reflexivity.
  - reflexivity.
Defined.

(** ** A container whose entries have all been removed *)

Lemma all_equal_replicate {A : Type} (l : list A) (n : nat) (a : A) :
  length l = n -> (forall i x, l !! i = Some x -> x = a) -> replicate n a = l.
Proof.
  intros Hl Hall. apply replicate_as_Forall. split; [exact Hl|].
  apply Forall_lookup. intros i x Hx. symmetry. exact (Hall i x Hx).
Qed.

Lemma Rep_no_entries_arrays sbits hbits debug c g :
  Rep sbits hbits debug c g -> linked g = [] ->
  m_bucketList c = replicate (Z.to_nat (m_bucketCount c)) (ff_bucket sbits) /\
  (debug = true -> emplaced g = [] ->
   m_nodeList c
   = replicate (Z.to_nat (m_nodeCount c)) (ff_node sbits hbits)).
Proof.
  intros (Hsh & _ & _ & Hbk & _ & _ & Hdbg) Hlk.
  destruct Hsh as (H0 & Hbc & Hlt & Hlb & Hln). split.
  - symmetry. apply all_equal_replicate; [exact Hlb|].
    intros i [f] Hx.
    assert (Hi : (i < length (m_bucketList c))%nat)
      by (eapply lookup_lt_Some; exact Hx).
    destruct (Hbk (Z.of_nat i) ltac:(lia)) as (bk & Hbk1 & Hseg).
    rewrite Nat2Z.id, Hx in Hbk1. injection Hbk1 as <-.
    rewrite Hlk in Hseg. simpl in Hseg. unfold ff_bucket. now f_equal.
  - intros Hd Hem. symmetry. apply all_equal_replicate; [exact Hln|].
    intros i x Hx.
    assert (Hi : (i < length (m_nodeList c))%nat)
      by (eapply lookup_lt_Some; exact Hx).
    specialize (Hdbg Hd (Z.of_nat i) ltac:(lia)).
    rewrite Hlk, Hem, Nat2Z.id, Hx in Hdbg.
    assert (Hnil : Z.of_nat i ∉ ([] : list (Z * Z)).*2) by (simpl; apply not_elem_of_nil).
    specialize (Hdbg Hnil Hnil). now injection Hdbg.
Qed.

(** X10.  When the calls made on a container of capacity at least one leave
    no linked entry (each inserted pair was removed again, or [clear] ran),
    every bucket head is the sentinel again: the bucket array is the one the
    constructor made, [begin()] returns [end()], the global walk yields
    nothing and [find] returns the invalid cursor for every hash.  In a
    debug build with no slot left emplaced, the whole container equals the
    freshly constructed one. *)
Theorem no_entries_left (sbits hbits : Z) (debug : bool)
  (Hw : widths_ok sbits hbits)
  (entries : Z) (c0 : Container) (ops : list Op) (c : Container)
  (He : 1 <= entries < 2 ^ 64)
  (Hc : GenericHashContainer sbits hbits debug entries = Ok c0)
  (Hp : permitted_all (m_nodeCount c0) ops no_entries = true)
  (Hr : run sbits hbits debug ops c0 = Ok c)
  (Hnone : linked (ghost_run ops no_entries) = []) :
  m_bucketList c = m_bucketList c0 /\
  Forall (fun b => first b = sizeLimits_max sbits) (m_bucketList c) /\
  begin sbits c = Ok (end_ sbits c) /\
  enumerate sbits c = Ok [] /\
  (forall h, find sbits hbits h c
             = Ok (mkSearchIterator (sizeLimits_max sbits))) /\
  (debug = true -> emplaced (ghost_run ops no_entries) = [] -> c = c0).
Proof.
  destruct (reach sbits hbits debug Hw entries c0 ops c ltac:(lia) Hc Hp Hr)
    as (HR & Hnc & Hbc).
  destruct (construct_inv sbits hbits debug Hw entries c0 ltac:(lia) Hc)
    as (Hsmall & HR0 & Hnc0 & Hbc0 & Hbl0).
  set (g := ghost_run ops no_entries) in *.
  destruct (Rep_no_entries_arrays sbits hbits debug c g HR Hnone)
    as [Hbl Hnl].
  destruct (Rep_no_entries_arrays sbits hbits debug c0 no_entries HR0 eq_refl)
    as [_ Hnl0].
  assert (Hpos : 0 < m_bucketCount c) by lia.
  pose proof HR as (Hsh & _).
  assert (Hbegin : begin sbits c = Ok (end_ sbits c)).
  { unfold begin.
    apply (begin_loop_empty sbits c Hsh Hbl (Z.to_nat (m_bucketCount c - 1)));
      [lia|lia|].
    destruct Hsh as (_ & _ & _ & Hlb & _). lia. }
  split; [|split; [|split; [|split; [|split]]]].
  - rewrite Hbl, Hbl0, Hbc. reflexivity.
  - rewrite Hbl. apply Forall_replicate. reflexivity.
  - exact Hbegin.
  - rewrite (Rep_enumerate sbits hbits debug c g HR Hpos), Hnone.
    f_equal. generalize (Z.to_nat (m_bucketCount c)) 0.
    induction n as [|n IH]; intros b; simpl; [easy|]. apply IH.
  - intros h.
    destruct (Rep_find_in sbits hbits debug c g h HR Hpos) as [Hf _].
    unfold find. rewrite (umod_ok _ (m_bucketCount c)) by lia.
    rewrite bind_Ok, Hf, Hnone. reflexivity.
  - intros Hd Hem. specialize (Hnl Hd Hem). specialize (Hnl0 Hd eq_refl).
    destruct c as [bc nc bl nl], c0 as [bc0 nc0 bl0 nl0]. simpl in *.
    subst. reflexivity.
Qed.

Lemma no_entries_left_witness :
  let c0 := mkContainer 4 2 (replicate 4 (mkBucket 255))
              (replicate 2 (mkNode 255 255)) in
  let ops := [OpInsert 4 0; OpInsert 8 1; OpRemove 4 0; OpRemove 8 1] in
  m_bucketList c0 = m_bucketList c0 /\
  Forall (fun b => first b = sizeLimits_max 8) (m_bucketList c0) /\
  begin 8 c0 = Ok (end_ 8 c0) /\
  enumerate 8 c0 = Ok [] /\
  (forall h, find 8 8 h c0 = Ok (mkSearchIterator (sizeLimits_max 8))) /\
  (true = true -> emplaced (ghost_run ops no_entries) = [] -> c0 = c0).
Proof.
  apply (no_entries_left 8 8 true Spec_widths_8_8 2
           (mkContainer 4 2 (replicate 4 (mkBucket 255))
              (replicate 2 (mkNode 255 255)))
           [OpInsert 4 0; OpInsert 8 1; OpRemove 4 0; OpRemove 8 1]).
  - vm_compute. split; [discriminate|reflexivity].
  - reflexivity.
  - reflexivity.
  - reflexivity.
  - reflexivity.
Defined.

(** ** The stored fragment of a hash *)

Lemma high_bounds hbits h :
  0 < hbits -> 0 <= high hbits h <= hashLimits_max hbits.
Proof.
  intros Hh. unfold high, to_hashType, hashLimits_max.
  assert (0 < 2 ^ hbits) by (apply Z.pow_pos_nonneg; lia).
  pose proof (Z.mod_pos_bound (Z.shiftr h ((8 - hbits / 8) * 8)) (2 ^ hbits)).
  lia.
Qed.

Lemma high_top_bits hbits h :
  8 <= hbits < 64 -> hbits mod 8 = 0 -> 0 <= h < 2 ^ 64 ->
  high hbits h = h / 2 ^ (64 - hbits).
Proof.
  intros Hh Hm Hr. unfold high, to_hashType.
  assert (Hb : (8 - hbits / 8) * 8 = 64 - hbits).
  { pose proof (Z.div_mod hbits 8 ltac:(lia)). lia. }
  rewrite Hb, Z.shiftr_div_pow2 by lia.
  assert (Hp : 0 < 2 ^ (64 - hbits)) by (apply Z.pow_pos_nonneg; lia).
  apply Z.mod_small. split; [apply Z.div_pos; lia|].
  apply Z.div_lt_upper_bound; [exact Hp|].
  rewrite <- Z.pow_add_r by lia.
  replace (64 - hbits + hbits) with 64 by lia. lia.
Qed.

(** X11.  On a reached container, for a slot [s] that holds hash [h],
    linked or emplaced, the accessor [hash(s)] returns the stored fragment
    [high(h)], a value of [hashType]; when [hashType] is made of whole bytes
    this is [h] without its low [64 - hbits] bits.  In a debug build the
    accessor returns the all-ones value for every slot that is not in use. *)
Theorem hash_returns_fragment (sbits hbits : Z) (debug : bool)
  (Hw : widths_ok sbits hbits)
  (entries : Z) (c0 : Container) (ops : list Op) (c : Container) (h s : Z)
  (He : 0 <= entries < 2 ^ 64)
  (Hc : GenericHashContainer sbits hbits debug entries = Ok c0)
  (Hp : permitted_all (m_nodeCount c0) ops no_entries = true)
  (Hr : run sbits hbits debug ops c0 = Ok c)
  (Hh : 0 <= h < 2 ^ 64)
  (Hs : has_entry h s (linked (ghost_run ops no_entries)
                       ++ emplaced (ghost_run ops no_entries)) = true) :
  hash_of s c = Ok (high hbits h) /\
  0 <= high hbits h <= hashLimits_max hbits /\
  (hbits mod 8 = 0 -> high hbits h = h / 2 ^ (64 - hbits)) /\
  (debug = true -> forall s',
     0 <= s' < nodes c ->
     has_slot s' (linked (ghost_run ops no_entries)) = false ->
     has_slot s' (emplaced (ghost_run ops no_entries)) = false ->
     hash_of s' c = Ok (hashLimits_max hbits)).
Proof.
  destruct (reach sbits hbits debug Hw entries c0 ops c He Hc Hp Hr)
    as (HR & Hnc & Hbc).
  set (g := ghost_run ops no_entries) in *.
  pose proof HR as (Hsh & _ & Hrange & _ & Hlk & Hemp & Hdbg).
  apply has_entry_true in Hs.
  pose proof (Hrange h s Hs) as Hsr.
  destruct Hw as [Hws Hwh].
  split; [|split; [|split]].
  - unfold hash_of. apply elem_of_app in Hs as [Hin|Hin].
    + destruct (Hlk h s Hin) as (n & Hn & Hhash).
      rewrite (at_index_ok _ s n) by (lia || exact Hn).
      rewrite bind_Ok. now rewrite Hhash.
    + rewrite (at_index_ok _ s _ ltac:(lia) (Hemp h s Hin)). reflexivity.
  - apply high_bounds. lia.
  - intros Hm. now apply high_top_bits.
  - intros Hd s' Hs' Hnl Hne. unfold nodes in Hs'.
    apply has_slot_false in Hnl, Hne.
    unfold hash_of.
    rewrite (at_index_ok _ s' _ ltac:(lia) (Hdbg Hd s' Hs' Hnl Hne)).
    reflexivity.
Qed.

Lemma hash_returns_fragment_witness :
  let c := mkContainer 4 2
             [mkBucket 255; mkBucket 255; mkBucket 255; mkBucket 0]
             [mkNode 171 255; mkNode 255 255] in
  let ops := [OpInsert (171 * 2 ^ 56 + 7) 0] in
  hash_of 0 c = Ok (high 8 (171 * 2 ^ 56 + 7)) /\
  0 <= high 8 (171 * 2 ^ 56 + 7) <= hashLimits_max 8 /\
  (8 mod 8 = 0 -> high 8 (171 * 2 ^ 56 + 7) = (171 * 2 ^ 56 + 7) / 2 ^ (64 - 8)) /\
  (true = true -> forall s',
     0 <= s' < nodes c ->
     has_slot s' (linked (ghost_run ops no_entries)) = false ->
     has_slot s' (emplaced (ghost_run ops no_entries)) = false ->
     hash_of s' c = Ok (hashLimits_max 8)).
Proof.
  apply (hash_returns_fragment 8 8 true Spec_widths_8_8 2
           (mkContainer 4 2 (replicate 4 (mkBucket 255))
              (replicate 2 (mkNode 255 255)))
           [OpInsert (171 * 2 ^ 56 + 7) 0]).
  - vm_compute. split; [discriminate|reflexivity].
  - reflexivity.
  - reflexivity.
  - reflexivity.
  - vm_compute. split; [discriminate|reflexivity].
  - reflexivity.
Defined.

(** ** Capacity *)

Lemma NoDup_bounded_full (l : list Z) (n : nat) :
  NoDup l -> (forall x, x ∈ l -> 0 <= x < Z.of_nat n) -> length l = n ->
  forall x, 0 <= x < Z.of_nat n -> x ∈ l.
Proof.
  intros Hnd Hb Hlen x Hx.
  assert (Hnd' : NoDup (Z.to_nat <$> l)).
  { apply NoDup_fmap_2_strong; [|exact Hnd].
    intros a b Ha Hb' Heq. apply Hb in Ha, Hb'. lia. }
  assert (Hsub : Z.to_nat <$> l ⊆ seq 0 n).
  { intros k Hk. apply list_elem_of_fmap in Hk as [y [-> Hy]].
    apply Hb in Hy. apply elem_of_seq. lia. }
  pose proof (NoDup_submseteq _ _ Hnd' Hsub) as Hm.
  apply submseteq_length_Permutation in Hm;
    [|rewrite length_fmap, length_seq; lia].
  assert (Hin : Z.to_nat x ∈ Z.to_nat <$> l).
  { rewrite Hm. apply elem_of_seq. lia. }
  apply list_elem_of_fmap in Hin as [y [Heq Hy]].
  pose proof (Hb y Hy). replace x with y by lia. exact Hy.
Qed.

(** X12.  The capacity given to the constructor never changes and bounds
    the number of entries: on a reached container [nodes()] is the entry
    count passed to the constructor and [buckets()] twice that, the arrays
    keep these lengths, the slots in use (linked or emplaced) are at most
    [nodes()], and once they are [nodes()] no slot is left for [insert] or
    [emplace]. *)
Theorem capacity_is_fixed (sbits hbits : Z) (debug : bool)
  (Hw : widths_ok sbits hbits)
  (entries : Z) (c0 : Container) (ops : list Op) (c : Container)
  (He : 0 <= entries < 2 ^ 64)
  (Hc : GenericHashContainer sbits hbits debug entries = Ok c0)
  (Hp : permitted_all (m_nodeCount c0) ops no_entries = true)
  (Hr : run sbits hbits debug ops c0 = Ok c) :
  let g := ghost_run ops no_entries in
  let used := (length (linked g) + length (emplaced g))%nat in
  nodes c = entries /\ buckets c = 2 * entries /\
  length (m_nodeList c) = Z.to_nat entries /\
  length (m_bucketList c) = Z.to_nat (2 * entries) /\
  Z.of_nat used <= nodes c /\
  (Z.of_nat used = nodes c -> forall h s, fresh (nodes c) h s g = false).
Proof.
  intros g used.
  destruct (reach sbits hbits debug Hw entries c0 ops c He Hc Hp Hr)
    as (HR & Hnc & Hbc).
  fold g in HR. unfold nodes, buckets.
  pose proof HR as (Hsh & Hnd & Hrange & _).
  destruct Hsh as (H0 & _ & _ & Hlb & Hln).
  assert (Hlen : length ((linked g).*2 ++ (emplaced g).*2) = used).
  { unfold used. now rewrite length_app, !length_fmap. }
  assert (Hb : forall x, x ∈ (linked g).*2 ++ (emplaced g).*2 ->
                 0 <= x < Z.of_nat (Z.to_nat (m_nodeCount c))).
  { intros x Hx. rewrite Z2Nat.id by lia.
    rewrite <- fmap_app in Hx. apply slots_elem_of in Hx as [h Hx].
    exact (Hrange h x Hx). }
  split; [exact Hnc|]. split; [exact Hbc|].
  split; [now rewrite Hln, Hnc|]. split; [now rewrite Hlb, Hbc|]. split.
  - pose proof (NoDup_bounded_length _ _ Hnd Hb) as Hle. lia.
  - intros Hfull h s. destruct (fresh (m_nodeCount c) h s g) eqn:Hf; [|easy].
    exfalso. apply fresh_inv in Hf as (_ & Hsr & Hnl & Hne).
    assert (Hin : s ∈ (linked g).*2 ++ (emplaced g).*2).
    { apply (NoDup_bounded_full _ (Z.to_nat (m_nodeCount c)) Hnd Hb); lia. }
    apply elem_of_app in Hin as [Hin|Hin]; [now apply Hnl|now apply Hne].
Qed.

Lemma capacity_is_fixed_witness :
  let c := mkContainer 4 2
             [mkBucket 0; mkBucket 255; mkBucket 255; mkBucket 255]
             [mkNode 0 255; mkNode 0 1] in
  let g := ghost_run [OpInsert 4 0; OpEmplace 1 1] no_entries in
  let used := (length (linked g) + length (emplaced g))%nat in
  nodes c = 2 /\ buckets c = 2 * 2 /\
  length (m_nodeList c) = Z.to_nat 2 /\
  length (m_bucketList c) = Z.to_nat (2 * 2) /\
  Z.of_nat used <= nodes c /\
  (Z.of_nat used = nodes c -> forall h s, fresh (nodes c) h s g = false).
Proof.
  apply (capacity_is_fixed 8 8 true Spec_widths_8_8 2
           (mkContainer 4 2 (replicate 4 (mkBucket 255))
              (replicate 2 (mkNode 255 255)))
           [OpInsert 4 0; OpEmplace 1 1]).
  - vm_compute. split; [discriminate|reflexivity].
  - reflexivity.
  - reflexivity.
  - reflexivity.
Defined.

(** ** What the assertions of a debug build catch *)

(** X13.  In a debug build, on a reached container with slot [s] emplaced
    and not yet linked, [insert h s] and [emplace h s] fail the assertion
    on the [next] field, for every hash [h]: an emplaced node holds its
    bucket index there, never the sentinel. *)
Theorem debug_reuse_of_emplaced_slot_asserts (sbits hbits : Z)
  (Hw : widths_ok sbits hbits)
  (entries : Z) (c0 : Container) (ops : list Op) (c : Container) (h0 s : Z)
  (He : 0 <= entries < 2 ^ 64)
  (Hc : GenericHashContainer sbits hbits true entries = Ok c0)
  (Hp : permitted_all (m_nodeCount c0) ops no_entries = true)
  (Hr : run sbits hbits true ops c0 = Ok c)
  (Hs : hash_at s (emplaced (ghost_run ops no_entries)) = Some h0) :
  forall h,
    insert sbits hbits true h s c = AssertFailed /\
    emplace sbits hbits true h s c = AssertFailed.
Proof.
  intros h.
  destruct (reach sbits hbits true Hw entries c0 ops c He Hc Hp Hr)
    as (HR & Hnc & Hbc).
  set (g := ghost_run ops no_entries) in *.
  pose proof HR as (Hsh & _ & Hrange & _ & _ & Hemp & _).
  apply hash_at_Some in Hs.
  assert (Hsr : 0 <= s < m_nodeCount c).
  { apply (Hrange h0 s). rewrite elem_of_app. now right. }
  destruct (shape_slot sbits c s Hsh Hsr) as (Hsmax & Hpos & _).
  destruct (shape_bucket sbits c h0 Hsh Hpos) as [_ Hb].
  pose proof (Hemp h0 s Hs) as Hn.
  split.
  - unfold insert. rewrite (at_index_ok _ s _ ltac:(lia) Hn), bind_Ok.
    cbn [next hash]. unfold assert.
    destruct (Z.eqb_spec (low sbits h0 mod m_bucketCount c)
                (sizeLimits_max sbits)); [contradiction|reflexivity].
  - unfold emplace, assert.
    destruct (Z.eqb_spec s (sizeLimits_max sbits)); [contradiction|].
    cbn [negb]. rewrite bind_Ok, (at_index_ok _ s _ ltac:(lia) Hn), bind_Ok.
    cbn [next hash].
    destruct (Z.eqb_spec (low sbits h0 mod m_bucketCount c)
                (sizeLimits_max sbits)); [contradiction|reflexivity].
Qed.

Lemma debug_reuse_of_emplaced_slot_asserts_witness :
  let c := mkContainer 4 2 (replicate 4 (mkBucket 255))
             [mkNode 255 255; mkNode 0 1] in
  insert 8 8 true 7 1 c = AssertFailed /\
  emplace 8 8 true 7 1 c = AssertFailed.
Proof.
  refine (debug_reuse_of_emplaced_slot_asserts 8 8 Spec_widths_8_8 2
            (mkContainer 4 2 (replicate 4 (mkBucket 255))
               (replicate 2 (mkNode 255 255)))
            [OpEmplace 5 1] _ 5 1 _ _ _ _ _ 7).
  - vm_compute. split; [discriminate|reflexivity].
  - reflexivity.
  - reflexivity.
  - reflexivity.
  - reflexivity.
Defined.

(** X14.  In a debug build, on a reached container, [insertEmplaced s] and
    [findEmplaced s] fail their assertion for every slot [s] in range that
    is not in use: its node was never written, or was overwritten by
    [remove] or [clear], and holds the sentinel in [next]. *)
Theorem debug_emplaced_calls_on_free_slot_assert (sbits hbits : Z)
  (Hw : widths_ok sbits hbits)
  (entries : Z) (c0 : Container) (ops : list Op) (c : Container) (s : Z)
  (He : 0 <= entries < 2 ^ 64)
  (Hc : GenericHashContainer sbits hbits true entries = Ok c0)
  (Hp : permitted_all (m_nodeCount c0) ops no_entries = true)
  (Hr : run sbits hbits true ops c0 = Ok c)
  (Hs : 0 <= s < nodes c)
  (Hnl : has_slot s (linked (ghost_run ops no_entries)) = false)
  (Hne : has_slot s (emplaced (ghost_run ops no_entries)) = false) :
  insertEmplaced sbits true s c = AssertFailed /\
  findEmplaced sbits true s c = AssertFailed.
Proof.
  destruct (reach sbits hbits true Hw entries c0 ops c He Hc Hp Hr)
    as (HR & Hnc & Hbc).
  set (g := ghost_run ops no_entries) in *. unfold nodes in Hs.
  pose proof HR as (Hsh & _ & _ & _ & _ & _ & Hdbg).
  apply has_slot_false in Hnl, Hne.
  destruct (shape_slot sbits c s Hsh Hs) as (Hsmax & _ & _).
  pose proof (Hdbg eq_refl s Hs Hnl Hne) as Hn.
  split.
  - unfold insertEmplaced, assert.
    destruct (Z.eqb_spec s (sizeLimits_max sbits)); [contradiction|].
    cbn [negb]. rewrite bind_Ok, (at_index_ok _ s _ ltac:(lia) Hn), bind_Ok.
    cbn [next ff_node]. now rewrite Z.eqb_refl.
  - unfold findEmplaced, assert.
    destruct (Z.eqb_spec s (sizeLimits_max sbits)); [contradiction|].
    cbn [negb]. rewrite bind_Ok, (at_index_ok _ s _ ltac:(lia) Hn), bind_Ok.
    cbn [next ff_node]. now rewrite Z.eqb_refl.
Qed.

Lemma debug_emplaced_calls_on_free_slot_assert_witness :
  let c := mkContainer 4 2 (replicate 4 (mkBucket 255))
             [mkNode 255 255; mkNode 255 255] in
  insertEmplaced 8 true 0 c = AssertFailed /\
  findEmplaced 8 true 0 c = AssertFailed.
Proof.
  apply (debug_emplaced_calls_on_free_slot_assert 8 8 Spec_widths_8_8 2
           (mkContainer 4 2 (replicate 4 (mkBucket 255))
              (replicate 2 (mkNode 255 255)))
           [OpInsert 5 0; OpRemove 5 0]).
  - vm_compute. split; [discriminate|reflexivity].
  - reflexivity.
  - reflexivity.
  - reflexivity.
  - vm_compute. split; [discriminate|reflexivity].
  - reflexivity.
  - reflexivity.
Defined.

(** X15.  In a debug build, on a reached container, a second [insert] on a
    slot [s] that is linked under a hash [h0] fails an assertion whenever
    the stored fragment of [h0] is not the all-ones value: either the node
    has a successor, and the check of [next] fails, or it has none, and the
    check of [hash] fails. *)
Theorem debug_insert_on_linked_slot_asserts (sbits hbits : Z)
  (Hw : widths_ok sbits hbits)
  (entries : Z) (c0 : Container) (ops : list Op) (c : Container) (h0 s : Z)
  (He : 0 <= entries < 2 ^ 64)
  (Hc : GenericHashContainer sbits hbits true entries = Ok c0)
  (Hp : permitted_all (m_nodeCount c0) ops no_entries = true)
  (Hr : run sbits hbits true ops c0 = Ok c)
  (Hs : has_entry h0 s (linked (ghost_run ops no_entries)) = true)
  (Hfrag : high hbits h0 <> hashLimits_max hbits) :
  forall h, insert sbits hbits true h s c = AssertFailed.
Proof.
  intros h.
  destruct (reach sbits hbits true Hw entries c0 ops c He Hc Hp Hr)
    as (HR & Hnc & Hbc).
  set (g := ghost_run ops no_entries) in *.
  pose proof HR as (Hsh & _ & Hrange & _ & Hlk & _).
  apply has_entry_true in Hs.
  assert (Hsr : 0 <= s < m_nodeCount c).
  { apply (Hrange h0 s). rewrite elem_of_app. now left. }
  destruct (Hlk h0 s Hs) as (n & Hn & Hhash).
  unfold insert. rewrite (at_index_ok _ s n ltac:(lia) Hn), bind_Ok.
  unfold assert.
  destruct (next n =? sizeLimits_max sbits); [|reflexivity].
  rewrite bind_Ok, Hhash.
  destruct (Z.eqb_spec (high hbits h0) (hashLimits_max hbits));
    [contradiction|reflexivity].
Qed.

Lemma debug_insert_on_linked_slot_asserts_witness :
  let c := mkContainer 4 2
             [mkBucket 255; mkBucket 0; mkBucket 255; mkBucket 255]
             [mkNode 0 255; mkNode 255 255] in
  insert 8 8 true 9 0 c = AssertFailed.
Proof.
  refine (debug_insert_on_linked_slot_asserts 8 8 Spec_widths_8_8 2
            (mkContainer 4 2 (replicate 4 (mkBucket 255))
               (replicate 2 (mkNode 255 255)))
            [OpInsert 5 0] _ 5 0 _ _ _ _ _ _ 9).
  - vm_compute. split; [discriminate|reflexivity].
  - reflexivity.
  - reflexivity.
  - reflexivity.
  - reflexivity.
  - vm_compute. discriminate.
Defined.

(** ** A slot inserted twice in a release build *)

(** X16.  In a release build nothing stops a second [insert] on a slot.
    On a container of proper shape, [insert h s] followed by [insert h2 s]
    with [h2] selecting the same bucket makes node [s] its own successor.
    From then on [find h2] returns the cursor at [s] and advancing it
    returns [s] again, so no walk from it ends, whatever the number of
    steps allowed; the global cursor at [s] never leaves it either; and the
    scan of [find] for a hash of that bucket with another stored fragment
    never returns. *)
Theorem release_double_insert_cycles (sbits hbits : Z)
  (c : Container) (h h2 s : Z) (n : Node)
  (Hshape : shape sbits c)
  (Hs : 0 <= s < m_nodeCount c)
  (Hn : m_nodeList c !! Z.to_nat s = Some n)
  (Hb : low sbits h2 mod buckets c = low sbits h mod buckets c) :
  exists c' c'',
    insert sbits hbits false h s c = Ok c' /\
    insert sbits hbits false h2 s c' = Ok c'' /\
    m_nodeList c'' !! Z.to_nat s = Some (mkNode (high hbits h2) s) /\
    find sbits hbits h2 c'' = Ok (mkSearchIterator s) /\
    search_incr sbits (mkSearchIterator s) c'' = Ok (mkSearchIterator s) /\
    (forall fuel, search_walk sbits fuel (mkSearchIterator s) c'' = OutOfFuel) /\
    (forall fuel b, global_walk sbits fuel (mkIterator s b) c'' = OutOfFuel) /\
    (forall hh, hh <> high hbits h2 ->
       (forall fuel, findNext_loop sbits fuel hh s c'' = OutOfFuel) /\
       forall h', low sbits h' mod buckets c = low sbits h mod buckets c ->
         high hbits h' = hh -> find sbits hbits h' c'' = OutOfFuel).
Proof.
  unfold buckets in *.
  destruct (shape_slot sbits c s Hshape Hs) as (Hsmax & Hpos & _).
  destruct (shape_bucket sbits c h Hshape Hpos) as [Hbr _].
  pose proof Hshape as (H0 & Hbc & Hlt & Hlb & Hln).
  set (b := low sbits h mod m_bucketCount c) in *.
  destruct (lookup_lt_is_Some_2 (m_bucketList c) (Z.to_nat b)) as [bk Hbk];
    [lia|].
  assert (Hsl : (Z.to_nat s < length (m_nodeList c))%nat) by lia.
  assert (Hbl : (Z.to_nat b < length (m_bucketList c))%nat) by lia.
  set (c' := mkContainer (m_bucketCount c) (m_nodeCount c)
               (<[Z.to_nat b := mkBucket s]> (m_bucketList c))
               (<[Z.to_nat s := mkNode (high hbits h) (first bk)]>
                  (m_nodeList c))).
  set (c'' := mkContainer (m_bucketCount c) (m_nodeCount c)
                (<[Z.to_nat b := mkBucket s]> (m_bucketList c'))
                (<[Z.to_nat s := mkNode (high hbits h2) s]> (m_nodeList c'))).
  assert (Hn'' : m_nodeList c'' !! Z.to_nat s = Some (mkNode (high hbits h2) s)).
  { simpl. apply list_lookup_insert_eq. now rewrite length_insert. }
  assert (Hbk'' : m_bucketList c'' !! Z.to_nat b = Some (mkBucket s)).
  { simpl. apply list_lookup_insert_eq. now rewrite length_insert. }
  assert (Hloop : forall hh, hh <> high hbits h2 ->
            forall fuel, findNext_loop sbits fuel hh s c'' = OutOfFuel).
  { intros hh Hhh. induction fuel as [|fuel IH]; [reflexivity|].
    cbn [findNext_loop].
    destruct (Z.eqb_spec s (sizeLimits_max sbits)); [contradiction|].
    rewrite (at_index_ok _ s _ ltac:(lia) Hn''), bind_Ok. cbn [hash next].
    destruct (Z.eqb_spec (high hbits h2) hh); [congruence|exact IH]. }
  assert (Hnext : findNext sbits s c'' = Ok s).
  { unfold findNext. rewrite (at_index_ok _ s _ ltac:(lia) Hn''), bind_Ok.
    cbn [hash next]. unfold findNext2. cbn [findNext_loop].
    destruct (Z.eqb_spec s (sizeLimits_max sbits)); [contradiction|].
    rewrite (at_index_ok _ s _ ltac:(lia) Hn''), bind_Ok. cbn [hash].
    now rewrite Z.eqb_refl. }
  assert (Hincr : search_incr sbits (mkSearchIterator s) c''
                  = Ok (mkSearchIterator s)).
  { unfold search_incr. cbn [s_position]. now rewrite Hnext. }
  exists c', c''. split; [|split; [|split; [|split; [|split; [|split; [|split]]]]]].
  - apply (insert_effect sbits hbits false c h s n bk); try assumption;
      try lia; discriminate.
  - rewrite (insert_effect sbits hbits false c' h2 s
               (mkNode (high hbits h) (first bk)) (mkBucket s)).
    + change (m_bucketCount c') with (m_bucketCount c).
      change (m_nodeCount c') with (m_nodeCount c).
      rewrite Hb. reflexivity.
    + lia.
    + now apply list_lookup_insert_eq.
    + discriminate.
    + change (m_bucketCount c') with (m_bucketCount c). lia.
    + change (m_bucketCount c') with (m_bucketCount c). rewrite Hb. lia.
    + change (m_bucketCount c') with (m_bucketCount c). rewrite Hb.
      now apply list_lookup_insert_eq.
  - exact Hn''.
  - unfold find. change (m_bucketCount c'') with (m_bucketCount c).
    rewrite (umod_ok _ (m_bucketCount c)) by lia. rewrite bind_Ok, Hb.
    unfold find_in. rewrite (at_index_ok _ b _ ltac:(lia) Hbk''), bind_Ok.
    cbn [first]. unfold findNext2. cbn [findNext_loop].
    destruct (Z.eqb_spec s (sizeLimits_max sbits)); [contradiction|].
    rewrite (at_index_ok _ s _ ltac:(lia) Hn''), bind_Ok. cbn [hash].
    now rewrite Z.eqb_refl.
  - exact Hincr.
  - induction fuel as [|fuel IH]; [reflexivity|].
    cbn [search_walk s_position]. unfold valid.
    destruct (Z.eqb_spec s (sizeLimits_max sbits)); [contradiction|].
    cbn [negb]. now rewrite Hincr, bind_Ok, IH.
  - induction fuel as [|fuel IH]; intros b'; [reflexivity|].
    cbn [global_walk m_position m_bucket]. unfold valid.
    destruct (Z.eqb_spec s (sizeLimits_max sbits)); [contradiction|].
    cbn [negb]. unfold iterator_incr, nextElement. cbn [m_position m_bucket].
    rewrite (at_index_ok _ s _ ltac:(lia) Hn''), bind_Ok. cbn [next].
    destruct (Z.eqb_spec s (sizeLimits_max sbits)); [contradiction|].
    cbn [negb]. rewrite !bind_Ok. cbn [fst snd]. now rewrite IH.
  - intros hh Hhh. split; [exact (Hloop hh Hhh)|].
    intros h' Hb' Hh'. unfold find.
    change (m_bucketCount c'') with (m_bucketCount c).
    rewrite (umod_ok _ (m_bucketCount c)) by lia. rewrite bind_Ok, Hb'.
    unfold find_in. rewrite (at_index_ok _ b _ ltac:(lia) Hbk''), bind_Ok.
    cbn [first]. unfold findNext2. rewrite Hh', (Hloop hh Hhh). reflexivity.
Qed.

Lemma release_double_insert_cycles_witness :
  let c := mkContainer 4 2 (replicate 4 (mkBucket 255))
             (replicate 2 (mkNode 0 0)) in
  exists c' c'',
    insert 8 8 false 5 0 c = Ok c' /\
    insert 8 8 false 9 0 c' = Ok c'' /\
    m_nodeList c'' !! Z.to_nat 0 = Some (mkNode (high 8 9) 0) /\
    find 8 8 9 c'' = Ok (mkSearchIterator 0) /\
    search_incr 8 (mkSearchIterator 0) c'' = Ok (mkSearchIterator 0) /\
    (forall fuel, search_walk 8 fuel (mkSearchIterator 0) c'' = OutOfFuel) /\
    (forall fuel b, global_walk 8 fuel (mkIterator 0 b) c'' = OutOfFuel) /\
    (forall hh, hh <> high 8 9 ->
       (forall fuel, findNext_loop 8 fuel hh 0 c'' = OutOfFuel) /\
       forall h', low 8 h' mod buckets c = low 8 5 mod buckets c ->
         high 8 h' = hh -> find 8 8 h' c'' = OutOfFuel).
Proof.
  apply (release_double_insert_cycles 8 8
           (mkContainer 4 2 (replicate 4 (mkBucket 255))
              (replicate 2 (mkNode 0 0))) 5 9 0 (mkNode 0 0)).
  - vm_compute. repeat split; discriminate.
  - vm_compute. split; [discriminate|reflexivity].
  - reflexivity.
  - reflexivity.
Defined.

(** ** Copies and moved-from containers *)

Lemma copyArray_whole {T : Type} (l : list T) (size : Z) :
  0 <= size -> length l = Z.to_nat size -> copyArray l size = Ok l.
Proof.
  intros H0 Hl. unfold copyArray.
  destruct (Z.ltb_spec size 0); [lia|].
  destruct (Z.ltb_spec (Z.of_nat (length l)) size); [lia|]. simpl.
  now rewrite take_ge by lia.
Qed.

Lemma copy_whole sbits (c : Container) :
  shape sbits c -> GenericHashContainer_copy c = Ok c.
Proof.
  intros (H0 & Hbc & _ & Hlb & Hln). unfold GenericHashContainer_copy.
  rewrite (copyArray_whole (m_bucketList c)) by (lia || exact Hlb).
  rewrite bind_Ok.
  rewrite (copyArray_whole (m_nodeList c)) by (lia || exact Hln).
  rewrite bind_Ok. now destruct c.
Qed.

Lemma assign_whole sbits (this c : Container) :
  shape sbits c -> assign this c = Ok c.
Proof.
  intros Hsh. unfold assign. rewrite (copy_whole sbits c Hsh), bind_Ok.
  now destruct c.
Qed.

(** X17.  The copy constructor, applied to a container whose arrays have the
    lengths its counts say (every container made by the constructor and the
    calls on it), returns a container equal to it in counts and in every
    bucket and node; copy assignment replaces the target by that copy,
    whatever the target held; and [swap] exchanges the two containers, so
    that swapping twice restores both. *)
Theorem copy_reproduces_container (sbits : Z) (c : Container)
  (Hshape : shape sbits c) :
  GenericHashContainer_copy c = Ok c /\
  (forall this, assign this c = Ok c) /\
  (forall this, swap this c = (c, this)) /\
  (forall this, swap (swap this c).1 (swap this c).2 = (this, c)).
Proof.
  split; [exact (copy_whole sbits c Hshape)|]. split; [|split].
  - intros this. exact (assign_whole sbits this c Hshape).
  - intros this. now destruct c, this.
  - intros this. now destruct c, this.
Qed.

Lemma copy_reproduces_container_witness :
  let c := mkContainer 4 2
             [mkBucket 1; mkBucket 255; mkBucket 255; mkBucket 0]
             [mkNode 0 255; mkNode 0 255] in
  GenericHashContainer_copy c = Ok c /\
  (forall this, assign this c = Ok c) /\
  (forall this, swap this c = (c, this)) /\
  (forall this, swap (swap this c).1 (swap this c).2 = (this, c)).
Proof.
  apply (copy_reproduces_container 8
           (mkContainer 4 2
              [mkBucket 1; mkBucket 255; mkBucket 255; mkBucket 0]
              [mkNode 0 255; mkNode 0 255])).
  vm_compute. repeat split; discriminate.
Defined.

(** X18.  The move constructor hands the arrays to the new container, which
    equals the old one, and leaves the source with its counts and no arrays.
    On a source of capacity at least one every later use of it is
    undefined: [find], [begin], [insert], [remove], [hash], [clear] and
    copying all access an array that is gone, while [nodes()] and
    [buckets()] still report the old capacity.  Assigning a container to it
    makes it usable again. *)
Theorem moved_from_container_is_unusable (sbits hbits : Z) (debug : bool)
  (c : Container)
  (Hshape : shape sbits c)
  (Hcap : 1 <= nodes c) :
  let moved := (GenericHashContainer_move c).1 in
  let source := (GenericHashContainer_move c).2 in
  moved = c /\
  nodes source = nodes c /\ buckets source = buckets c /\
  (forall h, find sbits hbits h source = Undefined) /\
  begin sbits source = Undefined /\
  (forall h s, insert sbits hbits debug h s source = Undefined) /\
  (forall h s, remove sbits hbits debug h s source = Undefined) /\
  (forall i, hash_of i source = Undefined) /\
  clear sbits hbits debug source = Undefined /\
  GenericHashContainer_copy source = Undefined /\
  (forall other, shape sbits other -> assign source other = Ok other).
Proof.
  intros moved source. unfold nodes, buckets in *.
  pose proof Hshape as (H0 & Hbc & _ & Hlb & Hln).
  assert (Hnil : forall (A : Type) i, at_index ([] : list A) i = Undefined).
  { intros A i. unfold at_index. now destruct (i <? 0). }
  split; [unfold moved; now destruct c|].
  split; [reflexivity|]. split; [reflexivity|].
  split; [|split; [|split; [|split; [|split; [|split; [|split]]]]]].
  - intros h. unfold find, source. cbn [GenericHashContainer_move snd m_bucketCount].
    rewrite (umod_ok _ (m_bucketCount c)) by lia. rewrite bind_Ok.
    unfold find_in. cbn [m_bucketList]. now rewrite Hnil.
  - unfold begin, source. cbn [GenericHashContainer_move snd m_bucketList length].
    cbn [begin_loop m_bucketList]. now rewrite Hnil.
  - intros h s. unfold insert, source.
    cbn [GenericHashContainer_move snd m_nodeList]. now rewrite Hnil.
  - intros h s. unfold remove, source.
    cbn [GenericHashContainer_move snd m_nodeList]. now rewrite Hnil.
  - intros i. unfold hash_of, source.
    cbn [GenericHashContainer_move snd m_nodeList]. now rewrite Hnil.
  - unfold clear, source, memset_ff.
    cbn [GenericHashContainer_move snd m_nodeList m_bucketList m_nodeCount
         m_bucketCount length].
    destruct (Z.ltb_spec (m_nodeCount c) 0); [lia|].
    destruct (Z.ltb_spec (m_bucketCount c) 0); [lia|].
    destruct (Z.ltb_spec (Z.of_nat 0) (m_nodeCount c)); [|lia].
    destruct (Z.ltb_spec (Z.of_nat 0) (m_bucketCount c)); [|lia].
    now destruct debug.
  - unfold GenericHashContainer_copy, source, copyArray.
    cbn [GenericHashContainer_move snd m_bucketList m_bucketCount length].
    destruct (Z.ltb_spec (m_bucketCount c) 0); [lia|].
    destruct (Z.ltb_spec (Z.of_nat 0) (m_bucketCount c)); [|lia].
    reflexivity.
  - intros other Hother.
    exact (assign_whole sbits source other Hother).
Qed.

Lemma moved_from_container_is_unusable_witness :
  let c := mkContainer 4 2
             [mkBucket 1; mkBucket 255; mkBucket 255; mkBucket 0]
             [mkNode 0 255; mkNode 0 255] in
  let moved := (GenericHashContainer_move c).1 in
  let source := (GenericHashContainer_move c).2 in
  moved = c /\
  nodes source = nodes c /\ buckets source = buckets c /\
  (forall h, find 8 8 h source = Undefined) /\
  begin 8 source = Undefined /\
  (forall h s, insert 8 8 true h s source = Undefined) /\
  (forall h s, remove 8 8 true h s source = Undefined) /\
  (forall i, hash_of i source = Undefined) /\
  clear 8 8 true source = Undefined /\
  GenericHashContainer_copy source = Undefined /\
  (forall other, shape 8 other -> assign source other = Ok other).
Proof.
  apply (moved_from_container_is_unusable 8 8 true
           (mkContainer 4 2
              [mkBucket 1; mkBucket 255; mkBucket 255; mkBucket 0]
              [mkNode 0 255; mkNode 0 255])).
  - vm_compute. repeat split; discriminate.
  - vm_compute. discriminate.
Defined.

(** ** Slot [i] under hash [i]: the containers the test suite builds *)

Lemma identity_inserts_S n :
  identity_inserts (S n)
  = identity_inserts n ++ [OpInsert (Z.of_nat n) (Z.of_nat n)].
Proof. unfold identity_inserts. now rewrite seq_S, fmap_app. Qed.

Lemma identities_S n :
  rev (identities (S n)) = (Z.of_nat n, Z.of_nat n) :: rev (identities n).
Proof.
  unfold identities. rewrite seq_S, fmap_app, rev_app_distr. reflexivity.
Qed.

Lemma ghost_run_identity_inserts : forall n,
  ghost_run (identity_inserts n) no_entries
  = mkGhost (rev (identities n)) [].
Proof.
  induction n as [|n IH]; [reflexivity|].
  now rewrite identity_inserts_S, ghost_run_app, IH, identities_S.
Qed.

Lemma permitted_all_app nc : forall ops1 ops2 g,
  permitted_all nc (ops1 ++ ops2) g
  = permitted_all nc ops1 g && permitted_all nc ops2 (ghost_run ops1 g).
Proof.
  induction ops1 as [|op ops1 IH]; intros ops2 g; [reflexivity|].
  simpl. rewrite IH. now rewrite andb_assoc.
Qed.

Lemma elem_of_rev {A : Type} (x : A) (l : list A) : x ∈ rev l <-> x ∈ l.
Proof. rewrite !list_elem_of_In. symmetry. apply in_rev. Qed.

Lemma has_slot_identities n s :
  has_slot s (rev (identities n)) = true -> 0 <= s < Z.of_nat n.
Proof.
  intros H. apply has_slot_true in H. apply slots_elem_of in H as [h H].
  apply (proj1 (elem_of_rev _ _)) in H. unfold identities in H.
  apply list_elem_of_fmap in H as [i [Heq Hi]]. apply elem_of_seq in Hi.
  injection Heq as -> ->. lia.
Qed.

Lemma permitted_identity_inserts nc : forall n,
  Z.of_nat n <= nc -> nc <= 2 ^ 64 ->
  permitted_all nc (identity_inserts n) no_entries = true.
Proof.
  induction n as [|n IH]; intros Hn Hnc; [reflexivity|].
  rewrite identity_inserts_S, permitted_all_app, IH by lia.
  rewrite ghost_run_identity_inserts. simpl. rewrite andb_true_r.
  unfold fresh. simpl.
  destruct (Z.leb_spec 0 (Z.of_nat n)); [|lia].
  destruct (Z.ltb_spec (Z.of_nat n) (2 ^ 64)); [|lia].
  destruct (Z.ltb_spec (Z.of_nat n) nc); [|lia]. simpl.
  destruct (has_slot (Z.of_nat n) (rev (identities n))) eqn:Hhas; [|reflexivity].
  apply has_slot_identities in Hhas. lia.
Qed.

Section Identities.

Variables (sbits hbits bc : Z).
Hypothesis Hbc : 0 < bc < 2 ^ sbits.

Lemma low_mod_small x : 0 <= x < bc -> low sbits x mod bc = x.
Proof.
  intros Hx. unfold low, to_sizeType.
  rewrite (Z.mod_small x (2 ^ sbits)) by lia. apply Z.mod_small. lia.
Qed.

Lemma same_hash_identities i : forall n,
  Z.of_nat n <= bc -> 0 <= i < bc ->
  same_hash sbits hbits bc i (rev (identities n))
  = if i <? Z.of_nat n then [i] else [].
Proof.
  induction n as [|n IH]; intros Hn Hi.
  - simpl. destruct (Z.ltb_spec i (Z.of_nat 0)); [lia|reflexivity].
  - rewrite identities_S. cbn [same_hash fst snd].
    rewrite (low_mod_small (Z.of_nat n)), (low_mod_small i) by lia.
    rewrite IH by lia.
    destruct (Z.eqb_spec (Z.of_nat n) i) as [<-|Hne].
    + rewrite Z.eqb_refl, Z.ltb_irrefl. simpl.
      destruct (Z.ltb_spec (Z.of_nat n) (Z.of_nat (S n))); [reflexivity|lia].
    + simpl.
      destruct (Z.ltb_spec i (Z.of_nat n)), (Z.ltb_spec i (Z.of_nat (S n)));
        try reflexivity; lia.
Qed.

Lemma chain_of_identities b : forall n,
  Z.of_nat n <= bc -> 0 <= b < bc ->
  chain_of sbits bc b (rev (identities n))
  = if b <? Z.of_nat n then [b] else [].
Proof.
  induction n as [|n IH]; intros Hn Hb.
  - simpl. destruct (Z.ltb_spec b (Z.of_nat 0)); [lia|reflexivity].
  - rewrite identities_S. cbn [chain_of fst snd].
    rewrite (low_mod_small (Z.of_nat n)) by lia.
    rewrite IH by lia.
    destruct (Z.eqb_spec (Z.of_nat n) b) as [<-|Hne].
    + rewrite Z.ltb_irrefl.
      destruct (Z.ltb_spec (Z.of_nat n) (Z.of_nat (S n))); [reflexivity|lia].
    + destruct (Z.ltb_spec b (Z.of_nat n)), (Z.ltb_spec b (Z.of_nat (S n)));
        try reflexivity; lia.
Qed.

Lemma chains_from_identities n : forall k b,
  Z.of_nat n <= bc -> (b + k <= Z.to_nat bc)%nat ->
  chains_from sbits bc (Z.of_nat b) k (rev (identities n))
  = Z.of_nat <$> seq b (Nat.min k (n - b)).
Proof.
  induction k as [|k IH]; intros b Hn Hb; [reflexivity|].
  cbn [chains_from]. rewrite chain_of_identities by lia.
  replace (Z.of_nat b + 1) with (Z.of_nat (S b)) by lia.
  rewrite IH by lia.
  destruct (Z.ltb_spec (Z.of_nat b) (Z.of_nat n)).
  - replace (n - b)%nat with (S (n - S b)) by lia.
    rewrite <- Nat.succ_min_distr. reflexivity.
  - replace (n - b)%nat with 0%nat by lia.
    replace (n - S b)%nat with 0%nat by lia.
    now rewrite !Nat.min_0_r.
Qed.

End Identities.

(** X19.  The container the tests build: with capacity [entries >= 1],
    after [insert i i] for [i = 0 .. n - 1] with [n <= entries] on a fresh
    container, every call having been permitted, [find i] yields exactly
    slot [i] for each [i < n] and nothing for the other hashes below
    [buckets()]; the global cursor visits the slots [0, 1, ..., n - 1] in
    this order; and [remove i i] leaves [find i] with nothing and every
    other [find j] as it was. *)
Theorem identity_inserts_fill (sbits hbits : Z) (debug : bool)
  (Hw : widths_ok sbits hbits)
  (entries : Z) (n : nat) (c0 : Container)
  (He : 1 <= entries < 2 ^ 64)
  (Hn : Z.of_nat n <= entries)
  (Hc : GenericHashContainer sbits hbits debug entries = Ok c0) :
  permitted_all (nodes c0) (identity_inserts n) no_entries = true /\
  exists c, run sbits hbits debug (identity_inserts n) c0 = Ok c /\
    (forall i, 0 <= i < Z.of_nat n -> find_all sbits hbits i c = Ok [i]) /\
    (forall i, Z.of_nat n <= i < buckets c ->
       find_all sbits hbits i c = Ok []) /\
    enumerate sbits c = Ok (Z.of_nat <$> seq 0 n) /\
    (forall i, 0 <= i < Z.of_nat n ->
       exists c', remove sbits hbits debug i i c = Ok c' /\
         find_all sbits hbits i c' = Ok [] /\
         forall j, 0 <= j < Z.of_nat n -> j <> i ->
           find_all sbits hbits j c' = Ok [j]).
Proof.
  destruct (construct_inv sbits hbits debug Hw entries c0 ltac:(lia) Hc)
    as (Hsmall & HR0 & Hnc0 & Hbc0 & _).
  unfold nodes, buckets.
  assert (Hperm : permitted_all (m_nodeCount c0) (identity_inserts n)
                    no_entries = true).
  { apply permitted_identity_inserts; lia. }
  split; [exact Hperm|].
  destruct (Rep_run sbits hbits debug (identity_inserts n) c0 no_entries
              HR0 Hperm) as (c & Hrun & HR & Hnc & Hbcs).
  rewrite ghost_run_identity_inserts in HR.
  pose proof HR as (Hsh & _).
  destruct Hsh as (_ & _ & Hlt & _ & _).
  assert (Hbc : 0 < m_bucketCount c < 2 ^ sbits).
  { unfold sizeLimits_max in Hlt. lia. }
  assert (Hnb : Z.of_nat n <= m_bucketCount c) by lia.
  exists c. split; [exact Hrun|]. split; [|split; [|split]].
  - intros i Hi.
    rewrite (Rep_find_all sbits hbits debug c _ i HR) by lia. simpl linked.
    rewrite (same_hash_identities sbits hbits _ Hbc i n Hnb) by lia.
    destruct (Z.ltb_spec i (Z.of_nat n)); [reflexivity|lia].
  - intros i Hi.
    rewrite (Rep_find_all sbits hbits debug c _ i HR) by lia. simpl linked.
    rewrite (same_hash_identities sbits hbits _ Hbc i n Hnb) by lia.
    destruct (Z.ltb_spec i (Z.of_nat n)); [lia|reflexivity].
  - rewrite (Rep_enumerate sbits hbits debug c _ HR) by lia. simpl linked.
    pose proof (chains_from_identities sbits _ Hbc n
                  (Z.to_nat (m_bucketCount c)) 0%nat Hnb ltac:(lia)) as Hch.
    change (Z.of_nat 0) with 0 in Hch.
    rewrite Hch, Nat.sub_0_r, Nat.min_r by lia. reflexivity.
  - intros i Hi.
    assert (Hin : has_entry i i (rev (identities n)) = true).
    { apply has_entry_true. apply (proj2 (elem_of_rev _ _)).
      unfold identities.
      apply list_elem_of_fmap. exists (Z.to_nat i).
      split; [f_equal; lia|apply elem_of_seq; lia]. }
    destruct (Rep_remove sbits hbits debug c _ i i HR Hin)
      as (c' & Hrm & HR' & Hn' & Hb').
    simpl in HR'.
    exists c'. split; [exact Hrm|]. split.
    + rewrite (Rep_find_all sbits hbits debug c' _ i HR') by lia. simpl linked.
      rewrite Hb', same_hash_drop_slot.
      rewrite (same_hash_identities sbits hbits _ Hbc i n Hnb) by lia.
      destruct (Z.ltb_spec i (Z.of_nat n)); [|lia].
      simpl. now rewrite Z.eqb_refl.
    + intros j Hj Hne.
      rewrite (Rep_find_all sbits hbits debug c' _ j HR') by lia. simpl linked.
      rewrite Hb', same_hash_drop_slot.
      rewrite (same_hash_identities sbits hbits _ Hbc j n Hnb) by lia.
      destruct (Z.ltb_spec j (Z.of_nat n)); [|lia].
      simpl. destruct (Z.eqb_spec j i); [contradiction|reflexivity].
Qed.

Lemma identity_inserts_fill_witness :
  let c0 := mkContainer 8 4 (replicate 8 (mkBucket 255))
              (replicate 4 (mkNode 255 255)) in
  permitted_all (nodes c0) (identity_inserts 3) no_entries = true /\
  exists c, run 8 8 true (identity_inserts 3) c0 = Ok c /\
    (forall i, 0 <= i < Z.of_nat 3 -> find_all 8 8 i c = Ok [i]) /\
    (forall i, Z.of_nat 3 <= i < buckets c -> find_all 8 8 i c = Ok []) /\
    enumerate 8 c = Ok (Z.of_nat <$> seq 0 3) /\
    (forall i, 0 <= i < Z.of_nat 3 ->
       exists c', remove 8 8 true i i c = Ok c' /\
         find_all 8 8 i c' = Ok [] /\
         forall j, 0 <= j < Z.of_nat 3 -> j <> i ->
           find_all 8 8 j c' = Ok [j]).
Proof.
  apply (identity_inserts_fill 8 8 true Spec_widths_8_8 4 3).
  - vm_compute. split; [discriminate|reflexivity].
  - vm_compute. discriminate.
  - reflexivity.
Defined.

(** ** When [begin()] is valid *)

(** X20.  On a reached container of capacity at least one, [begin()]
    returns a valid cursor exactly when the container holds a linked entry,
    and a cursor equal to [end()] exactly when it holds none; a valid
    cursor stands on the slot of a linked entry, the first one the global
    walk yields. *)
Theorem begin_valid_iff_entries (sbits hbits : Z) (debug : bool)
  (Hw : widths_ok sbits hbits)
  (entries : Z) (c0 : Container) (ops : list Op) (c : Container)
  (He : 1 <= entries < 2 ^ 64)
  (Hc : GenericHashContainer sbits hbits debug entries = Ok c0)
  (Hp : permitted_all (m_nodeCount c0) ops no_entries = true)
  (Hr : run sbits hbits debug ops c0 = Ok c) :
  let lk := linked (ghost_run ops no_entries) in
  exists it visited,
    begin sbits c = Ok it /\
    enumerate sbits c = Ok visited /\
    m_position it = hd (sizeLimits_max sbits) visited /\
    (valid sbits (m_position it) = true <-> lk <> []) /\
    (iterator_eq it (end_ sbits c) = true <-> lk = []) /\
    (lk <> [] ->
     0 <= m_position it < nodes c /\ exists h, (h, m_position it) ∈ lk).
Proof.
  intros lk.
  destruct (reach sbits hbits debug Hw entries c0 ops c ltac:(lia) Hc Hp Hr)
    as (HR & Hnc & Hbc).
  set (g := ghost_run ops no_entries) in *. unfold nodes.
  pose proof HR as (Hsh & Hnd & Hrange & Hbk & _).
  pose proof Hsh as (H0 & Hbc2 & Hlt & Hlb & Hln).
  assert (Hpos : 0 < m_bucketCount c) by lia.
  apply NoDup_app in Hnd as (Hnd & _ & _).
  destruct (begin_loop_spec sbits c (linked g) Hsh Hbk
              (Z.to_nat (m_bucketCount c - 1))
              (S (length (m_bucketList c))) 0) as (it & Hbegin & Hst);
    [lia..|].
  replace (S (Z.to_nat (m_bucketCount c - 1)))
    with (Z.to_nat (m_bucketCount c)) in Hst by lia.
  set (visited := chains_from sbits (m_bucketCount c) 0
                    (Z.to_nat (m_bucketCount c)) (linked g)) in *.
  pose proof (chains_from_all sbits (m_bucketCount c) (linked g) Hpos Hnd)
    as Hperm.
  fold visited in Hperm.
  destruct Hst as [Hhd _].
  assert (Hcases : (lk = [] /\ m_position it = sizeLimits_max sbits) \/
                   (lk <> [] /\ 0 <= m_position it < m_nodeCount c /\
                    exists h, (h, m_position it) ∈ lk)).
  { destruct visited as [|x rest] eqn:Hv.
    - left. split; [|exact Hhd].
      symmetry in Hperm. apply Permutation_nil_r in Hperm.
      unfold lk. now destruct (linked g).
    - right. assert (Hx : x ∈ (linked g).*2).
      { rewrite <- Hperm. apply elem_of_cons. now left. }
      apply slots_elem_of in Hx as [h Hx]. simpl in Hhd. rewrite Hhd.
      split; [|split].
      + unfold lk. intros Hnil. rewrite Hnil in Hx. inversion Hx.
      + apply (Hrange h x). rewrite elem_of_app. now left.
      + now exists h. }
  exists it, visited. split; [exact Hbegin|]. split.
  { exact (Rep_enumerate sbits hbits debug c g HR Hpos). }
  split; [exact Hhd|].
  unfold valid, iterator_eq, end_. cbn [m_position].
  destruct Hcases as [[Hnil Hp0]|(Hne & Hp1 & Hex)].
  - rewrite Hp0, Z.eqb_refl. simpl. split; [|split].
    + split; [discriminate|contradiction].
    + split; [intros _; exact Hnil|reflexivity].
    + contradiction.
  - destruct (Z.eqb_spec (m_position it) (sizeLimits_max sbits)) as [Heq|Hneq];
      [lia|].
    simpl. split; [|split].
    + split; [intros _; exact Hne|reflexivity].
    + split; [discriminate|contradiction].
    + intros _. split; [exact Hp1|exact Hex].
Qed.

Lemma begin_valid_iff_entries_witness :
  let c := mkContainer 4 2
             [mkBucket 255; mkBucket 0; mkBucket 255; mkBucket 1]
             [mkNode 0 255; mkNode 0 255] in
  let lk := linked (ghost_run [OpInsert 5 0; OpInsert 7 1] no_entries) in
  exists it visited,
    begin 8 c = Ok it /\
    enumerate 8 c = Ok visited /\
    m_position it = hd (sizeLimits_max 8) visited /\
    (valid 8 (m_position it) = true <-> lk <> []) /\
    (iterator_eq it (end_ 8 c) = true <-> lk = []) /\
    (lk <> [] ->
     0 <= m_position it < nodes c /\ exists h, (h, m_position it) ∈ lk).
Proof.
  apply (begin_valid_iff_entries 8 8 false Spec_widths_8_8 2
           (mkContainer 4 2 (replicate 4 (mkBucket 255))
              (replicate 2 (mkNode 0 0)))
           [OpInsert 5 0; OpInsert 7 1]).
  - vm_compute. split; [discriminate|reflexivity].
  - reflexivity.
  - reflexivity.
  - reflexivity.
Defined.
